(** * PyonFX [ass_core.py]: segmentation, karaoke timing, layout and lead times

    A shallow embedding of the extended computation of [Ass.__init__]
    (src/pyonfx/ass_core.py, lines 611-1143) and of [Ass.write_line]
    (lines 1153-1181), followed by the parser of the constructor (lines
    464-609), [get_data], [save], [open_aegisub], [open_mpv] (lines
    1145-1278) and [pretty_print] (lines 29-56).

    Conventions of the embedding.
    - A Python [str] is a [str]: a sequence of Unicode code points, each a
      number ([char]). Its length, its slices and the character classes of
      [re], [str.isspace], [str.strip] and [int] are those of the interpreter
      on code points.
    - Python [int]s that count or index are [nat]; times and margins are [Z].
    - Numbers that take part in the float arithmetic of the layout live in an
      abstract type with the operations the code uses ([PyNum]); the font
      metrics provider ([Font], module [font_utility], not part of this file)
      is an abstract pure function ([FontProvider]).
    - An attribute that an object may not have yet is an [option]; an
      exception is a [Raise] in the [result] monad.
    - Every regular expression of the source is rendered by a matcher that
      follows the backtracking order of Python's [re] for that pattern; the
      pattern is described above each matcher. *)

From Stdlib Require Import ZArith QArith List Bool Lia.
From Stdlib Require Import DecimalPos Sorted Permutation.
From Stdlib Require Strings.Byte.
From Equations Require Import Equations.
Import ListNotations.
Local Open Scope bool_scope.

(** ** Exceptions *)

Inductive exn : Type :=
| AttributeError
| KeyError
| IndexError
| TypeError.

Inductive result (A : Type) : Type :=
| Ok (a : A)
| Raise (e : exn).
Arguments Ok {A} a.
Arguments Raise {A} e.

Definition bind {A B : Type} (m : result A) (k : A -> result B) : result B :=
  match m with
  | Ok a => k a
  | Raise e => Raise e
  end.

Notation "x <- m ;; k" := (bind m (fun x => k))
  (at level 61, m at next level, right associativity).
Notation "' p <- m ;; k" := (bind m (fun p => k))
  (at level 61, p pattern, m at next level, right associativity).

Definition inspect {A : Type} (a : A) : {b : A | a = b} := exist _ a eq_refl.

(** ** Characters and strings *)

(** A character of a Python [str] is a Unicode code point. *)
Definition char : Set := N.

Declare Scope char_scope.
Delimit Scope char_scope with char.
Bind Scope char_scope with char.
Declare Scope str_scope.
Delimit Scope str_scope with str.

(** A Python [str]: a sequence of code points. *)
Inductive str : Set :=
| EmptyString
| String (c : char) (s : str).
Bind Scope str_scope with str.
Arguments String c%_char s%_str.

(** Literals. A literal between double quotes stands for the code points of
    its characters, which are ASCII; any other code point is written as a
    number. *)
Definition char_of_byte (b : Byte.byte) : option N :=
  let n := Strings.Byte.to_N b in
  if (n <? 128)%N then Some n else None.

Definition no_byte (c : N) : option Byte.byte := None.

Definition byte_of_char (c : char) : option Byte.byte :=
  if (c <? 128)%N then Strings.Byte.of_N c else None.

Fixpoint str_of_bytes (l : list Byte.byte) : option str :=
  match l with
  | [] => Some EmptyString
  | b :: r =>
      match char_of_byte b, str_of_bytes r with
      | Some c, Some s => Some (String c s)
      | _, _ => None
      end
  end.

Fixpoint bytes_of_str (s : str) : option (list Byte.byte) :=
  match s with
  | EmptyString => Some []
  | String c r =>
      match byte_of_char c, bytes_of_str r with
      | Some b, Some l => Some (b :: l)
      | _, _ => None
      end
  end.

String Notation N char_of_byte no_byte : char_scope.
String Notation str str_of_bytes bytes_of_str : str_scope.
Local Open Scope str_scope.

(** The operations of [str] the code uses. *)
Module Str.

(** [len(s)] *)
Fixpoint length (s : str) : nat :=
  match s with
  | "" => O
  | String _ r => S (length r)
  end.

(** [s + t] *)
Fixpoint append (s t : str) : str :=
  match s with
  | "" => t
  | String c r => String c (append r t)
  end.

(** [s == t] *)
Fixpoint eqb (s t : str) : bool :=
  match s, t with
  | "", "" => true
  | String c r, String d q => N.eqb c d && eqb r q
  | _, _ => false
  end.

(** [sep.join(l)] *)
Fixpoint concat (sep : str) (l : list str) : str :=
  match l with
  | [] => ""
  | [x] => x
  | x :: r => append x (append sep (concat sep r))
  end.

(** [s[n : n + m]] *)
Fixpoint substring (n m : nat) (s : str) : str :=
  match n, s with
  | _, "" => ""
  | S k, String _ r => substring k m r
  | O, String c r =>
      match m with
      | O => ""
      | S j => String c (substring O j r)
      end
  end.

End Str.

Infix "++" := Str.append (right associativity, at level 60) : str_scope.

Definition lbrace : char := "{"%char.
Definition rbrace : char := "}"%char.
Definition backslash : char := "\"%char.
Definition newline : char := 10%N.

(** [str.isspace] on one character, which is also the class [\s] of [re] on
    [str] patterns and what [str.strip] removes: the characters of the
    bidirectional types WS, B and S and of the category Zs, that is TAB..CR,
    FS..US, SPACE, NEL, NBSP, U+1680, U+2000..U+200A, U+2028, U+2029, U+202F,
    U+205F and U+3000. *)
Definition isspace (c : char) : bool :=
  (((9 <=? c) && (c <=? 13))
   || ((28 <=? c) && (c <=? 32))
   || (c =? 133) || (c =? 160) || (c =? 5760)
   || ((8192 <=? c) && (c <=? 8202))
   || (c =? 8232) || (c =? 8233) || (c =? 8239) || (c =? 8287)
   || (c =? 12288))%N.

(** The decimal digits: the characters of the category Nd, which the class
    [\d] of [re] matches on [str] patterns and [int] converts. They come in
    number systems of ten consecutive code points, the digits 0 to 9 of a
    script in this order; the list gives the digit 0 of each system of
    Unicode 14.0, ASCII first. *)
Definition decimal_zeros : list N :=
  [48; 1632; 1776; 1984; 2406; 2534; 2662; 2790; 2918; 3046; 3174; 3302;
   3430; 3558; 3664; 3792; 3872; 4160; 4240; 6112; 6160; 6470; 6608; 6784;
   6800; 6992; 7088; 7232; 7248; 42528; 43216; 43264; 43472; 43504; 43600;
   44016; 65296; 66720; 68912; 69734; 69872; 69942; 70096; 70384; 70736;
   70864; 71248; 71360; 71472; 71904; 72016; 72784; 73040; 73120; 92768;
   92864; 93008; 120782; 120792; 120802; 120812; 120822; 123200; 123632;
   125264; 130032]%N.

(** The value of a decimal digit, [None] for any other character. *)
Definition decimal (c : char) : option N :=
  match find (fun z => (z <=? c) && (c <? z + 10))%N decimal_zeros with
  | Some z => Some (c - z)%N
  | None => None
  end.

(** The class [\d] of [re]. *)
Definition isdigit (c : char) : bool :=
  match decimal c with
  | Some _ => true
  | None => false
  end.

(** [.] without DOTALL: any character but the newline. *)
Definition dot (c : char) : bool := negb (N.eqb c newline).

Definition nonspace (c : char) : bool := negb (isspace c).
Definition notbackslash (c : char) : bool := negb (N.eqb c backslash).

(** ** Strings *)

Fixpoint forall_chars (p : char -> bool) (s : str) : bool :=
  match s with
  | "" => true
  | String c r => p c && forall_chars p r
  end.

Definition nonempty (s : str) : bool :=
  match s with
  | "" => false
  | String _ _ => true
  end.

(** [s.isspace()]: at least one character and all of them whitespace. *)
Definition str_isspace (s : str) : bool :=
  nonempty s && forall_chars isspace s.

(** The longest prefix of [s] whose characters satisfy [p], and the rest: what
    a greedy [p*] consumes before anything makes it give characters back. *)
Fixpoint span (p : char -> bool) (s : str) : str * str :=
  match s with
  | "" => ("", "")
  | String c r =>
      if p c then let (a, b) := span p r in (String c a, b)
      else ("", s)
  end.

(** ["c" * n] *)
Fixpoint repeat_char (c : char) (n : nat) : str :=
  match n with
  | O => ""
  | S k => String c (repeat_char c k)
  end.

(** [s.replace("}{", "")] *)
Fixpoint remove_close_open (s : str) : str :=
  match s with
  | "" => ""
  | String c r =>
      match r with
      | String d r' =>
          if N.eqb c rbrace && N.eqb d lbrace
          then remove_close_open r'
          else String c (remove_close_open r)
      | "" => String c ""
      end
  end.

(** [int(s)] on a string of decimal digits, of any number systems. (An
    interpreter that bounds the number of digits [int] converts, 4300 by
    default since Python 3.11, raises a ValueError beyond the bound; the bound
    is a setting of the interpreter and is left at unlimited.) *)
Definition digit_value (c : char) : Z :=
  match decimal c with
  | Some d => Z.of_N d
  | None => 0%Z
  end.

Fixpoint int_of_digits_from (acc : Z) (s : str) : Z :=
  match s with
  | "" => acc
  | String c r => int_of_digits_from (10 * acc + digit_value c) r
  end.

Definition int_of_digits (s : str) : Z := int_of_digits_from 0 s.

(** The digits of a decimal numeral. *)
Fixpoint uint_digits (d : Decimal.uint) : str :=
  match d with
  | Decimal.Nil => ""
  | Decimal.D0 r => String "0" (uint_digits r)
  | Decimal.D1 r => String "1" (uint_digits r)
  | Decimal.D2 r => String "2" (uint_digits r)
  | Decimal.D3 r => String "3" (uint_digits r)
  | Decimal.D4 r => String "4" (uint_digits r)
  | Decimal.D5 r => String "5" (uint_digits r)
  | Decimal.D6 r => String "6" (uint_digits r)
  | Decimal.D7 r => String "7" (uint_digits r)
  | Decimal.D8 r => String "8" (uint_digits r)
  | Decimal.D9 r => String "9" (uint_digits r)
  end.

(** [str] on a natural number and on an integer given by their decimal
    numerals: at least one digit, and a minus sign before a negative one. *)
Definition str_of_uint (d : Decimal.uint) : str :=
  match d with
  | Decimal.Nil => "0"
  | _ => uint_digits d
  end.

Definition str_of_int (d : Decimal.int) : str :=
  match d with
  | Decimal.Pos u => str_of_uint u
  | Decimal.Neg u => String "-" (str_of_uint u)
  end.

(** ** The regular expressions of the extended computation *)

(** [.*?\}] read just after an opening brace: the text up to the first
    closing brace, provided no newline comes before it, and what follows the
    brace. *)
Fixpoint lazy_to_close (s : str) : option (str * str) :=
  match s with
  | "" => None
  | String c r =>
      if N.eqb c rbrace then Some ("", r)
      else if dot c then
        match lazy_to_close r with
        | Some (body, rest) => Some (String c body, rest)
        | None => None
        end
      else None
  end.

(** [\{.*?\}] anchored at the head of [s]: the body and the remainder. *)
Definition tag_group (s : str) : option (str * str) :=
  match s with
  | String c r => if N.eqb c lbrace then lazy_to_close r else None
  | "" => None
  end.

Lemma lazy_to_close_shorter s body rest :
  lazy_to_close s = Some (body, rest) ->
  (Str.length rest < Str.length s)%nat.
Proof.
  revert body; induction s as [|c r IH]; intros body; simpl; [discriminate|].
  destruct (N.eqb c rbrace); [intros [= <- <-]; lia|].
  destruct (dot c); [|discriminate].
  destruct (lazy_to_close r) as [[b q]|] eqn:E; [|discriminate].
  intros [= <- <-]. specialize (IH _ eq_refl). lia.
Qed.

Lemma tag_group_shorter s body rest :
  tag_group s = Some (body, rest) ->
  (Str.length rest < Str.length s)%nat.
Proof.
  destruct s as [|c r]; simpl; [discriminate|].
  destruct (N.eqb c lbrace); [|discriminate].
  intros H. apply lazy_to_close_shorter in H. lia.
Qed.

(** The substitution of line 629, which deletes every brace group: scan from
    the left; where a group matches it is dropped and the scan resumes after
    it, elsewhere the character is kept. *)
Equations? strip_tags (s : str) : str by wf (Str.length s) lt :=
  strip_tags "" := "";
  strip_tags (String c r) with inspect (tag_group (String c r)) := {
    | exist _ (Some (_, rest)) _ := strip_tags rest;
    | exist _ None _ := String c (strip_tags r) }.
Proof.
  apply (tag_group_shorter (String c r) s rest e).
Qed.

Lemma strip_tags_eq s :
  strip_tags s =
  match s with
  | "" => ""
  | String c r =>
      match tag_group s with
      | Some (_, rest) => strip_tags rest
      | None => String c (strip_tags r)
      end
  end.
Proof.
  destruct s as [|c r]; [reflexivity|].
  rewrite strip_tags_equation_2.
  destruct (inspect (tag_group (String c r))) as [[[body rest]|] e];
    unfold strip_tags_unfold_clause_2; rewrite e; reflexivity.
Qed.

(** Zero or more brace groups at the head of [s], as many as there are: the
    text of the groups matched one after the other, and the remainder. *)
Equations? tag_groups (s : str) : str * str
  by wf (Str.length s) lt :=
  tag_groups s with inspect (tag_group s) := {
    | exist _ (Some (body, rest)) _ :=
        let (m, r) := tag_groups rest in
        (String lbrace (body ++ String rbrace m), r);
    | exist _ None _ := ("", s) }.
Proof.
  apply (tag_group_shorter s body rest e).
Qed.

Lemma tag_groups_eq s :
  tag_groups s =
  match tag_group s with
  | Some (body, rest) =>
      let (m, r) := tag_groups rest in
      (String lbrace (body ++ String rbrace m), r)
  | None => ("", s)
  end.
Proof.
  rewrite tag_groups_equation_1.
  destruct (inspect (tag_group s)) as [[[body rest]|] e];
    unfold tag_groups_unfold_clause_1; rewrite e; reflexivity.
Qed.

(** [tag_pattern] (line 812), one or more brace groups, anchored at the head
    of [s]. *)
Definition tag_match (s : str) : option (str * str) :=
  let (m, r) := tag_groups s in
  if nonempty m then Some (m, r) else None.

(** [tag_pattern.search]: the leftmost match, returned as the text before it
    ([s[:tag.start()]]), the match and the text after it ([s[tag.end():]]). *)
Fixpoint tag_search (s : str) : option (str * str * str) :=
  match tag_match s with
  | Some (m, rest) => Some ("", m, rest)
  | None =>
      match s with
      | "" => None
      | String c r =>
          match tag_search r with
          | Some (before, m, rest) => Some (String c before, m, rest)
          | None => None
          end
      end
  end.

(** The test of line 842, [re.match] of a lazy run of any characters, then
    one or more whitespace characters, then the end anchor, as a truth value.
    The lazy prefix grows one non-newline character at a time; at each length
    the rest must be one or more whitespace characters up to the end of the
    string. (The anchor also matches before a final newline, but that newline
    is whitespace, so the whitespace run reaches the end first.) *)
Fixpoint trailing_space_match (s : str) : bool :=
  if str_isspace s then true
  else
    match s with
    | "" => false
    | String c r => if dot c then trailing_space_match r else false
    end.

(** The pattern of line 712 (a whitespace run, a non-empty run of
    non-whitespace, a whitespace run, all greedy), one match at the head of
    [s]: the three groups and the remainder. Each greedy run takes all it can;
    giving back whitespace of the first run would put whitespace under the
    second group, so no backtracking changes the outcome. *)
Definition word_match (s : str) : option (str * str * str * str) :=
  let (pre, r1) := span isspace s in
  let (w, r2) := span nonspace r1 in
  let (post, r3) := span isspace r2 in
  if nonempty w then Some (pre, w, post, r3) else None.

Lemma span_length p s :
  (Str.length (fst (span p s)) + Str.length (snd (span p s))
   = Str.length s)%nat.
Proof.
  induction s as [|c r IH]; simpl; [reflexivity|].
  destruct (p c); simpl; [|reflexivity].
  destruct (span p r) as [a b]; simpl in *. lia.
Qed.

Lemma word_match_shorter s pre w post rest :
  word_match s = Some (pre, w, post, rest) ->
  (Str.length rest < Str.length s)%nat.
Proof.
  unfold word_match.
  pose proof (span_length isspace s) as H1.
  destruct (span isspace s) as [p1 r1]; simpl in H1.
  pose proof (span_length nonspace r1) as H2.
  destruct (span nonspace r1) as [w1 r2]; simpl in H2.
  pose proof (span_length isspace r2) as H3.
  destruct (span isspace r2) as [p3 r3]; simpl in H3.
  destruct w1 as [|c w1]; simpl; [discriminate|].
  intros [= <- <- <- <-]. simpl in H2. lia.
Qed.

(** [re.findall] of line 712: the matches from left to right; after a match
    the scan resumes where it ended, elsewhere it moves on by one character.
    (On the empty string there is no match.) *)
Equations? find_words (s : str) : list (str * str * str)
  by wf (Str.length s) lt :=
  find_words "" := [];
  find_words (String c r) with inspect (word_match (String c r)) := {
    | exist _ (Some (pre, w, post, rest)) _ :=
        (pre, w, post) :: find_words rest;
    | exist _ None _ := find_words r }.
Proof.
  apply (word_match_shorter (String c r) pre w post rest e).
Qed.

Lemma find_words_eq s :
  find_words s =
  match word_match s with
  | Some (pre, w, post, rest) => (pre, w, post) :: find_words rest
  | None =>
      match s with
      | "" => []
      | String _ r => find_words r
      end
  end.
Proof.
  destruct s as [|c r]; [reflexivity|].
  rewrite find_words_equation_2.
  destruct (inspect (word_match (String c r))) as [[[[[pre w] post] rest]|] e];
    unfold find_words_unfold_clause_2; rewrite e; reflexivity.
Qed.

(** The karaoke tag of [syl_tags_pattern] (line 853) anchored at the head of
    [s]: a backslash, [k] or [K], an optional [o] or [f], one or more digits;
    returns the digits and the remainder. When [o] or [f] follows the [k],
    taking it is the only way on: without it the digits would have to start
    on that letter. *)
Definition ktag_here (s : str) : option (str * str) :=
  match s with
  | String b (String k r) =>
      if N.eqb b backslash
         && (N.eqb k "k"%char || N.eqb k "K"%char) then
        let r' :=
          match r with
          | String m r2 =>
              if N.eqb m "o"%char || N.eqb m "f"%char then r2 else r
          | "" => r
          end in
        let (d, rest) := span isdigit r' in
        if nonempty d then Some (d, rest) else None
      else None
  | _ => None
  end.

(** [syl_tags_pattern.match(s)] (lines 853, 858, 866): a lazy run of any
    characters, the karaoke tag, a greedy run of any characters; returns the
    groups (pretags, kdur, posttags). The lazy prefix grows one non-newline
    character at a time; the greedy last group takes the rest of the line. *)
Fixpoint syl_tags_match (s : str) : option (str * str * str) :=
  match ktag_here s with
  | Some (d, rest) => Some ("", d, fst (span dot rest))
  | None =>
      match s with
      | "" => None
      | String c r =>
          if dot c then
            match syl_tags_match r with
            | Some (pre, d, post) => Some (String c pre, d, post)
            | None => None
            end
          else None
      end
  end.

(** The search of lines 871 and 893 for a backslash, a hyphen and a non-empty
    greedy run of non-backslash characters: group 1 of the leftmost match, the
    inline effect name. *)
Fixpoint inline_fx_search (s : str) : option str :=
  match s with
  | "" => None
  | String c r =>
      if N.eqb c backslash then
        match r with
        | String d r2 =>
            if N.eqb d "-"%char && nonempty (fst (span notbackslash r2))
            then Some (fst (span notbackslash r2))
            else inline_fx_search r
        | "" => None
        end
      else inline_fx_search r
  end.

(** The second and third groups of the pattern of line 902, read after the
    leading whitespace: the lazy core grows one non-newline character at a
    time until the rest is whitespace up to the end of the string. *)
Fixpoint lazy_core (s : str) : option (str * str) :=
  if forall_chars isspace s then Some ("", s)
  else
    match s with
    | "" => None
    | String c r =>
        if dot c then
          match lazy_core r with
          | Some (core, post) => Some (String c core, post)
          | None => None
          end
        else None
    end.

(** [re.match] of line 901 (greedy whitespace, a lazy run of any characters,
    greedy whitespace, the end anchor): [None] when there is no match. The
    first group takes all the leading whitespace; giving some of it back only
    moves it under the lazy core, which then fails where it failed before. *)
Definition split_text_match (s : str) : option (str * str * str) :=
  let (pre, r) := span isspace s in
  match lazy_core r with
  | Some (core, post) => Some (pre, core, post)
  | None => None
  end.

(** ** Numbers and the font metrics provider *)

(** The numbers of the layout arithmetic. Python mixes [int] and [float]
    there; [of_int] is the conversion an [int] undergoes when it meets a
    [float], and the operations are those the code applies. The theorems hold
    for every interpretation of them, IEEE doubles included. The operations
    are total: an [int] too large for a [float] makes the conversion raise an
    OverflowError in the code, which stops the constructor; the model follows
    the code where no conversion overflows. *)
Class PyNum (R : Type) : Type := {
  of_int : Z -> R;
  radd : R -> R -> R;
  rsub : R -> R -> R;
  rmul : R -> R -> R;
  rdiv : R -> R -> R;
  rmax : R -> R -> R }.

Declare Scope py_scope.
Delimit Scope py_scope with py.
Infix "+" := radd : py_scope.
Infix "-" := rsub : py_scope.
Infix "*" := rmul : py_scope.
Infix "/" := rdiv : py_scope.

(** ** Data model *)

Module Meta.
Record t : Type := mk {
  wrap_style : Z;
  scaled_border_and_shadow : bool;
  play_res_x : Z;
  play_res_y : Z;
  audio : str;
  video : str }.
End Meta.

Module Style.
#[local] Set Implicit Arguments.
Record t (R : Type) : Type := mk {
  fontname : str;
  fontsize : R;
  color1 : str; alpha1 : str;
  color2 : str; alpha2 : str;
  color3 : str; alpha3 : str;
  color4 : str; alpha4 : str;
  bold : bool; italic : bool; underline : bool; strikeout : bool;
  scale_x : R; scale_y : R;
  spacing : R;
  angle : R;
  border_style : bool;
  outline : R; shadow : R;
  alignment : Z;
  margin_l : Z; margin_r : Z; margin_v : Z;
  encoding : Z }.
End Style.

(** The eight positional attributes, which every placement loop of the source
    assigns together. *)
Module Pos.
#[local] Set Implicit Arguments.
Record t (R : Type) : Type := mk {
  x : R; y : R;
  left : R; center : R; right : R;
  top : R; middle : R; bottom : R }.
End Pos.

(** (ascent, descent, internal_leading, external_leading) *)
Definition FontMetrics (R : Type) : Type := (R * R * R * R)%type.

(** [Font(style)], [font.get_metrics()] and [font.get_text_extents(text)] of
    module [font_utility]. *)
Class FontProvider (R : Type) : Type := {
  get_metrics : Style.t R -> FontMetrics R;
  get_text_extents : Style.t R -> str -> R * R }.

Module Word.
#[local] Set Implicit Arguments.
Record t (R : Type) : Type := mk {
  i : nat;
  start_time : Z; end_time : Z; duration : Z;
  styleref : Style.t R;
  text : str;
  prespace : nat; postspace : nat;
  width : R; height : R;
  metrics : FontMetrics R;
  pos : option (Pos.t R) }.

Definition set_pos {R} (w : t R) (p : Pos.t R) : t R :=
  mk (i w) (start_time w) (end_time w) (duration w) (styleref w) (text w)
     (prespace w) (postspace w) (width w) (height w) (metrics w) (Some p).

(** The word without its positional attributes. *)
Definition clear_pos {R} (w : t R) : t R :=
  mk (i w) (start_time w) (end_time w) (duration w) (styleref w) (text w)
     (prespace w) (postspace w) (width w) (height w) (metrics w) None.
End Word.

Module Syllable.
#[local] Set Implicit Arguments.
Record t (R : Type) : Type := mk {
  i : nat;
  word_i : nat;
  start_time : Z; end_time : Z; duration : Z;
  styleref : Style.t R;
  text : str;
  tags : str;
  inline_fx : str;
  prespace : nat; postspace : nat;
  width : R; height : R;
  metrics : FontMetrics R;
  pos : option (Pos.t R) }.

Definition set_pos {R} (s : t R) (p : Pos.t R) : t R :=
  mk (i s) (word_i s) (start_time s) (end_time s) (duration s) (styleref s)
     (text s) (tags s) (inline_fx s) (prespace s) (postspace s)
     (width s) (height s) (metrics s) (Some p).

(** The syllable without its positional attributes. *)
Definition clear_pos {R} (s : t R) : t R :=
  mk (i s) (word_i s) (start_time s) (end_time s) (duration s) (styleref s)
     (text s) (tags s) (inline_fx s) (prespace s) (postspace s)
     (width s) (height s) (metrics s) None.
End Syllable.

(** A [Syllable] object between its creation (lines 923-935) and the loop
    that completes it (lines 870-917): the attributes assigned so far. *)
Module Provisional.
#[local] Set Implicit Arguments.
Record t (R : Type) : Type := mk {
  start_time : Z; end_time : Z; duration : Z;
  styleref : Style.t R;
  tags : str;
  i : nat;
  word_i : nat }.
End Provisional.

(** The class [Char] also declares [inline_fx], [prespace] and [postspace];
    no code assigns them. [syl_i] and [syl_char_i] are assigned only for
    characters that come from syllables. *)
Module Char.
#[local] Set Implicit Arguments.
Record t (R : Type) : Type := mk {
  i : nat;
  word_i : nat;
  syl_i : option nat;
  syl_char_i : option nat;
  start_time : Z; end_time : Z; duration : Z;
  styleref : Style.t R;
  text : str;
  width : R; height : R;
  metrics : FontMetrics R;
  pos : option (Pos.t R) }.

Definition set_pos {R} (c : t R) (p : Pos.t R) : t R :=
  mk (i c) (word_i c) (syl_i c) (syl_char_i c) (start_time c) (end_time c)
     (duration c) (styleref c) (text c) (width c) (height c) (metrics c)
     (Some p).

(** The character without its positional attributes. *)
Definition clear_pos {R} (c : t R) : t R :=
  mk (i c) (word_i c) (syl_i c) (syl_char_i c) (start_time c) (end_time c)
     (duration c) (styleref c) (text c) (width c) (height c) (metrics c)
     None.
End Char.

(** A lead-in or lead-out: the float literal [1000.1] or a difference of two
    [int] times. *)
Inductive lead : Type :=
| Lead1000_1
| LeadGap (ms : Z).

(** A [Line]. The parser (lines 583-609) assigns the attributes that are not
    options; the extended computation assigns the others. [styleref] is
    [None] both before it is assigned and when it is assigned [None]. The
    values of this record are the lines the constructor builds: a [Line()]
    made by hand that lacks an attribute of the parser is none of them. *)
Module Line.
#[local] Set Implicit Arguments.
Record t (R : Type) : Type := mk {
  i : nat;
  comment : bool;
  layer : Z;
  start_time : Z; end_time : Z;
  duration : option Z;
  leadin : option lead; leadout : option lead;
  style : str;
  styleref : option (Style.t R);
  actor : str;
  margin_l : Z; margin_r : Z; margin_v : Z;
  effect : str;
  raw_text : str;
  text : option str;
  width : option R; height : option R;
  metrics : option (FontMetrics R);
  pos : option (Pos.t R);
  words : option (list (Word.t R));
  syls : option (list (Syllable.t R));
  chars : option (list (Char.t R)) }.

Definition set_leadin {R} (l : t R) (v : lead) : t R :=
  mk (i l) (comment l) (layer l) (start_time l) (end_time l) (duration l)
     (Some v) (leadout l) (style l) (styleref l) (actor l)
     (margin_l l) (margin_r l) (margin_v l) (effect l) (raw_text l) (text l)
     (width l) (height l) (metrics l) (pos l) (words l) (syls l) (chars l).

Definition set_leadout {R} (l : t R) (v : lead) : t R :=
  mk (i l) (comment l) (layer l) (start_time l) (end_time l) (duration l)
     (leadin l) (Some v) (style l) (styleref l) (actor l)
     (margin_l l) (margin_r l) (margin_v l) (effect l) (raw_text l) (text l)
     (width l) (height l) (metrics l) (pos l) (words l) (syls l) (chars l).
End Line.

(** One entry of [text_chunks] (lines 811-847): a dict with the keys [tags]
    and [text], and [word_i] for the chunks built at line 829. *)
Module TextChunk.
Record t : Type := mk {
  tags : str;
  text : str;
  word_i : option nat }.
End TextChunk.

(** ** Tag chunks (lines 808-847) *)

Lemma append_length (a b : str) :
  Str.length (a ++ b) = (Str.length a + Str.length b)%nat.
Proof. induction a as [|c a IH]; simpl; [reflexivity|]. now rewrite IH. Qed.

Lemma lazy_to_close_length s body rest :
  lazy_to_close s = Some (body, rest) ->
  Str.length s = S (Str.length body + Str.length rest).
Proof.
  revert body; induction s as [|c r IH]; intros body; simpl; [discriminate|].
  destruct (N.eqb c rbrace); [intros [= <- <-]; reflexivity|].
  destruct (dot c); [|discriminate].
  destruct (lazy_to_close r) as [[b q]|] eqn:E; [|discriminate].
  intros [= <- <-]. simpl. now rewrite (IH _ eq_refl).
Qed.

Lemma string_length_ind (P : str -> Prop) :
  (forall s, (forall t, (Str.length t < Str.length s)%nat -> P t) -> P s) ->
  forall s, P s.
Proof.
  intros H s. remember (Str.length s) as n eqn:En. revert s En.
  induction n as [n IH] using lt_wf_ind. intros s ->.
  apply H. intros t Ht. exact (IH _ Ht t eq_refl).
Qed.

Lemma tag_groups_length s :
  (Str.length (fst (tag_groups s)) + Str.length (snd (tag_groups s))
   = Str.length s)%nat.
Proof.
  induction s as [s IH] using string_length_ind.
  rewrite tag_groups_eq.
  destruct (tag_group s) as [[body rest]|] eqn:E; [|reflexivity].
  specialize (IH rest (tag_group_shorter _ _ _ E)).
  destruct (tag_groups rest) as [m r]; simpl in *.
  destruct s as [|c s]; simpl in E; [discriminate|].
  destruct (N.eqb c lbrace); [|discriminate].
  apply lazy_to_close_length in E. rewrite append_length. simpl. lia.
Qed.

Lemma tag_match_shorter s m rest :
  tag_match s = Some (m, rest) ->
  (Str.length rest < Str.length s)%nat.
Proof.
  unfold tag_match. pose proof (tag_groups_length s) as H.
  destruct (tag_groups s) as [m' r]; simpl in H.
  destruct m' as [|c m']; simpl; [discriminate|].
  intros [= <- <-]. simpl in H. lia.
Qed.

Lemma tag_search_shorter s before m rest :
  tag_search s = Some (before, m, rest) ->
  (Str.length rest < Str.length s)%nat.
Proof.
  revert before; induction s as [|c r IH]; intros before; simpl.
  - destruct (tag_match "") as [[m' q]|] eqn:E; [|discriminate].
    intros [= <- <- <-]. now apply tag_match_shorter in E.
  - destruct (tag_match (String c r)) as [[m' q]|] eqn:E.
    + intros [= <- <- <-]. now apply tag_match_shorter in E.
    + destruct (tag_search r) as [[[b m'] q]|]; [|discriminate].
      intros [= <- <- <-]. specialize (IH _ eq_refl). lia.
Qed.

(** [raw_text[tag.start() + 1 : tag.end() - 1].replace("}{", "")] for a match
    whose text is [m] (lines 831-833). *)
Definition tags_of_match (m : str) : str :=
  remove_close_open (Str.substring 1 (Str.length m - 2) m).

(** The loop of lines 827-847. [m] is the text of the current match [tag],
    [after] is [raw_text[tag.end():]] and [word_i] the running word index. *)
Equations? chunk_loop (m after : str) (word_i : nat) : list TextChunk.t
  by wf (Str.length after) lt :=
  chunk_loop m after word_i with inspect (tag_search after) := {
    | exist _ (Some (before, next_m, next_after)) _ :=
        TextChunk.mk (tags_of_match m) before (Some word_i)
        :: chunk_loop next_m next_after
             (if trailing_space_match before then S word_i else word_i);
    | exist _ None _ :=
        [TextChunk.mk (tags_of_match m) after (Some word_i)] }.
Proof.
  apply (tag_search_shorter after before next_m next_after e).
Qed.

Lemma chunk_loop_eq m after word_i :
  chunk_loop m after word_i =
  match tag_search after with
  | Some (before, next_m, next_after) =>
      TextChunk.mk (tags_of_match m) before (Some word_i)
      :: chunk_loop next_m next_after
           (if trailing_space_match before then S word_i else word_i)
  | None => [TextChunk.mk (tags_of_match m) after (Some word_i)]
  end.
Proof.
  rewrite chunk_loop_equation_1.
  destruct (inspect (tag_search after)) as [[[[before nm] na]|] e];
    unfold chunk_loop_unfold_clause_1; rewrite e; reflexivity.
Qed.

Definition text_chunks (raw_text : str) : list TextChunk.t :=
  match tag_search raw_text with
  | None => [TextChunk.mk "" raw_text None]
  | Some (before, m, after) =>
      (if nonempty before then [TextChunk.mk "" before None] else [])
      ++ chunk_loop m after 0
  end.

(** ** A concrete interpretation

    Exact rational arithmetic and a monospace font (every character 10 wide
    and 20 high), used to run the computation on concrete lines. *)
Module Sample.

Definition qnum : PyNum Q :=
  {| of_int := inject_Z;
     radd := fun a b => Qred (a + b);
     rsub := fun a b => Qred (a - b);
     rmul := fun a b => Qred (a * b);
     rdiv := fun a b => Qred (a / b);
     rmax := fun a b => if Qle_bool b a then a else b |}.

Definition mono : FontProvider Q :=
  {| get_metrics := fun _ => (16, 4, 2, 0)%Q;
     get_text_extents := fun _ text =>
       (inject_Z (10 * Z.of_nat (Str.length text)), 20%Q) |}.

(** A style with the given alignment and margins of 10. *)
Definition style (a : Z) : Style.t Q :=
  Style.mk "Arial" 20%Q "&H00FFFFFF" "&H00" "&H000000FF" "&H00"
    "&H00000000" "&H00" "&H00000000" "&H00"
    false false false false 100%Q 100%Q 0%Q 0%Q false 2%Q 0%Q
    a 10%Z 10%Z 10%Z 1%Z.

Definition styles (a : Z) (name : str) : option (Style.t Q) :=
  if Str.eqb name "Default" then Some (style a) else None.

Definition meta (x y : Z) : Meta.t := Meta.mk 0%Z true x y "" "".

(** A dialogue line as the parser leaves it. *)
Definition line (i : nat) (start_time end_time : Z) (style raw : str)
    : Line.t Q :=
  Line.mk i false 0%Z start_time end_time None None None style None
    "" 0%Z 0%Z 0%Z "" raw None None None None None None None None.

(** A stand-in for [Convert.time]. *)
Definition time_str (ms : Z) : str :=
  str_of_int (Z.to_int ms).

End Sample.

(** ** The extended computation on one line (lines 617-1128) *)

Section Extended.

Context {R : Type} {num : PyNum R} {font : FontProvider R}.

Local Open Scope Z_scope.

Definition two : R := of_int 2.

(** [n * x] for an [int] count [n]. *)
Definition times (n : nat) (x : R) : R := (of_int (Z.of_nat n) * x)%py.

(** [self.meta.play_res_x > 0 and self.meta.play_res_y > 0] *)
Definition positive_res (meta : Meta.t) : bool :=
  (0 <? Meta.play_res_x meta) && (0 <? Meta.play_res_y meta).

(** [x] chosen by the column of the alignment (lines 754-759 and alike). *)
Definition column_x (alignment : Z) (left center right : R) : R :=
  if (alignment - 1) mod 3 =? 0 then left
  else if (alignment - 2) mod 3 =? 0 then center
  else right.

(** *** Position of the line (lines 645-702) *)

Definition line_position (meta : Meta.t) (line : Line.t R) (st : Style.t R)
    (width height : R) : Pos.t R :=
  let tmp_margin_l :=
    if negb (Line.margin_l line =? 0) then Line.margin_l line
    else Style.margin_l st in
  let tmp_margin_r :=
    if negb (Line.margin_r line =? 0) then Line.margin_r line
    else Style.margin_r st in
  let margin_v :=
    if negb (Line.margin_v line =? 0) then Line.margin_v line
    else Style.margin_v st in
  let a := Style.alignment st in
  let left :=
    if (a - 1) mod 3 =? 0 then of_int tmp_margin_l
    else if (a - 2) mod 3 =? 0 then
      (of_int (Meta.play_res_x meta) / two - width / two
       + of_int tmp_margin_l / two - of_int tmp_margin_r / two)%py
    else (of_int (Meta.play_res_x meta - tmp_margin_r) - width)%py in
  let center := (left + width / two)%py in
  let right := (left + width)%py in
  let top :=
    if a >? 6 then of_int margin_v
    else if a >? 3 then
      (of_int (Meta.play_res_y meta) / two - height / two)%py
    else (of_int (Meta.play_res_y meta - margin_v) - height)%py in
  let middle := (top + height / two)%py in
  let bottom := (top + height)%py in
  let y := if a >? 6 then top else if a >? 3 then middle else bottom in
  Pos.mk (column_x a left center right) y left center right top middle bottom.

(** *** Words (lines 708-806) *)

Fixpoint add_words_from (line : Line.t R) (duration : Z) (st : Style.t R)
    (wi : nat) (found : list (str * str * str)) : list (Word.t R) :=
  match found with
  | [] => []
  | (prespace, word_text, postspace) :: rest =>
      let (w, h) := get_text_extents st word_text in
      Word.mk wi (Line.start_time line) (Line.end_time line) duration st
        word_text (Str.length prespace) (Str.length postspace)
        w h (get_metrics st) None
      :: add_words_from line duration st (S wi) rest
  end.

Definition add_words (line : Line.t R) (duration : Z) (st : Style.t R)
    (text : str) : list (Word.t R) :=
  add_words_from line duration st 0%nat (find_words text).

(** The loop of lines 744-773. *)
Fixpoint walk_words (a : Z) (lp : Pos.t R) (space_width style_spacing : R)
    (cur_x : R) (ws : list (Word.t R)) : list (Word.t R) :=
  match ws with
  | [] => []
  | word :: rest =>
      let cur_x :=
        (cur_x + times (Word.prespace word) (space_width + style_spacing))%py in
      let left := cur_x in
      let center := (left + Word.width word / two)%py in
      let right := (left + Word.width word)%py in
      let p := Pos.mk (column_x a left center right) (Pos.y lp)
                 left center right
                 (Pos.top lp) (Pos.middle lp) (Pos.bottom lp) in
      let cur_x :=
        (cur_x + Word.width word
         + times (Word.postspace word) (space_width + style_spacing)
         + style_spacing)%py in
      Word.set_pos word p
      :: walk_words a lp space_width style_spacing cur_x rest
  end.

(** [max_width, sum_height] of lines 775-778 (and 977-980, 1098-1101), over
    the (width, height) pairs of the elements. *)
Definition stack_extent (sizes : list (R * R)) : R * R :=
  fold_left
    (fun acc wh => (rmax (fst acc) (fst wh), (snd acc + snd wh)%py))
    sizes (of_int 0, of_int 0).

(** The loop of lines 781-806. *)
Fixpoint stack_words (meta : Meta.t) (a : Z) (lp : Pos.t R) (max_width : R)
    (cur_y : R) (ws : list (Word.t R)) : list (Word.t R) :=
  match ws with
  | [] => []
  | word :: rest =>
      let x_fix := ((max_width - Word.width word) / two)%py in
      let left :=
        if a =? 4 then (Pos.left lp + x_fix)%py
        else if a =? 5 then
          (of_int (Meta.play_res_x meta) / two - Word.width word / two)%py
        else (Pos.right lp - Word.width word - x_fix)%py in
      let center := (left + Word.width word / two)%py in
      let right := (left + Word.width word)%py in
      let x := if a =? 4 then left else if a =? 5 then center else right in
      let top := cur_y in
      let middle := (top + Word.height word / two)%py in
      let bottom := (top + Word.height word)%py in
      Word.set_pos word (Pos.mk x middle left center right top middle bottom)
      :: stack_words meta a lp max_width (cur_y + Word.height word)%py rest
  end.

(** Lines 741-806, entered with a non-empty [line.words] and positive
    play-resolution dimensions; [lp] holds the coordinates of the line. *)
Definition position_words (meta : Meta.t) (a : Z) (lp : Pos.t R)
    (space_width style_spacing : R) (ws : list (Word.t R))
    : list (Word.t R) :=
  if (a >? 6) || (a <? 4) then
    walk_words a lp space_width style_spacing (Pos.left lp) ws
  else
    let (max_width, sum_height) :=
      stack_extent (map (fun w => (Word.width w, Word.height w)) ws) in
    let cur_y := (of_int (Meta.play_res_y meta) / two - sum_height / two)%py in
    stack_words meta a lp max_width cur_y ws.

(** *** Syllables (lines 849-939) *)

Lemma span_fst_length p s :
  (Str.length (fst (span p s)) <= Str.length s)%nat.
Proof. pose proof (span_length p s). lia. Qed.

Lemma ktag_here_shorter s d rest :
  ktag_here s = Some (d, rest) ->
  (Str.length rest < Str.length s)%nat.
Proof.
  unfold ktag_here. destruct s as [|b [|k r]]; try discriminate.
  destruct (_ && _); [|discriminate].
  set (r' := match r with "" => r | String m r2 => _ end).
  assert (Str.length r' <= Str.length r)%nat as Hr'.
  { subst r'. destruct r as [|m r2]; simpl; [lia|].
    destruct (_ || _); simpl; lia. }
  pose proof (span_length isdigit r') as Hs.
  destruct (span isdigit r') as [d' q]; simpl in Hs.
  destruct (nonempty d'); [|discriminate].
  intros [= <- <-]. simpl. lia.
Qed.

Lemma syl_tags_match_eq s :
  syl_tags_match s =
  match ktag_here s with
  | Some (d, rest) => Some ("", d, fst (span dot rest))
  | None =>
      match s with
      | "" => None
      | String c r =>
          if dot c then
            match syl_tags_match r with
            | Some (pre, d, post) => Some (String c pre, d, post)
            | None => None
            end
          else None
      end
  end.
Proof. destruct s; reflexivity. Qed.

Lemma syl_tags_match_shorter s pre d post :
  syl_tags_match s = Some (pre, d, post) ->
  (Str.length post < Str.length s)%nat.
Proof.
  revert pre; induction s as [|c r IH]; intros pre; rewrite syl_tags_match_eq.
  - destruct (ktag_here "") as [[d' q]|] eqn:E; [|discriminate].
    discriminate E.
  - destruct (ktag_here (String c r)) as [[d' q]|] eqn:E.
    + intros [= <- <- <-]. apply ktag_here_shorter in E.
      pose proof (span_fst_length dot q). lia.
    + destruct (dot c); [|discriminate].
      destruct (syl_tags_match r) as [[[p d'] q]|]; [|discriminate].
      intros [= <- <- <-]. specialize (IH _ eq_refl). simpl. lia.
Qed.

(** The body of the loop of line 864 while [syl_tags_pattern] matches (lines
    920-939), up to the iteration where it does not. Returns
    [syls_in_text_chunk], the [posttags] left over, [si] and [last_time]. *)
Equations? peel (word_i : option nat) (st : Style.t R) (posttags : str)
    (syls_in_text_chunk : list (Provisional.t R)) (si : nat) (last_time : Z)
    : result (list (Provisional.t R) * str * nat * Z)
  by wf (Str.length posttags) lt :=
  peel word_i st posttags syls_in_text_chunk si last_time
    with inspect (syl_tags_match posttags) := {
    | exist _ None _ := Ok (syls_in_text_chunk, posttags, si, last_time);
    | exist _ (Some (pretags, kdur, rest)) _ :=
        let end_time := last_time + int_of_digits kdur * 10 in
        match word_i with
        | None => Raise KeyError
        | Some wi =>
            let syl :=
              Provisional.mk last_time end_time (int_of_digits kdur * 10)
                st pretags si wi in
            peel word_i st rest (syls_in_text_chunk ++ [syl]) (S si) end_time
        end }.
Proof.
  apply (syl_tags_match_shorter posttags pretags kdur rest e).
Qed.

Lemma peel_eq word_i st posttags acc si last_time :
  peel word_i st posttags acc si last_time =
  match syl_tags_match posttags with
  | None => Ok (acc, posttags, si, last_time)
  | Some (pretags, kdur, rest) =>
      let end_time := last_time + int_of_digits kdur * 10 in
      match word_i with
      | None => Raise KeyError
      | Some wi =>
          let syl :=
            Provisional.mk last_time end_time (int_of_digits kdur * 10)
              st pretags si wi in
          peel word_i st rest (acc ++ [syl]) (S si) end_time
      end
  end.
Proof.
  rewrite peel_equation_1.
  destruct (inspect (syl_tags_match posttags)) as [[[[pre d] rest]|] e];
    unfold peel_unfold_clause_1; rewrite e; reflexivity.
Qed.

(** The carried [inline_fx] after looking at the tags of a syllable (lines
    871-873 and 893-895). *)
Definition update_inline_fx (inline_fx tags : str) : str :=
  match inline_fx_search tags with
  | Some name => name
  | None => inline_fx
  end.

(** Lines 870-887 for one syllable that is not the last of its chunk. *)
Definition finish_hidden (inline_fx : str) (syl : Provisional.t R)
    : Syllable.t R * str :=
  let inline_fx := update_inline_fx inline_fx (Provisional.tags syl) in
  let (w, h) := get_text_extents (Provisional.styleref syl) "" in
  (Syllable.mk (Provisional.i syl) (Provisional.word_i syl)
     (Provisional.start_time syl) (Provisional.end_time syl)
     (Provisional.duration syl) (Provisional.styleref syl)
     "" (Provisional.tags syl) inline_fx 0%nat 0%nat
     w h (get_metrics (Provisional.styleref syl)) None,
   inline_fx).

Fixpoint finish_hiddens (inline_fx : str) (syls : list (Provisional.t R))
    : list (Syllable.t R) * str :=
  match syls with
  | [] => ([], inline_fx)
  | syl :: rest =>
      let (s, inline_fx) := finish_hidden inline_fx syl in
      let (ss, inline_fx) := finish_hiddens inline_fx rest in
      (s :: ss, inline_fx)
  end.

(** Lines 898-907: (prespace, text, postspace) of the last syllable of a
    chunk. A pattern that does not match makes [.groups()] raise. *)
Definition split_text (text : str) : result (nat * str * nat) :=
  if str_isspace text then Ok (0%nat, text, 0%nat)
  else
    match split_text_match text with
    | Some (pre, core, post) =>
        Ok (Str.length pre, core, Str.length post)
    | None => Raise AttributeError
    end.

(** Lines 890-917 for the last syllable of a chunk. *)
Definition finish_last (inline_fx posttags text : str)
    (syl : Provisional.t R) : result (Syllable.t R * str) :=
  let tags := (Provisional.tags syl ++ posttags)%str in
  let inline_fx := update_inline_fx inline_fx tags in
  '(prespace, syl_text, postspace) <- split_text text ;;
  let (w, h) := get_text_extents (Provisional.styleref syl) syl_text in
  Ok (Syllable.mk (Provisional.i syl) (Provisional.word_i syl)
        (Provisional.start_time syl) (Provisional.end_time syl)
        (Provisional.duration syl) (Provisional.styleref syl)
        syl_text tags inline_fx prespace postspace
        w h (get_metrics (Provisional.styleref syl)) None,
      inline_fx).

(** The working variables of line 850-852. *)
Record SylState : Type := mkSylState {
  si : nat;
  last_time : Z;
  inline_fx : str }.

(** Lines 862-939 for one chunk whose tags hold a karaoke tag: the syllables
    appended to [line.syls] and the working variables afterwards. *)
Definition chunk_syls (st : Style.t R) (tc : TextChunk.t) (s : SylState)
    : result (list (Syllable.t R) * SylState) :=
  '(provisional, posttags, si', last_time') <-
    peel (TextChunk.word_i tc) st (TextChunk.tags tc) [] (si s) (last_time s) ;;
  match rev provisional with
  | [] => Raise IndexError
  | last_syl :: before =>
      let (hidden, fx) := finish_hiddens (inline_fx s) (rev before) in
      '(syl, fx) <- finish_last fx posttags (TextChunk.text tc) last_syl ;;
      Ok ((hidden ++ [syl])%list, mkSylState si' last_time' fx)
  end.

(** The loop of lines 856-939 over the remaining chunks. *)
Fixpoint add_syls_loop (st : Style.t R) (tcs : list TextChunk.t)
    (s : SylState) (line_syls : list (Syllable.t R))
    : result (list (Syllable.t R)) :=
  match tcs with
  | [] => Ok line_syls
  | tc :: rest =>
      match syl_tags_match (TextChunk.tags tc) with
      | None => Ok []
      | Some _ =>
          '(new_syls, s') <- chunk_syls st tc s ;;
          add_syls_loop st rest s' (line_syls ++ new_syls)%list
      end
  end.

Definition add_syls (st : Style.t R) (tcs : list TextChunk.t)
    : result (list (Syllable.t R)) :=
  add_syls_loop st tcs (mkSylState 0%nat 0 "") [].

(** The loop of lines 949-974. *)
Fixpoint walk_syls (a : Z) (lp : Pos.t R) (space_width style_spacing : R)
    (cur_x : R) (syls : list (Syllable.t R)) : list (Syllable.t R) :=
  match syls with
  | [] => []
  | syl :: rest =>
      let cur_x :=
        (cur_x
         + times (Syllable.prespace syl) (space_width + style_spacing))%py in
      let left := cur_x in
      let center := (left + Syllable.width syl / two)%py in
      let right := (left + Syllable.width syl)%py in
      let p := Pos.mk (column_x a left center right) (Pos.y lp)
                 left center right
                 (Pos.top lp) (Pos.middle lp) (Pos.bottom lp) in
      let cur_x :=
        (cur_x + Syllable.width syl
         + times (Syllable.postspace syl) (space_width + style_spacing)
         + style_spacing)%py in
      Syllable.set_pos syl p
      :: walk_syls a lp space_width style_spacing cur_x rest
  end.

(** Lines 982-998: the coordinates of the line rewritten around the stacked
    syllables; [x] and [y] keep their values. *)
Definition fix_line_position (meta : Meta.t) (a : Z) (lp : Pos.t R)
    (max_width sum_height : R) : Pos.t R :=
  let cur_y := (of_int (Meta.play_res_y meta) / two - sum_height / two)%py in
  let top := cur_y in
  let middle := (of_int (Meta.play_res_y meta) / two)%py in
  let bottom := (top + sum_height)%py in
  if a =? 4 then
    let center := (Pos.left lp + max_width / two)%py in
    let right := (Pos.left lp + max_width)%py in
    Pos.mk (Pos.x lp) (Pos.y lp) (Pos.left lp) center right top middle bottom
  else if a =? 5 then
    let left := (Pos.center lp - max_width / two)%py in
    let right := (left + max_width)%py in
    Pos.mk (Pos.x lp) (Pos.y lp) left (Pos.center lp) right top middle bottom
  else
    let left := (Pos.right lp - max_width)%py in
    let center := (left + max_width / two)%py in
    Pos.mk (Pos.x lp) (Pos.y lp) left center (Pos.right lp) top middle bottom.

(** The loop of lines 1000-1024; [lp] holds the rewritten coordinates of the
    line. *)
Fixpoint stack_syls (a : Z) (lp : Pos.t R) (max_width : R) (cur_y : R)
    (syls : list (Syllable.t R)) : list (Syllable.t R) :=
  match syls with
  | [] => []
  | syl :: rest =>
      let x_fix := ((max_width - Syllable.width syl) / two)%py in
      let left :=
        if a =? 4 then (Pos.left lp + x_fix)%py
        else if a =? 5 then (Pos.center lp - Syllable.width syl / two)%py
        else (Pos.right lp - Syllable.width syl - x_fix)%py in
      let center := (left + Syllable.width syl / two)%py in
      let right := (left + Syllable.width syl)%py in
      let x := if a =? 4 then left else if a =? 5 then center else right in
      let top := cur_y in
      let middle := (top + Syllable.height syl / two)%py in
      let bottom := (top + Syllable.height syl)%py in
      Syllable.set_pos syl
        (Pos.mk x middle left center right top middle bottom)
      :: stack_syls a lp max_width (cur_y + Syllable.height syl)%py rest
  end.

(** Lines 942-1024, entered with a non-empty [line.syls] and positive
    play-resolution dimensions. Returns the width, height and coordinates of
    the line, which the vertical branch rewrites, and the placed syllables. *)
Definition position_syls (meta : Meta.t) (vertical_kanji : bool) (a : Z)
    (width height : R) (lp : Pos.t R) (space_width style_spacing : R)
    (syls : list (Syllable.t R))
    : R * R * Pos.t R * list (Syllable.t R) :=
  if (a >? 6) || (a <? 4) || negb vertical_kanji then
    (width, height, lp,
     walk_syls a lp space_width style_spacing (Pos.left lp) syls)
  else
    let (max_width, sum_height) :=
      stack_extent
        (map (fun s => (Syllable.width s, Syllable.height s)) syls) in
    let cur_y := (of_int (Meta.play_res_y meta) / two - sum_height / two)%py in
    let lp' := fix_line_position meta a lp max_width sum_height in
    (max_width, sum_height, lp', stack_syls a lp' max_width cur_y syls).

(** *** Characters (lines 1026-1128) *)

(** ["{}{}{}".format(" " * el.prespace, el.text, " " * el.postspace)] *)
Definition el_text (prespace : nat) (text : str) (postspace : nat)
    : str :=
  (repeat_char " "%char prespace ++ text ++ repeat_char " "%char postspace)%str.

(** The loop of line 1041 over the characters of one element; [build ci
    char_index char_text] is the [Char] of lines 1042-1069. *)
Fixpoint chars_of_el (build : nat -> nat -> str -> Char.t R)
    (ci char_index : nat) (el_text : str) : list (Char.t R) :=
  match el_text with
  | "" => []
  | String c r =>
      build ci char_index (String c "")
      :: chars_of_el build (S ci) (S char_index) r
  end.

Definition char_of_syl (st : Style.t R) (el : Syllable.t R)
    (ci char_index : nat) (char_text : str) : Char.t R :=
  let (w, h) := get_text_extents st char_text in
  Char.mk char_index (Syllable.word_i el) (Some (Syllable.i el)) (Some ci)
    (Syllable.start_time el) (Syllable.end_time el) (Syllable.duration el)
    st char_text w h (get_metrics st) None.

Definition char_of_word (st : Style.t R) (el : Word.t R)
    (ci char_index : nat) (char_text : str) : Char.t R :=
  let (w, h) := get_text_extents st char_text in
  Char.mk char_index (Word.i el) None None
    (Word.start_time el) (Word.end_time el) (Word.duration el)
    st char_text w h (get_metrics st) None.

Fixpoint chars_of_syls (st : Style.t R) (char_index : nat)
    (syls : list (Syllable.t R)) : list (Char.t R) :=
  match syls with
  | [] => []
  | el :: rest =>
      let t := el_text (Syllable.prespace el) (Syllable.text el)
                 (Syllable.postspace el) in
      (chars_of_el (char_of_syl st el) 0 char_index t
       ++ chars_of_syls st (char_index + Str.length t) rest)%list
  end.

Fixpoint chars_of_words (st : Style.t R) (char_index : nat)
    (ws : list (Word.t R)) : list (Char.t R) :=
  match ws with
  | [] => []
  | el :: rest =>
      let t := el_text (Word.prespace el) (Word.text el)
                 (Word.postspace el) in
      (chars_of_el (char_of_word st el) 0 char_index t
       ++ chars_of_words st (char_index + Str.length t) rest)%list
  end.

(** Lines 1027-1071: the syllables when there are any, else the words. *)
Definition add_chars (st : Style.t R) (ws : list (Word.t R))
    (syls : list (Syllable.t R)) : list (Char.t R) :=
  match syls with
  | _ :: _ => chars_of_syls st 0 syls
  | [] => chars_of_words st 0 ws
  end.

(** The loop of lines 1077-1096. *)
Fixpoint walk_chars (a : Z) (lp : Pos.t R) (style_spacing : R) (cur_x : R)
    (cs : list (Char.t R)) : list (Char.t R) :=
  match cs with
  | [] => []
  | char :: rest =>
      let left := cur_x in
      let center := (left + Char.width char / two)%py in
      let right := (left + Char.width char)%py in
      let p := Pos.mk (column_x a left center right) (Pos.y lp)
                 left center right
                 (Pos.top lp) (Pos.middle lp) (Pos.bottom lp) in
      Char.set_pos char p
      :: walk_chars a lp style_spacing
           (cur_x + Char.width char + style_spacing)%py rest
  end.

(** The loop of lines 1104-1128. *)
Fixpoint stack_chars (meta : Meta.t) (a : Z) (lp : Pos.t R) (max_width : R)
    (cur_y : R) (cs : list (Char.t R)) : list (Char.t R) :=
  match cs with
  | [] => []
  | char :: rest =>
      let x_fix := ((max_width - Char.width char) / two)%py in
      let left :=
        if a =? 4 then (Pos.left lp + x_fix)%py
        else if a =? 5 then
          (of_int (Meta.play_res_x meta) / two - Char.width char / two)%py
        else (Pos.right lp - Char.width char - x_fix)%py in
      let center := (left + Char.width char / two)%py in
      let right := (left + Char.width char)%py in
      let x := if a =? 4 then left else if a =? 5 then center else right in
      let top := cur_y in
      let middle := (top + Char.height char / two)%py in
      let bottom := (top + Char.height char)%py in
      Char.set_pos char (Pos.mk x middle left center right top middle bottom)
      :: stack_chars meta a lp max_width (cur_y + Char.height char)%py rest
  end.

(** Lines 1074-1128, entered with a non-empty [line.chars] and positive
    play-resolution dimensions. *)
Definition position_chars (meta : Meta.t) (a : Z) (lp : Pos.t R)
    (style_spacing : R) (cs : list (Char.t R)) : list (Char.t R) :=
  if (a >? 6) || (a <? 4) then
    walk_chars a lp style_spacing (Pos.left lp) cs
  else
    let (max_width, sum_height) :=
      stack_extent (map (fun c => (Char.width c, Char.height c)) cs) in
    let cur_y := (of_int (Meta.play_res_y meta) / two - sum_height / two)%py in
    stack_chars meta a lp max_width cur_y cs.

(** *** The body of the loop of line 617 *)

(** The three guarded blocks. [lpos] holds the coordinates of the line and is
    [Some] exactly when both play-resolution dimensions are positive, so the
    guards of lines 741, 942 and 1074 read as a non-empty list and [Some]. *)

(** Lines 741-806. *)
Definition place_words (meta : Meta.t) (a : Z) (lpos : option (Pos.t R))
    (space_width style_spacing : R) (ws : list (Word.t R))
    : list (Word.t R) :=
  match ws, lpos with
  | _ :: _, Some lp => position_words meta a lp space_width style_spacing ws
  | _, _ => ws
  end.

(** Lines 942-1024. *)
Definition place_syls (meta : Meta.t) (vertical_kanji : bool) (a : Z)
    (width height : R) (lpos : option (Pos.t R))
    (space_width style_spacing : R) (syls : list (Syllable.t R))
    : R * R * option (Pos.t R) * list (Syllable.t R) :=
  match syls, lpos with
  | _ :: _, Some lp =>
      let '(w, h, lp', syls') :=
        position_syls meta vertical_kanji a width height lp
          space_width style_spacing syls in
      (w, h, Some lp', syls')
  | _, _ => (width, height, lpos, syls)
  end.

(** Lines 1074-1128. *)
Definition place_chars (meta : Meta.t) (a : Z) (lpos : option (Pos.t R))
    (style_spacing : R) (cs : list (Char.t R)) : list (Char.t R) :=
  match cs, lpos with
  | _ :: _, Some lp => position_chars meta a lp style_spacing cs
  | _, _ => cs
  end.

(** Lines 645-702: the coordinates of the line, when it gets any. *)
Definition line_pos (meta : Meta.t) (line : Line.t R) (st : Style.t R)
    (width height : R) : option (Pos.t R) :=
  if positive_res meta
  then Some (line_position meta line st width height)
  else None.

(** [styles] is the lookup of the dict [self.styles]; a [KeyError] there
    leaves [styleref] at [None] (lines 618-621). *)
Definition extend_line (meta : Meta.t) (vertical_kanji : bool)
    (styles : str -> option (Style.t R)) (line : Line.t R)
    : result (Line.t R) :=
  let styleref := styles (Line.style line) in
  let duration := Line.end_time line - Line.start_time line in
  let text := strip_tags (Line.raw_text line) in
  match styleref with
  | None =>
      Ok (Line.mk (Line.i line) (Line.comment line) (Line.layer line)
            (Line.start_time line) (Line.end_time line) (Some duration)
            (Line.leadin line) (Line.leadout line) (Line.style line) None
            (Line.actor line) (Line.margin_l line) (Line.margin_r line)
            (Line.margin_v line) (Line.effect line) (Line.raw_text line)
            (Some text) (Line.width line) (Line.height line)
            (Line.metrics line) (Line.pos line) (Line.words line)
            (Line.syls line) (Line.chars line))
  | Some st =>
      let a := Style.alignment st in
      let width := fst (get_text_extents st text) in
      let height := snd (get_text_extents st text) in
      let lpos := line_pos meta line st width height in
      let space_width := fst (get_text_extents st " ") in
      let style_spacing := Style.spacing st in
      let words :=
        place_words meta a lpos space_width style_spacing
          (add_words line duration st text) in
      syls <- add_syls st (text_chunks (Line.raw_text line)) ;;
      let '(width, height, lpos, syls) :=
        place_syls meta vertical_kanji a width height lpos
          space_width style_spacing syls in
      let chars :=
        place_chars meta a lpos style_spacing (add_chars st words syls) in
      Ok (Line.mk (Line.i line) (Line.comment line) (Line.layer line)
            (Line.start_time line) (Line.end_time line) (Some duration)
            (Line.leadin line) (Line.leadout line) (Line.style line) (Some st)
            (Line.actor line) (Line.margin_l line) (Line.margin_r line)
            (Line.margin_v line) (Line.effect line) (Line.raw_text line)
            (Some text) (Some width) (Some height) (Some (get_metrics st))
            lpos (Some words) (Some syls) (Some chars))
  end.

(** ** Lead times (lines 615-626 and 1130-1143) *)

(** [self.lines] is the store of the [Line] objects; [lines_by_styles] holds
    references to them, which are their positions in [self.lines]. *)

(** [lines_by_styles[style].append(line)], creating the entry at the end of
    the dict when the key is new (lines 624-626). *)
Fixpoint group_append (style : str) (ref : nat)
    (d : list (str * list nat)) : list (str * list nat) :=
  match d with
  | [] => [(style, [ref])]
  | (k, v) :: d' =>
      if Str.eqb k style then (k, (v ++ [ref])%list) :: d'
      else (k, v) :: group_append style ref d'
  end.

Fixpoint build_groups (li : nat) (lines : list (Line.t R))
    (d : list (str * list nat)) : list (str * list nat) :=
  match lines with
  | [] => d
  | line :: rest =>
      build_groups (S li) rest (group_append (Line.style line) li d)
  end.

Definition lines_by_styles (lines : list (Line.t R))
    : list (str * list nat) :=
  build_groups 0 lines [].

(** An attribute of the object behind a reference. *)
Definition attr (f : Line.t R -> Z) (store : list (Line.t R)) (ref : nat)
    : Z :=
  match nth_error store ref with
  | Some line => f line
  | None => 0
  end.

Fixpoint update_at (ref : nat) (f : Line.t R -> Line.t R)
    (store : list (Line.t R)) : list (Line.t R) :=
  match store, ref with
  | [], _ => []
  | line :: rest, O => f line :: rest
  | line :: rest, S k => line :: update_at k f rest
  end.

(** [list.sort(key=...)] is stable; so is this insertion sort, which puts an
    element before the first one of the sorted rest whose key is not
    smaller. *)
Fixpoint insert_by (key : nat -> Z) (x : nat) (l : list nat) : list nat :=
  match l with
  | [] => [x]
  | y :: l' => if key x <=? key y then x :: l else y :: insert_by key x l'
  end.

Definition sort_by (key : nat -> Z) (l : list nat) : list nat :=
  fold_right (insert_by key) [] l.

(** The body of the loop of line 1133 at index [li] of the sorted group. *)
Definition lead_step (group : list nat) (store : list (Line.t R)) (li : nat)
    : list (Line.t R) :=
  let line := nth li group 0%nat in
  let leadin :=
    if (li =? 0)%nat then Lead1000_1
    else LeadGap (attr (@Line.start_time R) store line
                  - attr (@Line.end_time R) store (nth (li - 1) group 0%nat)) in
  let leadout :=
    if (li =? List.length group - 1)%nat then Lead1000_1
    else LeadGap (attr (@Line.start_time R) store (nth (li + 1) group 0%nat)
                  - attr (@Line.end_time R) store line) in
  update_at line
    (fun l => Line.set_leadout (Line.set_leadin l leadin) leadout) store.

(** Lines 1132-1143 for one style. *)
Definition group_leads (store : list (Line.t R)) (group : list nat)
    : list (Line.t R) :=
  let sorted := sort_by (attr (@Line.start_time R) store) group in
  fold_left (lead_step sorted) (seq 0 (List.length sorted)) store.

(** Lines 1131-1143. *)
Definition add_durations (lines : list (Line.t R)) : list (Line.t R) :=
  fold_left (fun store g => group_leads store (snd g))
    (lines_by_styles lines) lines.

(** The extended computation: the loop of line 617, then the lead times. An
    exception in the loop leaves the constructor. *)
Fixpoint extend_lines (meta : Meta.t) (vertical_kanji : bool)
    (styles : str -> option (Style.t R)) (lines : list (Line.t R))
    : result (list (Line.t R)) :=
  match lines with
  | [] => Ok []
  | line :: rest =>
      line' <- extend_line meta vertical_kanji styles line ;;
      rest' <- extend_lines meta vertical_kanji styles rest ;;
      Ok (line' :: rest')
  end.

Definition extended (meta : Meta.t) (vertical_kanji : bool)
    (styles : str -> option (Style.t R)) (lines : list (Line.t R))
    : result (list (Line.t R)) :=
  lines' <- extend_lines meta vertical_kanji styles lines ;;
  Ok (add_durations lines').

(** ** [write_line] (lines 1153-1181) *)

(** [Convert.time] of module [convert] on an [int] of milliseconds: the time
    string of the dialogue grammar. The module is not part of this file. *)
Variable convert_time : Z -> str.

(** The argument of [write_line]: a [Line] or an object of another type. *)
Inductive pyobj : Type :=
| PyLine (line : Line.t R)
| PyOther (type_name : str).

(** [self.__output] and [self.__plines]. *)
Record Output : Type := mkOutput {
  output : list str;
  plines : nat }.

Inductive fmt_arg : Type :=
| FStr (s : str)
| FInt (z : Z).

(** [str(z)], which is also ["%d" % z]. *)
Definition str_int (z : Z) : str :=
  str_of_int (Z.to_int z).

(** ["%04d" % z]: the sign, then the digits padded with zeros to four
    characters in all. *)
Definition str_int_04 (z : Z) : str :=
  let sign := if z <? 0 then "-" else "" in
  let digits := str_of_uint (N.to_uint (Z.abs_N z)) in
  (sign
   ++ repeat_char "0"%char (4 - Str.length sign - Str.length digits)
   ++ digits)%str.

(** [fmt % args] for the conversions the source uses: [%s], [%d], [%04d]. *)
Fixpoint pyformat (fmt : str) (args : list fmt_arg) : result str :=
  match fmt with
  | "" =>
      match args with
      | [] => Ok ""
      | _ :: _ => Raise TypeError
      end
  | String "%" (String "s" rest) =>
      match args with
      | FStr s :: args' => r <- pyformat rest args' ;; Ok (s ++ r)%str
      | FInt z :: args' =>
          r <- pyformat rest args' ;; Ok (str_int z ++ r)%str
      | [] => Raise TypeError
      end
  | String "%" (String "d" rest) =>
      match args with
      | FInt z :: args' =>
          r <- pyformat rest args' ;; Ok (str_int z ++ r)%str
      | _ => Raise TypeError
      end
  | String "%" (String "0" (String "4" (String "d" rest))) =>
      match args with
      | FInt z :: args' =>
          r <- pyformat rest args' ;; Ok (str_int_04 z ++ r)%str
      | _ => Raise TypeError
      end
  | String c rest => r <- pyformat rest args ;; Ok (String c r)
  end.

(** The format string of line 1164. *)
Definition line_format : str :=
  String newline "%s: %d,%s,%s,%s,%s,%04d,%04d,%04d,%s,%s".

(** [write_line]: the state afterwards and the outcome of the call. The
    record is built before [append] runs, so an exception leaves the state as
    it was. *)
Definition write_line (x : pyobj) (s : Output) : Output * result unit :=
  match x with
  | PyLine line =>
      match Line.text line with
      | None => (s, Raise AttributeError)
      | Some text =>
          match
            pyformat line_format
              [FStr (if Line.comment line then "Comment" else "Dialogue");
               FInt (Line.layer line);
               FStr (convert_time (Z.max 0 (Line.start_time line)));
               FStr (convert_time (Z.max 0 (Line.end_time line)));
               FStr (Line.style line);
               FStr (Line.actor line);
               FInt (Line.margin_l line);
               FInt (Line.margin_r line);
               FInt (Line.margin_v line);
               FStr (Line.effect line);
               FStr text]
          with
          | Ok record =>
              (mkOutput (output s ++ [record])%list (S (plines s)), Ok tt)
          | Raise e => (s, Raise e)
          end
      end
  | PyOther _ => (s, Raise TypeError)
  end.

(** ** Notions used to state the properties *)

(** The raw text of a line holds no newline: the parser takes it from one
    line of the file (line 467) through a pattern whose [.] cannot match one
    (line 581). *)
Definition no_newline (s : str) : Prop := forall_chars dot s = true.

(** The duration values of the karaoke tags of a tag string, from left to
    right: one for every position where a karaoke tag starts. *)
Fixpoint ktag_durations (s : str) : list Z :=
  match s with
  | "" => []
  | String _ r =>
      match ktag_here s with
      | Some (d, _) => int_of_digits d :: ktag_durations r
      | None => ktag_durations r
      end
  end.

Definition count_ktags (s : str) : nat := List.length (ktag_durations s).

(** The tag string cut by the successive matches of [syl_tags_pattern], as
    the loop of line 864 runs them: the [pretags] of each match, from left to
    right, and the [posttags] on which the pattern matches no more. *)
Equations? ktag_cut (s : str) : list str * str by wf (Str.length s) lt :=
  ktag_cut s with inspect (syl_tags_match s) := {
    | exist _ (Some (pretags, kdur, posttags)) _ :=
        let (pres, leftover) := ktag_cut posttags in
        (pretags :: pres, leftover);
    | exist _ None _ := ([], s) }.
Proof.
  apply (syl_tags_match_shorter s pretags kdur posttags e).
Qed.

Fixpoint last_char (s : str) : option char :=
  match s with
  | "" => None
  | String c "" => Some c
  | String _ r => last_char r
  end.

Definition first_char (s : str) : option char :=
  match s with
  | "" => None
  | String c _ => Some c
  end.

(** The text ends in a whitespace character. *)
Definition ends_in_space (s : str) : bool :=
  match last_char s with
  | Some c => isspace c
  | None => false
  end.

(** The text neither starts nor ends with a whitespace character. *)
Definition trimmed (s : str) : Prop :=
  match first_char s, last_char s with
  | Some a, Some b => isspace a = false /\ isspace b = false
  | _, _ => True
  end.

(** A running index that starts at [wi] and grows by one after each text that
    ends in whitespace. *)
Fixpoint word_index_rule (wi : nat) (texts : list str) : list nat :=
  match texts with
  | [] => []
  | t :: rest =>
      wi :: word_index_rule (if ends_in_space t then S wi else wi) rest
  end.

(** A clock that starts at [t] and runs through the durations [ds], given in
    centiseconds: (start, end, duration) of each step in milliseconds. *)
Fixpoint clock (t : Z) (ds : list Z) : list (Z * Z * Z) :=
  match ds with
  | [] => []
  | d :: rest => (t, t + d * 10, d * 10) :: clock (t + d * 10) rest
  end.

Definition sum_Z (l : list Z) : Z := fold_right Z.add 0 l.

(** The positions in [lines] of the lines of one style, in document order. *)
Fixpoint refs_of_style (style : str) (li : nat) (lines : list (Line.t R))
    : list nat :=
  match lines with
  | [] => []
  | line :: rest =>
      if Str.eqb (Line.style line) style
      then li :: refs_of_style style (S li) rest
      else refs_of_style style (S li) rest
  end.

(** The attributes a syllable keeps from its creation at lines 923-935. *)
Definition same_head (p : Provisional.t R) (s : Syllable.t R) : Prop :=
  Syllable.i s = Provisional.i p
  /\ Syllable.word_i s = Provisional.word_i p
  /\ Syllable.start_time s = Provisional.start_time p
  /\ Syllable.end_time s = Provisional.end_time p
  /\ Syllable.duration s = Provisional.duration p
  /\ Syllable.styleref s = Provisional.styleref p.

(** [h] is the provisional syllable [p] completed as a hidden syllable. *)
Definition hidden_of (p : Provisional.t R) (h : Syllable.t R) : Prop :=
  same_head p h
  /\ Syllable.tags h = Provisional.tags p
  /\ Syllable.text h = ""
  /\ Syllable.prespace h = 0%nat
  /\ Syllable.postspace h = 0%nat.

(** [(prespace, core, postspace)] is the split of [text]: a whitespace-only
    text whole, with zero counts; any other text as the count of its leading
    whitespace, a core that neither starts nor ends with whitespace, and the
    count of its trailing whitespace. *)
Definition text_split (text : str) (prespace : nat) (core : str)
    (postspace : nat) : Prop :=
  (str_isspace text = true ->
   prespace = 0%nat /\ core = text /\ postspace = 0%nat)
  /\ (str_isspace text = false ->
      exists pre post,
        text = (pre ++ core ++ post)%str
        /\ forall_chars isspace pre = true
        /\ forall_chars isspace post = true
        /\ prespace = Str.length pre
        /\ postspace = Str.length post
        /\ trimmed core).

(** [l] is the provisional syllable [p] completed as the last syllable of a
    chunk with the tag remainder [leftover] and the text [text]. *)
Definition last_of (p : Provisional.t R) (leftover text : str)
    (l : Syllable.t R) : Prop :=
  same_head p l
  /\ Syllable.tags l = (Provisional.tags p ++ leftover)%str
  /\ text_split text (Syllable.prespace l) (Syllable.text l)
       (Syllable.postspace l).

(** What [text_chunks] guarantees of a chunk of a raw text without newline:
    no newline in it, and empty tags when it has no word index. *)
Definition chunk_ok (tc : TextChunk.t) : Prop :=
  no_newline (TextChunk.tags tc)
  /\ no_newline (TextChunk.text tc)
  /\ (TextChunk.word_i tc = None -> TextChunk.tags tc = "").

(** [g] is what the chunk [tc] contributes to [line.syls]: one syllable for
    each karaoke tag, all of the word of the chunk; all but the last hidden,
    each with the [pretags] of its match as tags; the last one with the text
    of the chunk, split, and with the [pretags] of the last match followed by
    what follows the last karaoke tag of the chunk as tags. *)
Definition chunk_group (tc : TextChunk.t) (g : list (Syllable.t R)) : Prop :=
  List.length g = count_ktags (TextChunk.tags tc)
  /\ Forall (fun x => Some (Syllable.word_i x) = TextChunk.word_i tc) g
  /\ exists hidden l,
       g = (hidden ++ [l])%list
       /\ Forall (fun h => Syllable.text h = ""
                           /\ Syllable.prespace h = 0%nat
                           /\ Syllable.postspace h = 0%nat) hidden
       /\ text_split (TextChunk.text tc) (Syllable.prespace l)
            (Syllable.text l) (Syllable.postspace l)
       /\ exists pres pretags leftover,
            ktag_cut (TextChunk.tags tc) = ((pres ++ [pretags])%list, leftover)
            /\ map (@Syllable.tags R) hidden = pres
            /\ Syllable.tags l = (pretags ++ leftover)%str
            /\ exists u v d,
                 TextChunk.tags tc = (u ++ pretags ++ v)%str
                 /\ ktag_here v = Some (d, leftover)
                 /\ count_ktags leftover = 0%nat.

(** (start_time, end_time, duration) *)
Definition syl_timing (s : Syllable.t R) : Z * Z * Z :=
  (Syllable.start_time s, Syllable.end_time s, Syllable.duration s).

Definition char_sizes (cs : list (Char.t R)) : list (R * R) :=
  map (fun c => (Char.width c, Char.height c)) cs.

(** Elements, given by their height and coordinates, stacked from top to
    bottom starting at [cur_y]: each one has its top where the one before it
    has its bottom, and its reference [y] in its middle. *)
Fixpoint column (cur_y : R) (l : list (R * option (Pos.t R))) : Prop :=
  match l with
  | [] => True
  | (h, p) :: rest =>
      (exists q,
         p = Some q
         /\ Pos.top q = cur_y
         /\ Pos.middle q = (cur_y + h / two)%py
         /\ Pos.bottom q = (cur_y + h)%py
         /\ Pos.y q = Pos.middle q)
      /\ column (cur_y + h)%py rest
  end.

(** Elements, given by their coordinates, that sit on the row of the line:
    their vertical coordinates are those of the line. *)
Definition on_row (lp : Pos.t R) (l : list (option (Pos.t R))) : Prop :=
  Forall (fun p =>
            exists q,
              p = Some q
              /\ Pos.top q = Pos.top lp
              /\ Pos.middle q = Pos.middle lp
              /\ Pos.bottom q = Pos.bottom lp
              /\ Pos.y q = Pos.y lp) l.

(** The geometry attributes of an object, [None] for one that is not
    assigned: width, height, x, y, left, center, right, top, middle,
    bottom. *)
Definition geometry (width height : R) (p : option (Pos.t R))
    : list (option R) :=
  [Some width; Some height;
   option_map (@Pos.x R) p; option_map (@Pos.y R) p;
   option_map (@Pos.left R) p; option_map (@Pos.center R) p;
   option_map (@Pos.right R) p; option_map (@Pos.top R) p;
   option_map (@Pos.middle R) p; option_map (@Pos.bottom R) p].

Definition word_geometry (w : Word.t R) : list (option R) :=
  geometry (Word.width w) (Word.height w) (Word.pos w).
Definition syl_geometry (s : Syllable.t R) : list (option R) :=
  geometry (Syllable.width s) (Syllable.height s) (Syllable.pos s).
Definition char_geometry (c : Char.t R) : list (option R) :=
  geometry (Char.width c) (Char.height c) (Char.pos c).

(** All the geometry attributes are assigned. *)
Definition all_set (g : list (option R)) : Prop :=
  Forall (fun o => o <> None) g.

(** Width and height are assigned and no positional attribute is. *)
Definition only_size_set (g : list (option R)) : Prop :=
  exists w h, g = Some w :: Some h :: repeat None 8.

(** The order of a sorted group: by key, and by position for equal keys. *)
Definition key_then_ref (key : nat -> Z) (x y : nat) : Prop :=
  key x < key y \/ (key x = key y /\ (x < y)%nat).

(** The dict [lines_by_styles], read through its keys. *)
Fixpoint group_of (style : str) (d : list (str * list nat))
    : list nat :=
  match d with
  | [] => []
  | (k, v) :: d' => if Str.eqb k style then v else group_of style d'
  end.

(** The lead-in and lead-out of the line at index [k] of a sorted group of
    references into [lines]. *)
Definition leadin_rule (lines : list (Line.t R)) (group : list nat)
    (k : nat) : lead :=
  if (k =? 0)%nat then Lead1000_1
  else LeadGap (attr (@Line.start_time R) lines (nth k group 0%nat)
                - attr (@Line.end_time R) lines (nth (k - 1) group 0%nat)).

Definition leadout_rule (lines : list (Line.t R)) (group : list nat)
    (k : nat) : lead :=
  if (k =? List.length group - 1)%nat then Lead1000_1
  else LeadGap (attr (@Line.start_time R) lines (nth (k + 1) group 0%nat)
                - attr (@Line.end_time R) lines (nth k group 0%nat)).

(** An attribute that assigning the lead times leaves alone. *)
Definition kept (g : Line.t R -> Z) : Prop :=
  forall l i o, g (Line.set_leadout (Line.set_leadin l i) o) = g l.

End Extended.

(** ** Concrete lines

    Lines of the concrete interpretation, on which the theorems are applied
    and on which the statements of the specification that do not hold as
    written are shown to fail. *)

Module Examples.

Import Sample.

Definition run (vertical_kanji : bool) (a x y : Z) (raw : str)
    : result (Line.t Q) :=
  @extend_line Q qnum mono (meta x y) vertical_kanji (styles a)
    (line 0 0 5000 "Default" raw).

(** [Hi there] with the ideographic space U+3000 between the two words. *)
Definition hi_there_wide : str := "Hi" ++ String 12288%N "there".

(** Three dialogue lines, two of the style [Default] and one of the style
    [Alt], the first two out of chronological order. *)
Definition three_lines : list (Line.t Q) :=
  [line 0 3000 4500 "Default" "second";
   line 1 1000 2000 "Default" "first";
   line 2 500 800 "Alt" "other"].

End Examples.

(** * The parser and the constructor (lines 439-613)

    [Ass.__init__] before the extended computation: the loop of line 467 over
    the lines of the subtitle file, which fills [self.meta], [self.styles],
    [self.lines] and [self.__output]. The file is given by the lines the
    iteration yields; how the path is found and the file opened (lines
    445-462) belongs to the operating system. *)

(** ** Text primitives *)

(** [s[n:]] *)
Fixpoint drop (n : nat) (s : str) : str :=
  match n, s with
  | S k, String _ r => drop k r
  | _, _ => s
  end.

(** The text after the prefix [p] of [s], when [s.startswith(p)]. *)
Fixpoint after_prefix (p s : str) : option str :=
  match p with
  | "" => Some s
  | String a p' =>
      match s with
      | String b s' => if N.eqb a b then after_prefix p' s' else None
      | "" => None
      end
  end.

Definition startswith (p s : str) : bool :=
  match after_prefix p s with
  | Some _ => true
  | None => false
  end.

(** [s] without the characters of the class [p] at its end. *)
Fixpoint rstrip_by (p : char -> bool) (s : str) : str :=
  match s with
  | "" => ""
  | String c r =>
      match rstrip_by p r with
      | "" => if p c then "" else String c ""
      | r' => String c r'
      end
  end.

Definition strip_by (p : char -> bool) (s : str) : str :=
  rstrip_by p (snd (span p s)).

(** [s.strip()] *)
Definition strip (s : str) : str := strip_by isspace s.

(** [s.split(sep)] for a separator of one character. *)
Fixpoint split_on (sep : char) (s : str) : list str :=
  match s with
  | "" => [""]
  | String c r =>
      if N.eqb c sep then "" :: split_on sep r
      else
        match split_on sep r with
        | h :: t => String c h :: t
        | [] => [String c ""]
        end
  end.

Definition comma : char := ","%char.

(** The end anchor of [re]: the end of the string, or the newline that ends
    it. *)
Definition at_end (s : str) : bool :=
  match s with
  | "" => true
  | String c "" => N.eqb c newline
  | String _ (String _ _) => false
  end.

(** ** The regular expressions of the parser *)

(** [section_pattern.match(line)] (lines 469-472), group 1: an opening
    bracket at the head of the line, then as many characters other than the
    closing bracket as there are, a newline included. *)
Definition section_match (line : str) : option str :=
  match line with
  | String c r =>
      if N.eqb c "["%char
      then Some (fst (span (fun x => negb (N.eqb x "]"%char)) r))
      else None
  | "" => None
  end.

Definition is_blank (c : char) : bool := N.eqb c " "%char.

(** The patterns of lines 499, 503 and 505 as truth values: the literal
    [key], a lazy run of blanks, one or more digits, the end anchor. A blank
    is no digit, so the lazy run stops exactly where the blanks do. *)
Definition number_line (key line : str) : bool :=
  match after_prefix key line with
  | Some r =>
      let (d, e) := span isdigit (snd (span is_blank r)) in
      nonempty d && at_end e
  | None => false
  end.

(** The pattern of line 501 as a truth value: the literal [key], a lazy run
    of blanks, a greedy run of one or more characters, the end anchor. The
    greedy run also takes blanks, so the lazy run is empty when there is a
    match at all. *)
Definition text_line (key line : str) : bool :=
  match after_prefix key line with
  | Some r => let (t, e) := span dot r in nonempty t && at_end e
  | None => false
  end.

(** The patterns of lines 507 and 510 as truth values: as [text_line], with
    a greedy run that may be empty. *)
Definition any_line (key line : str) : bool :=
  match after_prefix key line with
  | Some r => at_end (snd (span dot r))
  | None => false
  end.

(** A lazy run of one or more characters up to the end anchor, read at the
    head of [r] (lines 521 and 581): the run, which is the line without its
    final newline. *)
Definition line_body (r : str) : option str :=
  let (t, e) := span dot r in
  if nonempty t && at_end e then Some t else None.

(** The match of line 521, group 1. *)
Definition style_match (line : str) : option str :=
  match after_prefix "Style: " line with
  | Some r => line_body r
  | None => None
  end.

(** The match of line 581, groups 1 and 2. *)
Definition event_match (line : str) : option (str * str) :=
  match after_prefix "Dialogue: " line with
  | Some r => option_map (pair "Dialogue") (line_body r)
  | None =>
      match after_prefix "Comment: " line with
      | Some r => option_map (pair "Comment") (line_body r)
      | None => None
      end
  end.

(** The substitution of line 577. Only the head of the line can match; a
    match on [Comment:] is replaced by itself. *)
Definition comment_out (line : str) : str :=
  match after_prefix "Dialogue:" line with
  | Some r => "Comment:" ++ r
  | None => line
  end.

(** ** [int] on a [str] *)

(** The whitespace [int] accepts around the number: the whitespace of
    [str.isspace] but for the separators FS..US, which [str.strip] removes
    and [int] refuses. *)
Definition int_space (c : char) : bool :=
  isspace c && negb ((28 <=? c) && (c <=? 31))%N.

Definition underscore : char := "_"%char.

(** Decimal digits with single underscores between them; [after_digit] tells
    whether the character before was a digit. *)
Fixpoint digits_ok (after_digit : bool) (s : str) : bool :=
  match s with
  | "" => after_digit
  | String c r =>
      if isdigit c then digits_ok true r
      else if N.eqb c underscore then after_digit && digits_ok false r
      else false
  end.

Fixpoint without_underscores (s : str) : str :=
  match s with
  | "" => ""
  | String c r =>
      if N.eqb c underscore then without_underscores r
      else String c (without_underscores r)
  end.

(** [int(s)]: [None] stands for the [ValueError]. Whitespace around the
    number, an optional sign, then decimal digits of any number systems with
    single underscores between them. *)
Definition py_int (s : str) : option Z :=
  let body := strip_by int_space s in
  let (negative, digits) :=
    match body with
    | String c r =>
        if N.eqb c "-"%char then (true, r)
        else if N.eqb c "+"%char then (false, r)
        else (false, body)
    | "" => (false, "")
    end in
  if digits_ok false digits then
    let v := int_of_digits (without_underscores digits) in
    Some (if negative then (- v)%Z else v)
  else None.

(** ** Outcomes of the constructor *)

(** What the constructor can raise: the exceptions of the extended
    computation, the [ValueError] of [int] and [float], and whatever the
    module [convert] raises. *)
Inductive raised : Type :=
| Exn (e : exn)
| ValueError
| ConvertError.

Inductive outcome (A : Type) : Type :=
| Done (a : A)
| Failed (e : raised).
Arguments Done {A} a.
Arguments Failed {A} e.

Definition and_then {A B : Type} (m : outcome A) (k : A -> outcome B)
    : outcome B :=
  match m with
  | Done a => k a
  | Failed e => Failed e
  end.

Notation "x <~ m ;; k" := (and_then m (fun x => k))
  (at level 61, m at next level, right associativity).
Notation "' p <~ m ;; k" := (and_then m (fun p => k))
  (at level 61, p pattern, m at next level, right associativity).

Definition lift {A : Type} (m : result A) : outcome A :=
  match m with
  | Ok a => Done a
  | Raise e => Failed (Exn e)
  end.

Definition or_fail {A : Type} (e : raised) (o : option A) : outcome A :=
  match o with
  | Some a => Done a
  | None => Failed e
  end.

(** [l[k]] *)
Definition item (l : list str) (k : nat) : outcome str :=
  or_fail (Exn IndexError) (nth_error l k).

Definition to_int (s : str) : outcome Z := or_fail ValueError (py_int s).

(** ** The environment *)

(** The functions of [os.path] and [os] that [get_media_abs_path] calls. *)
Class Os : Type := {
  dirname : str -> str;
  normpath : str -> str;
  isfile : str -> bool;
  sep : str }.

(** The module [convert], which is not part of this file. [Convert.time] on
    a time string gives milliseconds; [Convert.coloralpha] is called in three
    ways: on the colour string of a style, giving four components, on three
    components, giving a colour string, and on one component, giving an alpha
    string. [None] stands for an exception raised there. *)
Class Convert (C : Type) : Type := {
  time_of_str : str -> option Z;
  coloralpha_of_ass : str -> option (C * C * C * C);
  color_of_rgb : C -> C -> C -> option str;
  alpha_of_value : C -> option str }.

(** ** The document while it is parsed *)

(** The [Meta] object, whose attributes exist once a line of the file has
    assigned them. *)
Module Header.
Record t : Type := mk {
  wrap_style : option Z;
  scaled_border_and_shadow : option bool;
  play_res_x : option Z;
  play_res_y : option Z;
  audio : option str;
  video : option str }.

Definition empty : t := mk None None None None None None.

Definition set_wrap_style (m : t) (v : Z) : t :=
  mk (Some v) (scaled_border_and_shadow m) (play_res_x m) (play_res_y m)
     (audio m) (video m).
Definition set_scaled_border_and_shadow (m : t) (v : bool) : t :=
  mk (wrap_style m) (Some v) (play_res_x m) (play_res_y m)
     (audio m) (video m).
Definition set_play_res_x (m : t) (v : Z) : t :=
  mk (wrap_style m) (scaled_border_and_shadow m) (Some v) (play_res_y m)
     (audio m) (video m).
Definition set_play_res_y (m : t) (v : Z) : t :=
  mk (wrap_style m) (scaled_border_and_shadow m) (play_res_x m) (Some v)
     (audio m) (video m).
Definition set_audio (m : t) (v : str) : t :=
  mk (wrap_style m) (scaled_border_and_shadow m) (play_res_x m)
     (play_res_y m) (Some v) (video m).
Definition set_video (m : t) (v : str) : t :=
  mk (wrap_style m) (scaled_border_and_shadow m) (play_res_x m)
     (play_res_y m) (audio m) (Some v).
End Header.

(** [d[k] = v] on a dict kept in insertion order. *)
Fixpoint dict_set {A : Type} (k : str) (v : A) (d : list (str * A))
    : list (str * A) :=
  match d with
  | [] => [(k, v)]
  | (k', v') :: d' =>
      if Str.eqb k' k then (k', v) :: d'
      else (k', v') :: dict_set k v d'
  end.

(** [d[k]], [None] standing for the [KeyError]. *)
Fixpoint dict_get {A : Type} (k : str) (d : list (str * A))
    : option A :=
  match d with
  | [] => None
  | (k', v) :: d' => if Str.eqb k' k then Some v else dict_get k d'
  end.

Section Constructor.

Context {R C : Type} {num : PyNum R} {font : FontProvider R}.
Context {os : Os} {conv : Convert C}.

(** [float] on a [str], [None] standing for the [ValueError]. *)
Variable py_float : str -> option R.

Local Open Scope Z_scope.

(** The state of the loop of line 467: [section], [li], [self.meta],
    [self.styles], [self.lines] and [self.__output]. *)
Record Parsed : Type := mkParsed {
  p_section : str;
  p_li : nat;
  p_meta : Header.t;
  p_styles : list (str * Style.t R);
  p_lines : list (Line.t R);
  p_output : list str }.

(** Lines 439-465. *)
Definition parser_start : Parsed := mkParsed "" 0%nat Header.empty [] [] [].

(** *** Meta data (lines 477-515) *)

(** The loop of line 485. *)
Fixpoint up_dirs (media_dir mediafile : str) {struct mediafile}
    : str * str :=
  match mediafile with
  | String "."%char (String "."%char (String "/"%char rest)) =>
      up_dirs (dirname media_dir) rest
  | _ => (media_dir, mediafile)
  end.

(** Lines 479-496; [path_input] is [self.path_input]. *)
Definition get_media_abs_path (path_input mediafile : str) : str :=
  if negb (startswith "?dummy" mediafile) then
    let tmp := mediafile in
    let (media_dir, mediafile) := up_dirs (dirname path_input) mediafile in
    let mediafile := normpath (media_dir ++ sep ++ mediafile) in
    if negb (isfile mediafile) then tmp else mediafile
  else mediafile.

(** The switch of lines 499-512: the meta data and the line afterwards. *)
Definition parse_meta (path_input : str) (m : Header.t) (line : str)
    : outcome (Header.t * str) :=
  if number_line "WrapStyle:" line then
    v <~ to_int (strip (drop 11 line)) ;;
    Done (Header.set_wrap_style m v, line)
  else if text_line "ScaledBorderAndShadow:" line then
    Done (Header.set_scaled_border_and_shadow m
            (Str.eqb (strip (drop 23 line)) "yes"), line)
  else if number_line "PlayResX:" line then
    v <~ to_int (strip (drop 10 line)) ;;
    Done (Header.set_play_res_x m v, line)
  else if number_line "PlayResY:" line then
    v <~ to_int (strip (drop 10 line)) ;;
    Done (Header.set_play_res_y m v, line)
  else if any_line "Audio File:" line then
    let audio := get_media_abs_path path_input (strip (drop 11 line)) in
    Done (Header.set_audio m audio,
          "Audio File: " ++ audio ++ String newline "")
  else if any_line "Video File:" line then
    let video := get_media_abs_path path_input (strip (drop 11 line)) in
    Done (Header.set_video m video,
          "Video File: " ++ video ++ String newline "")
  else Done (m, line).

(** *** Styles (lines 518-571) *)

Definition to_float (s : str) : outcome R :=
  or_fail ValueError (py_float s).

(** Lines 533-535 and alike: the colour and the alpha of one field. *)
Definition color_alpha (s : str) : outcome (str * str) :=
  '(r, g, b, a) <~ or_fail ConvertError (coloralpha_of_ass s) ;;
  color <~ or_fail ConvertError (color_of_rgb r g b) ;;
  alpha <~ or_fail ConvertError (alpha_of_value a) ;;
  Done (color, alpha).

(** Lines 528-569 on the fields of a style line. *)
Definition parse_style (style : list str) : outcome (Style.t R) :=
  fontname <~ item style 1 ;;
  fontsize <~ (x <~ item style 2 ;; to_float x) ;;
  '(color1, alpha1) <~ (x <~ item style 3 ;; color_alpha x) ;;
  '(color2, alpha2) <~ (x <~ item style 4 ;; color_alpha x) ;;
  '(color3, alpha3) <~ (x <~ item style 5 ;; color_alpha x) ;;
  '(color4, alpha4) <~ (x <~ item style 6 ;; color_alpha x) ;;
  bold <~ item style 7 ;;
  italic <~ item style 8 ;;
  underline <~ item style 9 ;;
  strikeout <~ item style 10 ;;
  scale_x <~ (x <~ item style 11 ;; to_float x) ;;
  scale_y <~ (x <~ item style 12 ;; to_float x) ;;
  spacing <~ (x <~ item style 13 ;; to_float x) ;;
  angle <~ (x <~ item style 14 ;; to_float x) ;;
  border_style <~ item style 15 ;;
  outline <~ (x <~ item style 16 ;; to_float x) ;;
  shadow <~ (x <~ item style 17 ;; to_float x) ;;
  alignment <~ (x <~ item style 18 ;; to_int x) ;;
  margin_l <~ (x <~ item style 19 ;; to_int x) ;;
  margin_r <~ (x <~ item style 20 ;; to_int x) ;;
  margin_v <~ (x <~ item style 21 ;; to_int x) ;;
  encoding <~ (x <~ item style 22 ;; to_int x) ;;
  Done (Style.mk fontname fontsize color1 alpha1 color2 alpha2
          color3 alpha3 color4 alpha4
          (Str.eqb bold "-1") (Str.eqb italic "-1")
          (Str.eqb underline "-1") (Str.eqb strikeout "-1")
          scale_x scale_y spacing angle (Str.eqb border_style "3")
          outline shadow alignment margin_l margin_r margin_v encoding).

(** *** Dialogues (lines 573-609) *)

Definition to_time (s : str) : outcome Z :=
  or_fail ConvertError (time_of_str s).

(** Lines 585-607: the [Line] of index [li], from groups 1 and 2 of the
    match of line 581. *)
Definition parse_event (li : nat) (kind body : str) : outcome (Line.t R) :=
  let line := split_on comma body in
  layer <~ (x <~ item line 0 ;; to_int x) ;;
  start_time <~ (x <~ item line 1 ;; to_time x) ;;
  end_time <~ (x <~ item line 2 ;; to_time x) ;;
  style <~ item line 3 ;;
  actor <~ item line 4 ;;
  margin_l <~ (x <~ item line 5 ;; to_int x) ;;
  margin_r <~ (x <~ item line 6 ;; to_int x) ;;
  margin_v <~ (x <~ item line 7 ;; to_int x) ;;
  effect <~ item line 8 ;;
  Done (Line.mk li (Str.eqb kind "Comment") layer start_time end_time
          None None None style None actor margin_l margin_r margin_v effect
          (Str.concat "," (skipn 9 line))
          None None None None None None None None).

(** *** The body of the loop of line 467 *)

Definition emit (st : Parsed) (line : str) : Parsed :=
  mkParsed (p_section st) (p_li st) (p_meta st) (p_styles st) (p_lines st)
    (p_output st ++ [line]).

Definition parse_line (path_input : str) (keep_original : bool)
    (st : Parsed) (line : str) : outcome Parsed :=
  match section_match line with
  | Some section =>
      Done (mkParsed section (p_li st) (p_meta st) (p_styles st)
              (p_lines st) (p_output st ++ [line]))
  | None =>
      if Str.eqb (p_section st) "Script Info"
         || Str.eqb (p_section st) "Aegisub Project Garbage" then
        '(meta, line) <~ parse_meta path_input (p_meta st) line ;;
        Done (mkParsed (p_section st) (p_li st) meta (p_styles st)
                (p_lines st) (p_output st ++ [line]))
      else if Str.eqb (p_section st) "V4+ Styles" then
        match style_match line with
        | Some fields =>
            let style := split_on comma fields in
            tmp <~ parse_style style ;;
            Done (mkParsed (p_section st) (p_li st) (p_meta st)
                    (dict_set (hd "" style) tmp (p_styles st))
                    (p_lines st) (p_output st ++ [line]))
        | None => Done (emit st line)
        end
      else if Str.eqb (p_section st) "Events" then
        let st := if keep_original then emit st (comment_out line) else st in
        match event_match line with
        | Some (kind, body) =>
            tmp <~ parse_event (p_li st) kind body ;;
            Done (mkParsed (p_section st) (S (p_li st)) (p_meta st)
                    (p_styles st) (p_lines st ++ [tmp]) (p_output st))
        | None => Done st
        end
      else Done st
  end.

(** The loop of line 467 over the lines of the file. *)
Fixpoint parse_lines (path_input : str) (keep_original : bool)
    (st : Parsed) (file : list str) : outcome Parsed :=
  match file with
  | [] => Done st
  | line :: rest =>
      st' <~ parse_line path_input keep_original st line ;;
      parse_lines path_input keep_original st' rest
  end.

(** *** The extended computation on the parsed document (lines 611-1143) *)

(** The meta data as the layout reads them. Each guard (lines 645, 741, 942,
    1074) reads [play_res_x] first, and [play_res_y] only when [play_res_x]
    is positive; a missing attribute raises where it is read. When
    [play_res_x] is not positive no other attribute is read, whatever stands
    for them here. *)
Definition layout_meta (h : Header.t) : result Meta.t :=
  match Header.play_res_x h with
  | None => Raise AttributeError
  | Some x =>
      if 0 <? x then
        match Header.play_res_y h with
        | None => Raise AttributeError
        | Some y => Ok (Meta.mk 0 false x y "" "")
        end
      else Ok (Meta.mk 0 false x 0 "" "")
  end.

(** The body of the loop of line 617. A line whose style is not defined
    never reads the meta data. *)
Definition extend_parsed_line (h : Header.t) (vertical_kanji : bool)
    (styles : list (str * Style.t R)) (line : Line.t R)
    : result (Line.t R) :=
  match dict_get (Line.style line) styles with
  | None =>
      extend_line (Meta.mk 0 false 0 0 "" "") vertical_kanji
        (fun name => dict_get name styles) line
  | Some _ =>
      meta <- layout_meta h ;;
      extend_line meta vertical_kanji (fun name => dict_get name styles) line
  end.

Fixpoint extend_parsed_lines (h : Header.t) (vertical_kanji : bool)
    (styles : list (str * Style.t R)) (lines : list (Line.t R))
    : result (list (Line.t R)) :=
  match lines with
  | [] => Ok []
  | line :: rest =>
      line' <- extend_parsed_line h vertical_kanji styles line ;;
      rest' <- extend_parsed_lines h vertical_kanji styles rest ;;
      Ok (line' :: rest')
  end.

(** *** The constructor *)

(** The object the constructor leaves: [meta], [styles], [lines],
    [__output] with [__plines], and [__saved]. *)
Record Ass : Type := mkAss {
  ass_meta : Header.t;
  ass_styles : list (str * Style.t R);
  ass_lines : list (Line.t R);
  ass_output : Output;
  ass_saved : bool }.

(** [Ass.__init__] from line 465 on, for a file that exists. *)
Definition init (path_input : str)
    (keep_original extended vertical_kanji : bool) (file : list str)
    : outcome Ass :=
  st <~ parse_lines path_input keep_original parser_start file ;;
  if negb extended then
    Done (mkAss (p_meta st) (p_styles st) (p_lines st)
            (mkOutput (p_output st) 0) false)
  else
    lines <~ lift (extend_parsed_lines (p_meta st) vertical_kanji
                     (p_styles st) (p_lines st)) ;;
    Done (mkAss (p_meta st) (p_styles st) (add_durations lines)
            (mkOutput (p_output st) 0) false).

(** [get_data] (lines 1145-1151). *)
Definition get_data (a : Ass)
    : Header.t * list (str * Style.t R) * list (Line.t R) :=
  (ass_meta a, ass_styles a, ass_lines a).

End Constructor.

(** * [save], [open_aegisub] and [open_mpv] (lines 1183-1278)

    What these methods do to the world is kept as a list of effects. Whether
    a program is found when it is called, the platform and the time the
    process took belong to the environment and are given. *)

Inductive effect : Type :=
| Printed (text : str)
| Written (path content : str)
| Started (path : str)
| Called (cmd : list str).

Section Output.

Context {R : Type}.

(** [self.path_output] *)
Variable path_output : str.

(** [save]: [duration] is the process duration as the format of line 1197
    writes it. *)
Definition save (duration : str) (quiet : bool) (a : @Ass R)
    : Ass * list effect :=
  (mkAss (ass_meta a) (ass_styles a) (ass_lines a) (ass_output a) true,
   Written path_output (Str.concat "" (output (ass_output a)))
   :: if quiet then []
      else [Printed ("Produced lines: "
                     ++ str_int (Z.of_nat (plines (ass_output a)))
                     ++ String newline "Process duration (in seconds): "
                     ++ duration)]).

(** [open_aegisub]: the value returned and the effects. *)
Definition open_aegisub (win32 aegisub_found : bool)
    (abspath : str -> str) (a : @Ass R) : Z * list effect :=
  if negb (ass_saved a) then
    (-1, [Printed ("[WARNING] You've tried to open the output with Aegisub "
                   ++ "before having saved. Check your code.")])%Z
  else if win32 then (0%Z, [Started path_output])
  else if aegisub_found then
    (0%Z, [Called ["aegisub"; abspath path_output]])
  else (-1, [Printed "[WARNING] Aegisub not found."])%Z.

(** The command of lines 1256-1267. *)
Definition mpv_command (video video_path video_start : str)
    (full_screen : bool) : list str :=
  ["mpv"]
  ++ [if negb (nonempty video_path) then video else video_path]
  ++ (if nonempty video_start then ["--start=" ++ video_start] else [])
  ++ (if full_screen then ["--fs"] else [])
  ++ ["--sub-file=" ++ path_output].

(** [open_mpv]: line 1248 reads [self.meta.video], which exists only once a
    line of the file has assigned it. *)
Definition open_mpv (mpv_found : bool) (a : @Ass R)
    (video_path video_start : str) (full_screen : bool)
    : result (Z * list effect) :=
  if negb (ass_saved a) then
    Ok (-1, [Printed ("[ERROR] You've tried to open the output with MPV "
                      ++ "before having saved. Check your code.")])%Z
  else
    match Header.video (ass_meta a) with
    | None => Raise AttributeError
    | Some video =>
        if startswith "?dummy" video && negb (nonempty video_path) then
          Ok (-1, [Printed
                     ("[WARNING] Cannot use MPV (if you have it in your PATH) "
                      ++ "for file preview, since your .ass contains a dummy "
                      ++ "video." ++ String newline
                      ("You can specify a new video source using video_path "
                       ++ "parameter, check the documentation of the "
                       ++ "function."))])%Z
        else if mpv_found then
          Ok (0%Z, [Called (mpv_command video video_path video_start
                              full_screen)])
        else
          Ok (-1, [Printed
                     ("[WARNING] MPV not found in your environment variables."
                      ++ String newline
                      ("Please refer to the documentation's "
                       ++ String 34%N
                       ("Quick Start" ++ String 34%N
                        (" section if you don't know how to solve it."))))])%Z
    end.

(** An effect that starts a program. *)
Definition launches (e : effect) : bool :=
  match e with
  | Started _ | Called _ => true
  | Printed _ | Written _ _ => false
  end.

End Output.

(** * [pretty_print] (lines 29-56) *)

(** The class of an object, as far as [pretty_print] tells classes apart. *)
Inductive pyclass : Type :=
| ClsLine
| ClsWord
| ClsSyllable
| ClsChar
| ClsOther (name : str).

(** [type(obj).__name__] *)
Definition class_name (c : pyclass) : str :=
  match c with
  | ClsLine => "Line"
  | ClsWord => "Word"
  | ClsSyllable => "Syllable"
  | ClsChar => "Char"
  | ClsOther name => name
  end.

(** The values [pretty_print] meets: an object with a [__dict__], given by
    its class and its attributes in the order of the dict; a [list]; any
    other value. The values of this type are finite trees: an object that
    refers to itself, on which the code recurses until the interpreter
    raises a RecursionError, is none of them. *)
#[warnings="-register-all"]
Inductive pyval (atom : Type) : Type :=
| VAtom (a : atom)
| VList (l : list (pyval atom))
| VObj (cls : pyclass) (attrs : list (str * pyval atom)).
Arguments VAtom {atom} a.
Arguments VList {atom} l.
Arguments VObj {atom} cls attrs.

Section Printing.

Context {atom : Type}.

(** The builtin [str], which is also what a replacement field of an
    f-string applies to its value. *)
Variable py_str : pyval atom -> str.

Definition end_of_line : str := String newline "".

(** Lines 31-40: the first line of the output. The four classes of the
    first branches read the attribute [i] of the object. *)
Definition head_line (cls : pyclass) (attrs : list (str * pyval atom))
    (indent : nat) (name : str) : result str :=
  let indexed (list_name : str) : result str :=
    match dict_get "i" attrs with
    | Some i =>
        Ok (repeat_char " "%char indent ++ list_name ++ "[" ++ py_str i
            ++ "] (" ++ class_name cls ++ "):" ++ end_of_line)
    | None => Raise AttributeError
    end in
  match cls with
  | ClsLine => indexed "lines"
  | ClsWord => indexed "words"
  | ClsSyllable => indexed "syls"
  | ClsChar => indexed "chars"
  | ClsOther _ =>
      Ok (repeat_char " "%char indent ++ name ++ "(" ++ class_name cls
          ++ "):" ++ end_of_line)
  end.

(** [pretty_print(obj, indent, name)]. A value without [__dict__] raises at
    line 44. *)
Fixpoint pretty_print (obj : pyval atom) (indent : nat) (name : str)
    {struct obj} : result str :=
  match obj with
  | VObj cls attrs =>
      out <- head_line cls attrs indent name ;;
      (fix fields (attrs : list (str * pyval atom)) (out : str)
           {struct attrs} : result str :=
         match attrs with
         | [] => Ok out
         | (k, v) :: rest =>
             match v with
             | VObj _ _ =>
                 s <- pretty_print v (indent + 4) (k ++ " ") ;;
                 fields rest (out ++ s)
             | VList l =>
                 out <-
                   (fix elements (l : list (pyval atom)) (i : nat)
                        (out : str) {struct l} : result str :=
                      match l with
                      | [] => Ok out
                      | el :: l' =>
                          s <- pretty_print el (indent + 4)
                                 (k ++ "[" ++ str_int (Z.of_nat i) ++ "] ") ;;
                          elements l' (S i) (out ++ s)
                      end) l 0%nat out ;;
                 fields rest out
             | VAtom _ =>
                 fields rest
                   (out ++ repeat_char " "%char (indent + 4) ++ k ++ ": "
                    ++ py_str v ++ end_of_line)
             end
         end) attrs out
  | VAtom _ | VList _ => Raise AttributeError
  end.

End Printing.

(** * Notions used to state the further properties *)

(** No brace group starts anywhere in the text. *)
Fixpoint groupless (s : str) : Prop :=
  match s with
  | "" => True
  | String _ r => tag_group s = None /\ groupless r
  end.

(** One match of line 712 put together again. *)
Definition glue (m : str * str * str) : str :=
  let '(pre, w, post) := m in (pre ++ w ++ post)%str.

(** A match of line 712: whitespace, a word without whitespace that is not
    empty, whitespace. *)
Definition word_shaped (m : str * str * str) : Prop :=
  let '(pre, w, post) := m in
  forall_chars isspace pre = true
  /\ nonempty w = true
  /\ forall_chars nonspace w = true
  /\ forall_chars isspace post = true.

(** Every whitespace character replaced by a blank. *)
Fixpoint respace (s : str) : str :=
  match s with
  | "" => ""
  | String c r => String (if isspace c then " "%char else c) (respace r)
  end.

(** A field of a record: no comma and no newline in it. *)
Definition plain (c : char) : bool :=
  negb (N.eqb c comma) && dot c.

(** The sections the loop of line 467 has a branch for. *)
Definition known_section (s : str) : bool :=
  Str.eqb s "Script Info" || Str.eqb s "Aegisub Project Garbage"
  || Str.eqb s "V4+ Styles" || Str.eqb s "Events".

Section ElementNotions.

Context {R : Type} {num : PyNum R}.

Local Open Scope Z_scope.

(** The text of line 1038 for a word and for a syllable. *)
Definition word_el_text (w : Word.t R) : str :=
  el_text (Word.prespace w) (Word.text w) (Word.postspace w).

Definition syl_el_text (s : Syllable.t R) : str :=
  el_text (Syllable.prespace s) (Syllable.text s) (Syllable.postspace s).

Definition one_character (c : Char.t R) : Prop :=
  Str.length (Char.text c) = 1%nat.

(** The inline effects of syllables with the given tags, one after the
    other, when the inline effect carried so far is [fx]. *)
Fixpoint fx_chain (fx : str) (tags : list str) : list str :=
  match tags with
  | [] => []
  | t :: rest =>
      update_inline_fx fx t :: fx_chain (update_inline_fx fx t) rest
  end.

(** The horizontal coordinates of a placed element of the given width fit
    together, and its [x] is the one the alignment asks for. *)
Definition boxed (a : Z) (width : R) (p : option (Pos.t R)) : Prop :=
  match p with
  | None => True
  | Some q =>
      Pos.center q = (Pos.left q + width / two)%py
      /\ Pos.right q = (Pos.left q + width)%py
      /\ Pos.x q = column_x a (Pos.left q) (Pos.center q) (Pos.right q)
  end.

(** A [Line] as the parser leaves it: a raw text of one line, and none of
    the attributes of the extended computation. *)
Definition as_parsed (l : Line.t R) : Prop :=
  no_newline (Line.raw_text l)
  /\ Line.text l = None
  /\ Line.styleref l = None.

End ElementNotions.

Section PrintingNotions.

Context {atom : Type}.

Variable py_str : pyval atom -> str.

(** The loop of line 49 over the elements of a list, from the index [i]. *)
Fixpoint print_elements (indent : nat) (k : str) (l : list (pyval atom))
    (i : nat) (out : str) : result str :=
  match l with
  | [] => Ok out
  | el :: l' =>
      s <- pretty_print py_str el (indent + 4)
             (k ++ "[" ++ str_int (Z.of_nat i) ++ "] ") ;;
      print_elements indent k l' (S i) (out ++ s)
  end.

(** The loop of line 44 over the attributes of an object. *)
Fixpoint print_fields (indent : nat) (attrs : list (str * pyval atom))
    (out : str) : result str :=
  match attrs with
  | [] => Ok out
  | (k, v) :: rest =>
      match v with
      | VObj _ _ =>
          s <- pretty_print py_str v (indent + 4) (k ++ " ") ;;
          print_fields indent rest (out ++ s)
      | VList l =>
          out <- print_elements indent k l 0%nat out ;;
          print_fields indent rest out
      | VAtom _ =>
          print_fields indent rest
            (out ++ repeat_char " "%char (indent + 4) ++ k ++ ": "
             ++ py_str v ++ end_of_line)
      end
  end.

End PrintingNotions.

(** * A concrete environment

    Stand-ins for the operating system and the module [convert], and a small
    subtitle file, on which the constructor is run. Times are written as
    plain milliseconds. *)
Module SampleFile.

Definition os : Os :=
  {| dirname := fun s => s;
     normpath := fun s => s;
     isfile := fun _ => false;
     sep := "/" |}.

Definition conv : Convert str :=
  {| time_of_str := py_int;
     coloralpha_of_ass := fun s => Some (s, s, s, s);
     color_of_rgb := fun r _ _ => Some r;
     alpha_of_value := fun a => Some a |}.

Definition float_of (s : str) : option Q :=
  option_map inject_Z (py_int s).

Definition nl (s : str) : str := s ++ String newline "".

Definition style_line : str :=
  nl ("Style: Default,Arial,20,&H00FFFFFF,&H000000FF,&H00000000,&H00000000,"
      ++ "0,0,0,0,100,100,0,0,1,2,0,2,10,10,10,1").

Definition lines : list str :=
  [nl "[Script Info]";
   nl "PlayResX: 1280";
   nl "PlayResY: 720";
   nl "";
   nl "[V4+ Styles]";
   style_line;
   nl "";
   nl "[Events]";
   nl "Format: Layer, Start, End, Style, Name, MarginL, MarginR, MarginV, Effect, Text";
   nl "Dialogue: 0,0,5000,Default,,0,0,0,,{\k50}Hel{\k30}lo {\k40}world";
   nl "Comment: 0,6000,8000,Other,,0,0,0,,a note, with a comma"].

(** The same file without the resolution of the script. *)
Definition lines_without_resolution : list str :=
  [nl "[Script Info]";
   nl "[V4+ Styles]";
   style_line;
   nl "[Events]";
   nl "Dialogue: 0,0,5000,Default,,0,0,0,,Hi there"].

Definition new (keep_original extended : bool) (file : list str)
    : outcome (@Ass Q) :=
  @init Q str Sample.qnum Sample.mono os conv float_of "/subs/in.ass"
    keep_original extended true file.

End SampleFile.

(** * Properties *)

(** ** Literals and equality of strings *)

(** A literal is the sequence of the code points of its characters. *)
Example literal_code_points :
  "{\k1} Az"
  = String 123%N (String 92%N (String 107%N (String 49%N (String 125%N
      (String 32%N (String 65%N (String 122%N "")))))))
  /\ "{"%char = 123%N.
Proof. split; reflexivity. Qed.


Lemma str_eqb_refl s : Str.eqb s s = true.
Proof.
  induction s as [|c r IH]; [reflexivity|].
  simpl. now rewrite N.eqb_refl.
Qed.

Lemma str_eqb_eq s t : Str.eqb s t = true <-> s = t.
Proof.
  split; [|intros <-; apply str_eqb_refl].
  revert t; induction s as [|c r IH]; intros [|d q]; simpl;
    try discriminate; [reflexivity|].
  intros H. apply andb_prop in H. destruct H as [Hc Hr].
  apply N.eqb_eq in Hc. apply IH in Hr. now subst.
Qed.

Lemma str_eqb_neq s t : Str.eqb s t = false <-> s <> t.
Proof.
  split.
  - intros H E. apply str_eqb_eq in E. congruence.
  - intros H. destruct (Str.eqb s t) eqn:E; [|reflexivity].
    apply str_eqb_eq in E. contradiction.
Qed.

Lemma str_eqb_sym s t : Str.eqb s t = Str.eqb t s.
Proof.
  revert t; induction s as [|c r IH]; intros [|d q]; simpl; try reflexivity.
  now rewrite N.eqb_sym, IH.
Qed.


Section Properties.

Context {R : Type} {num : PyNum R} {font : FontProvider R}.

(** [Convert.time], as in [write_line]. *)
Variable convert_time : Z -> str.

Local Open Scope Z_scope.

(** ** Strings: auxiliary facts *)

Lemma forall_chars_app p a b :
  forall_chars p (a ++ b) = forall_chars p a && forall_chars p b.
Proof.
  induction a as [|c a IH]; simpl; [reflexivity|].
  now rewrite IH, andb_assoc.
Qed.

Lemma span_spec p s a b :
  span p s = (a, b) ->
  s = (a ++ b)%str /\ forall_chars p a = true
  /\ match first_char b with Some c => p c = false | None => True end.
Proof.
  revert a b; induction s as [|c r IH]; intros a b; simpl.
  - intros [= <- <-]. repeat split.
  - destruct (p c) eqn:Ec.
    + destruct (span p r) as [a' b'] eqn:E. intros [= <- <-].
      destruct (IH _ _ eq_refl) as (-> & Ha & Hb).
      repeat split; simpl; [now rewrite Ec, Ha | exact Hb].
    + intros [= <- <-]. repeat split. simpl. exact Ec.
Qed.

Lemma span_all p s : forall_chars p s = true -> span p s = (s, "").
Proof.
  induction s as [|c r IH]; simpl; [reflexivity|].
  intros H. apply andb_prop in H as [Hc Hr]. now rewrite Hc, (IH Hr).
Qed.

Lemma append_nil_r (s : str) : (s ++ "")%str = s.
Proof. induction s as [|c s IH]; simpl; [reflexivity|]. now rewrite IH. Qed.

Lemma append_assoc (a b c : str) :
  ((a ++ b) ++ c)%str = (a ++ (b ++ c))%str.
Proof. induction a as [|x a IH]; simpl; [reflexivity|]. now rewrite IH. Qed.

Lemma no_newline_app a b :
  no_newline (a ++ b) <-> no_newline a /\ no_newline b.
Proof.
  unfold no_newline. rewrite forall_chars_app. apply andb_true_iff.
Qed.

Lemma isdigit_notbackslash c : isdigit c = true -> notbackslash c = true.
Proof.
  unfold isdigit, notbackslash. intros H.
  destruct (N.eqb c backslash) eqn:E; [|reflexivity].
  apply N.eqb_eq in E. subst c. discriminate H.
Qed.

Lemma forall_chars_impl (p q : char -> bool) s :
  (forall c, p c = true -> q c = true) ->
  forall_chars p s = true -> forall_chars q s = true.
Proof.
  intros Hpq. induction s as [|c r IH]; simpl; [reflexivity|].
  intros H. apply andb_prop in H as [Hc Hr]. now rewrite (Hpq _ Hc), (IH Hr).
Qed.

(** ** Karaoke tags: what the pattern of line 853 finds *)

(** A karaoke tag at the head of [s] is a backslash followed by characters
    that are not backslashes, then the remainder. *)
Lemma ktag_here_shape s d rest :
  ktag_here s = Some (d, rest) ->
  exists body,
    s = String backslash (body ++ rest)
    /\ forall_chars notbackslash body = true.
Proof.
  unfold ktag_here. destruct s as [|b [|k r]]; try discriminate.
  destruct (N.eqb b backslash) eqn:Eb; simpl; [|discriminate].
  apply N.eqb_eq in Eb. subst b.
  destruct (N.eqb k "k"%char || N.eqb k "K"%char) eqn:Ek; [|discriminate].
  assert (notbackslash k = true) as Hk.
  { apply orb_prop in Ek as [E|E]; apply N.eqb_eq in E; now subst k. }
  assert (exists opt r',
    match r with
    | "" => r
    | String m r2 =>
        if N.eqb m "o"%char || N.eqb m "f"%char then r2 else r
    end = r' /\ r = (opt ++ r')%str
    /\ forall_chars notbackslash opt = true) as (opt & r' & -> & Hr & Hopt).
  { destruct r as [|m r2].
    - exists "", "". repeat split.
    - destruct (N.eqb m "o"%char || N.eqb m "f"%char) eqn:Em.
      + exists (String m ""), r2. repeat split. simpl.
        apply orb_prop in Em as [E|E]; apply N.eqb_eq in E; now subst m.
      + exists "", (String m r2). repeat split. }
  destruct (span isdigit r') as [d' q] eqn:Es.
  apply span_spec in Es as (Hr' & Hd & _).
  destruct (nonempty d'); [|discriminate].
  intros [= <- <-]. exists (String k (opt ++ d')). split.
  - simpl. now rewrite Hr, Hr', append_assoc.
  - simpl. rewrite Hk, forall_chars_app, Hopt. simpl.
    apply (forall_chars_impl isdigit); [apply isdigit_notbackslash | exact Hd].
Qed.

Lemma ktag_here_notbackslash c r :
  notbackslash c = true -> ktag_here (String c r) = None.
Proof.
  unfold notbackslash, ktag_here. intros H.
  destruct r as [|k r]; [reflexivity|].
  apply negb_true_iff in H. now rewrite H.
Qed.

Lemma ktag_durations_eq s :
  ktag_durations s =
  match s with
  | "" => []
  | String _ r =>
      match ktag_here s with
      | Some (d, _) => int_of_digits d :: ktag_durations r
      | None => ktag_durations r
      end
  end.
Proof. destruct s; reflexivity. Qed.

Lemma ktag_durations_skip body rest :
  forall_chars notbackslash body = true ->
  ktag_durations (body ++ rest) = ktag_durations rest.
Proof.
  induction body as [|c body IH]; intros H; [reflexivity|].
  simpl in H. apply andb_prop in H as [Hc Hb].
  change (String c body ++ rest)%str with (String c (body ++ rest)).
  rewrite ktag_durations_eq, (ktag_here_notbackslash _ _ Hc). exact (IH Hb).
Qed.

(** On a tag string without newline the pattern finds the first karaoke tag,
    and what it leaves in [posttags] holds the others. *)
Lemma syl_tags_match_durations s :
  no_newline s ->
  match syl_tags_match s with
  | None => ktag_durations s = []
  | Some (pre, d, post) =>
      ktag_durations s = int_of_digits d :: ktag_durations post
      /\ no_newline post
      /\ exists v, s = (pre ++ v)%str /\ ktag_here v = Some (d, post)
  end.
Proof.
  induction s as [|c r IH]; intros Hs; [reflexivity|].
  rewrite syl_tags_match_eq, ktag_durations_eq.
  destruct (ktag_here (String c r)) as [[d rest]|] eqn:E.
  - destruct (ktag_here_shape _ _ _ E) as (body & Hshape & Hbody).
    assert (no_newline rest) as Hrest.
    { rewrite Hshape in Hs. unfold no_newline in Hs. simpl in Hs.
      apply (proj1 (no_newline_app _ _)) in Hs. exact (proj2 Hs). }
    rewrite (span_all dot rest Hrest). simpl.
    split; [|split; [exact Hrest|]].
    + injection Hshape as _ ->. now rewrite ktag_durations_skip.
    + exists (String c r). split; [reflexivity | exact E].
  - unfold no_newline in Hs. simpl in Hs. apply andb_prop in Hs as [Hc Hr].
    rewrite Hc. specialize (IH Hr).
    destruct (syl_tags_match r) as [[[pre d] post]|]; [|exact IH].
    destruct IH as (Hd & Hp & v & -> & Hv).
    split; [exact Hd|]. split; [exact Hp|].
    exists v. split; [reflexivity | exact Hv].
Qed.

Lemma syl_tags_match_count s :
  no_newline s ->
  (syl_tags_match s = None <-> count_ktags s = 0%nat).
Proof.
  intros Hs. pose proof (syl_tags_match_durations s Hs) as H.
  unfold count_ktags.
  destruct (syl_tags_match s) as [[[pre d] post]|].
  - destruct H as (-> & _). simpl. split; discriminate.
  - rewrite H. split; reflexivity.
Qed.

Lemma clock_length t ds : List.length (clock t ds) = List.length ds.
Proof. revert t; induction ds as [|d ds IH]; intros t; simpl; auto. Qed.

(** The loop of line 864 on a tag string without newline, in a chunk that has
    a word index: one provisional syllable for each karaoke tag, timed by the
    running clock, and a remainder without karaoke tag, which is what follows
    the last karaoke tag. *)
Lemma peel_spec wi st posttags :
  no_newline posttags ->
  forall acc si t,
  exists provs leftover,
    peel (Some wi) st posttags acc si t
    = Ok ((acc ++ provs)%list, leftover,
          (si + List.length provs)%nat,
          t + sum_Z (ktag_durations posttags) * 10)
    /\ map (fun p => (Provisional.start_time p, Provisional.end_time p,
                      Provisional.duration p)) provs
       = clock t (ktag_durations posttags)
    /\ Forall (fun p => Provisional.word_i p = wi
                        /\ Provisional.styleref p = st) provs
    /\ map (@Provisional.i R) provs = seq si (List.length provs)
    /\ syl_tags_match leftover = None
    /\ no_newline leftover
    /\ match rev provs with
       | [] => leftover = posttags
       | p :: _ =>
           exists u v d,
             posttags = (u ++ Provisional.tags p ++ v)%str
             /\ ktag_here v = Some (d, leftover)
       end.
Proof.
  induction posttags as [s IH] using string_length_ind.
  intros Hs acc si t. rewrite peel_eq.
  pose proof (syl_tags_match_durations s Hs) as Hd.
  destruct (syl_tags_match s) as [[[pre d] rest]|] eqn:E.
  - destruct Hd as (Hd & Hrest & v & Hsv & Hv).
    destruct (IH rest (syl_tags_match_shorter _ _ _ _ E) Hrest
                (acc ++ [Provisional.mk t (t + int_of_digits d * 10)
                           (int_of_digits d * 10) st pre si wi])%list
                (S si) (t + int_of_digits d * 10))
      as (provs & leftover & Hp & Hclock & Hall & Hi & Hleft & Hnl & Hlast).
    exists (Provisional.mk t (t + int_of_digits d * 10)
              (int_of_digits d * 10) st pre si wi :: provs), leftover.
    cbv zeta. rewrite Hp, Hd. simpl.
    rewrite <- app_assoc. simpl.
    repeat split; try assumption.
    + rewrite Nat.add_succ_r. do 2 f_equal. lia.
    + now rewrite Hclock.
    + constructor; [split; reflexivity | exact Hall].
    + now rewrite Hi.
    + destruct (rev provs) as [|p ps] eqn:Erev; simpl.
      * subst leftover. exists "", v, d. split; [exact Hsv | exact Hv].
      * destruct Hlast as (u & v' & d' & Hrest' & Hv').
        destruct (ktag_here_shape _ _ _ Hv) as (body & -> & _).
        exists (pre ++ String backslash (body ++ u))%str, v', d'.
        split; [|exact Hv'].
        rewrite Hsv, Hrest'. simpl. rewrite !append_assoc. simpl.
        now rewrite !append_assoc.
  - exists [], s. rewrite Hd. simpl. rewrite app_nil_r, Nat.add_0_r, Z.add_0_r.
    repeat split; try assumption. constructor.
Qed.

(** ** The text of the last syllable of a chunk *)

Lemma last_char_cons c s :
  last_char (String c s) =
  match s with
  | "" => Some c
  | String _ _ => last_char s
  end.
Proof. destruct s; reflexivity. Qed.

Lemma lazy_core_spec s :
  no_newline s ->
  exists core post,
    lazy_core s = Some (core, post)
    /\ s = (core ++ post)%str
    /\ forall_chars isspace post = true
    /\ match last_char core with
       | Some c => isspace c = false
       | None => True
       end.
Proof.
  induction s as [|c r IH]; intros Hs.
  - exists "", "". repeat split.
  - unfold no_newline in Hs. simpl in Hs. apply andb_prop in Hs as [Hc Hr].
    destruct (IH Hr) as (core & post & Hl & Hsplit & Hpost & Hlast).
    unfold lazy_core; fold lazy_core.
    destruct (forall_chars isspace (String c r)) eqn:Eall.
    + exists "", (String c r). repeat split. exact Eall.
    + rewrite Hc, Hl. exists (String c core), post.
      repeat split; [simpl; now rewrite Hsplit | exact Hpost |].
      rewrite last_char_cons. destruct core as [|c' core]; [|exact Hlast].
      simpl in Hsplit. subst r. simpl in Eall. rewrite Hpost in Eall.
      now rewrite andb_true_r in Eall.
Qed.

Lemma first_char_app a b :
  first_char (a ++ b) =
  match first_char a with
  | Some c => Some c
  | None => first_char b
  end.
Proof. destruct a; reflexivity. Qed.

(** Lines 898-907 on a text without newline: a whitespace-only text is kept
    whole; any other text splits into its leading whitespace, a core that
    neither starts nor ends with whitespace, and its trailing whitespace. *)
Lemma split_text_spec text :
  no_newline text ->
  exists prespace core postspace,
    split_text text = Ok (prespace, core, postspace)
    /\ text_split text prespace core postspace.
Proof.
  intros Hs. unfold split_text, text_split.
  destruct (str_isspace text) eqn:Esp.
  - exists 0%nat, text, 0%nat. repeat split; discriminate.
  - unfold split_text_match.
    destruct (span isspace text) as [pre r] eqn:Espan.
    apply span_spec in Espan as (Htext & Hpre & Hfirst).
    assert (no_newline r) as Hr.
    { rewrite Htext in Hs. now apply no_newline_app in Hs. }
    destruct (lazy_core_spec r Hr) as (core & post & Hl & Hsplit & Hpost & Hlast).
    rewrite Hl. exists (Str.length pre), core, (Str.length post).
    split; [reflexivity|]. split; [discriminate|]. intros _.
    exists pre, post. repeat split; try assumption.
    + now rewrite Htext, Hsplit.
    + unfold trimmed. rewrite Hsplit, first_char_app in Hfirst.
      destruct (first_char core) as [a|]; [|exact I].
      destruct (last_char core) as [b|]; [|exact I].
      split; [exact Hfirst | exact Hlast].
Qed.

(** ** Syllables of one chunk *)

Lemma finish_hiddens_spec fx ps :
  Forall2 hidden_of ps (fst (finish_hiddens fx ps)).
Proof.
  revert fx; induction ps as [|p ps IH]; intros fx; simpl; [constructor|].
  unfold finish_hidden.
  destruct (get_text_extents (Provisional.styleref p) "") as [w h].
  specialize (IH (update_inline_fx fx (Provisional.tags p))).
  destruct (finish_hiddens _ ps) as [ss fx']. simpl in *.
  constructor; [|exact IH]. repeat split.
Qed.

Lemma finish_hiddens_pos fx ps :
  Forall (fun x => Syllable.pos x = None) (fst (finish_hiddens fx ps)).
Proof.
  revert fx; induction ps as [|p ps IH]; intros fx; simpl; [constructor|].
  unfold finish_hidden.
  destruct (get_text_extents (Provisional.styleref p) "") as [w h].
  specialize (IH (update_inline_fx fx (Provisional.tags p))).
  destruct (finish_hiddens _ ps) as [ss fx']. simpl in *.
  constructor; [reflexivity | exact IH].
Qed.

Lemma finish_last_spec fx leftover text p :
  no_newline text ->
  exists l fx',
    finish_last fx leftover text p = Ok (l, fx')
    /\ last_of p leftover text l
    /\ Syllable.pos l = None.
Proof.
  intros Ht. unfold finish_last.
  destruct (split_text_spec text Ht) as (pre & core & post & -> & Hsplit).
  simpl. destruct (get_text_extents (Provisional.styleref p) core) as [w h].
  eexists _, _. split; [reflexivity|]. split; [|reflexivity].
  split; [repeat split | split; [reflexivity | exact Hsplit]].
Qed.

Lemma ktag_cut_eq s :
  ktag_cut s =
  match syl_tags_match s with
  | Some (pretags, _, posttags) =>
      let (pres, leftover) := ktag_cut posttags in (pretags :: pres, leftover)
  | None => ([], s)
  end.
Proof.
  rewrite ktag_cut_equation_1.
  destruct (inspect (syl_tags_match s)) as [[[[pre d] post]|] e];
    unfold ktag_cut_unfold_clause_1; rewrite e; reflexivity.
Qed.

(** The tags of the provisional syllables are the [pretags] of the
    successive matches, and the remainder is what no match is found in. *)
Lemma peel_tags wi st posttags :
  forall acc si t l leftover si' t',
    peel (Some wi) st posttags acc si t = Ok (l, leftover, si', t') ->
    exists provs,
      l = (acc ++ provs)%list
      /\ ktag_cut posttags = (map (@Provisional.tags R) provs, leftover).
Proof.
  induction posttags as [s IH] using string_length_ind.
  intros acc si t l leftover si' t'. rewrite peel_eq, ktag_cut_eq.
  destruct (syl_tags_match s) as [[[pre d] rest]|] eqn:E.
  - cbv zeta. intros H.
    destruct (IH rest (syl_tags_match_shorter _ _ _ _ E) _ _ _ _ _ _ _ H)
      as (provs & -> & Hcut).
    exists (Provisional.mk t (t + int_of_digits d * 10)
              (int_of_digits d * 10) st pre si wi :: provs).
    split; [now rewrite <- app_assoc|]. now rewrite Hcut.
  - intros [= <- <- _ _]. exists []. split; [now rewrite app_nil_r|].
    reflexivity.
Qed.

Lemma clock_nonempty t ds l :
  clock t ds = l -> ds <> [] -> l <> [].
Proof. destruct ds; simpl; [congruence|]. intros <- _. discriminate. Qed.

(** Lines 862-939 on a chunk with a word index whose tags hold a karaoke tag
    and whose tags and text hold no newline. *)
Lemma chunk_syls_spec st tc s wi :
  TextChunk.word_i tc = Some wi ->
  no_newline (TextChunk.tags tc) ->
  no_newline (TextChunk.text tc) ->
  count_ktags (TextChunk.tags tc) <> 0%nat ->
  exists g fx,
    chunk_syls st tc s
    = Ok (g, mkSylState (si s + count_ktags (TextChunk.tags tc))%nat
               (last_time s
                + sum_Z (ktag_durations (TextChunk.tags tc)) * 10) fx)
    /\ chunk_group tc g
    /\ map syl_timing g
       = clock (last_time s) (ktag_durations (TextChunk.tags tc))
    /\ Forall (fun x => Syllable.pos x = None) g.
Proof.
  intros Hwi Htags Htext Hcount.
  destruct (peel_spec wi st (TextChunk.tags tc) Htags [] (si s) (last_time s))
    as (provs & leftover & Hp & Hclock & Hall & _ & Hleft & Hnl & Hlast).
  simpl in Hp.
  assert (List.length provs = count_ktags (TextChunk.tags tc)) as Hlen.
  { unfold count_ktags. rewrite <- (clock_length (last_time s)), <- Hclock.
    now rewrite length_map. }
  destruct (exists_last (l := provs)) as (before & p & ->).
  { intros ->. simpl in Hlen. congruence. }
  rewrite rev_app_distr in Hlast. simpl in Hlast.
  destruct Hlast as (u & v & d & Hdec & Hv).
  pose proof (finish_hiddens_spec (inline_fx s) before) as Hhid.
  pose proof (finish_hiddens_pos (inline_fx s) before) as Hhpos.
  destruct (finish_last_spec
              (snd (finish_hiddens (inline_fx s) before)) leftover
              (TextChunk.text tc) p Htext) as (l & fx & Hfl & Hl & Hlpos).
  exists (fst (finish_hiddens (inline_fx s) before) ++ [l])%list, fx.
  rewrite Hlen in Hp.
  assert (Forall2 same_head (before ++ [p])
            (fst (finish_hiddens (inline_fx s) before) ++ [l])) as Hheads.
  { apply Forall2_app.
    - eapply Forall2_impl; [|exact Hhid]. intros a b Hab. apply Hab.
    - constructor; [apply Hl | constructor]. }
  split; [|split; [|split]].
  - unfold chunk_syls. rewrite Hwi, Hp. simpl.
    rewrite rev_app_distr. simpl. rewrite rev_involutive.
    destruct (finish_hiddens (inline_fx s) before) as [hidden fx0].
    simpl in *. rewrite Hfl. reflexivity.
  - split; [|split].
    + rewrite <- Hlen. symmetry. exact (Forall2_length Hheads).
    + rewrite Hwi. clear - Hheads Hall.
      induction Hheads as [|a b la lb Hab _ IH]; [constructor|].
      apply Forall_cons_iff in Hall as [[Ha _] Hall'].
      constructor; [|exact (IH Hall')].
      destruct Hab as (_ & -> & _). now rewrite Ha.
    + exists (fst (finish_hiddens (inline_fx s) before)), l.
      split; [reflexivity|]. split.
      * clear - Hhid. induction Hhid as [|a b la lb Hab _ IH]; constructor.
        -- destruct Hab as (_ & _ & ? & ? & ?). auto.
        -- exact IH.
      * split; [apply Hl|].
        exists (map (@Provisional.tags R) before), (Provisional.tags p),
          leftover.
        destruct (peel_tags _ _ _ _ _ _ _ _ _ _ Hp) as (provs & Hprovs & Hcut).
        simpl in Hprovs. subst provs. rewrite map_app in Hcut.
        split; [exact Hcut|]. split.
        -- clear - Hhid. induction Hhid as [|a b la lb Hab _ IH];
             [reflexivity|].
           simpl. rewrite IH. f_equal. apply Hab.
        -- split; [apply Hl|]. exists u, v, d.
           split; [exact Hdec|]. split; [exact Hv|].
           now apply syl_tags_match_count.
  - rewrite <- Hclock. clear - Hheads.
    induction Hheads as [|a b la lb Hab _ IH]; simpl; [reflexivity|].
    rewrite IH. f_equal. unfold syl_timing.
    destruct Hab as (_ & _ & -> & -> & -> & _). reflexivity.
  - apply Forall_app. split; [exact Hhpos|]. constructor; [exact Hlpos|constructor].
Qed.

(** ** Tag chunks: what [text_chunks] builds *)

Lemma tag_groups_split s :
  s = (fst (tag_groups s) ++ snd (tag_groups s))%str.
Proof.
  induction s as [s IH] using string_length_ind.
  rewrite tag_groups_eq.
  destruct (tag_group s) as [[body rest]|] eqn:E; [|reflexivity].
  specialize (IH rest (tag_group_shorter _ _ _ E)).
  destruct (tag_groups rest) as [m r]; simpl in *.
  destruct s as [|c s]; simpl in E; [discriminate|].
  destruct (N.eqb c lbrace) eqn:Ec; [|discriminate].
  apply N.eqb_eq in Ec. subst c. f_equal.
  assert (forall t b q, lazy_to_close t = Some (b, q) ->
                        t = (b ++ String rbrace q)%str) as Hclose.
  { clear. induction t as [|c t IHt]; intros b q; simpl; [discriminate|].
    destruct (N.eqb c rbrace) eqn:Ec.
    - apply N.eqb_eq in Ec. subst c. now intros [= <- <-].
    - destruct (dot c); [|discriminate].
      destruct (lazy_to_close t) as [[b' q']|]; [|discriminate].
      intros [= <- <-]. simpl. now rewrite (IHt _ _ eq_refl). }
  rewrite (Hclose _ _ _ E), IH, append_assoc. reflexivity.
Qed.

Lemma tag_search_split s before m rest :
  tag_search s = Some (before, m, rest) ->
  s = (before ++ m ++ rest)%str.
Proof.
  assert (forall t m' q, tag_match t = Some (m', q) -> t = (m' ++ q)%str)
    as Hmatch.
  { intros t m' q. unfold tag_match. pose proof (tag_groups_split t) as H.
    destruct (tag_groups t) as [a b]. simpl in H.
    destruct (nonempty a); [|discriminate]. now intros [= <- <-]. }
  revert before; induction s as [|c r IH]; intros before.
  - unfold tag_search.
    destruct (tag_match "") as [[m' q]|] eqn:E; [|discriminate].
    intros [= <- <- <-]. exact (Hmatch _ _ _ E).
  - unfold tag_search; fold tag_search.
    destruct (tag_match (String c r)) as [[m' q]|] eqn:E.
    + intros [= <- <- <-]. exact (Hmatch _ _ _ E).
    + destruct (tag_search r) as [[[b m'] q]|]; [|discriminate].
      intros [= <- <- <-]. simpl. now rewrite (IH _ eq_refl).
Qed.

Lemma forall_chars_substring p s n k :
  forall_chars p s = true -> forall_chars p (Str.substring n k s) = true.
Proof.
  revert n k; induction s as [|c r IH]; intros n k H.
  - destruct n, k; reflexivity.
  - simpl in H. apply andb_prop in H as [Hc Hr].
    destruct n as [|n]; simpl.
    + destruct k as [|k]; simpl; [reflexivity|]. now rewrite Hc, IH.
    + now apply IH.
Qed.

Lemma forall_chars_remove_close_open p s :
  forall_chars p s = true -> forall_chars p (remove_close_open s) = true.
Proof.
  induction s as [s IH] using string_length_ind. intros H.
  destruct s as [|c [|d r]]; [reflexivity | exact H |].
  simpl in H. apply andb_prop in H as [Hc H].
  pose proof H as Hdr. simpl in H. apply andb_prop in H as [Hd Hr].
  unfold remove_close_open; fold remove_close_open.
  destruct (N.eqb c rbrace && N.eqb d lbrace).
  - apply IH; [simpl; lia | exact Hr].
  - change (p c && forall_chars p (remove_close_open (String d r)) = true).
    rewrite Hc. apply IH; [simpl; lia | exact Hdr].
Qed.

Lemma no_newline_tags_of_match m :
  no_newline m -> no_newline (tags_of_match m).
Proof.
  intros H. apply forall_chars_remove_close_open.
  now apply forall_chars_substring.
Qed.

Lemma last_char_all p s :
  forall_chars p s = true ->
  match last_char s with
  | Some c => p c = true
  | None => s = ""
  end.
Proof.
  induction s as [|c r IH]; [reflexivity|].
  intros H. simpl in H. apply andb_prop in H as [Hc Hr].
  rewrite last_char_cons. destruct r as [|d r]; [exact Hc|].
  specialize (IH Hr). destruct (last_char (String d r)); [exact IH|].
  discriminate IH.
Qed.

(** On a text without newline the test of line 842 says whether the text
    ends in whitespace. *)
Lemma trailing_space_match_spec t :
  no_newline t -> trailing_space_match t = ends_in_space t.
Proof.
  induction t as [|c r IH]; intros Ht; [reflexivity|].
  unfold no_newline in Ht. simpl in Ht. apply andb_prop in Ht as [Hc Hr].
  unfold trailing_space_match; fold trailing_space_match.
  unfold ends_in_space. rewrite last_char_cons.
  destruct (str_isspace (String c r)) eqn:E.
  - unfold str_isspace in E. simpl in E. apply andb_prop in E as [Ec Er].
    destruct r as [|d r]; [now rewrite Ec|].
    pose proof (last_char_all isspace _ Er) as H.
    destruct (last_char (String d r)); [now rewrite H | discriminate H].
  - rewrite Hc, (IH Hr). unfold ends_in_space.
    destruct r as [|d r]; [|reflexivity].
    unfold str_isspace in E. simpl in E. rewrite andb_true_r in E.
    now rewrite E.
Qed.

Lemma chunk_loop_spec after :
  no_newline after ->
  forall m wi,
    no_newline m ->
    Forall chunk_ok (chunk_loop m after wi)
    /\ map TextChunk.word_i (chunk_loop m after wi)
       = map Some
           (word_index_rule wi (map TextChunk.text (chunk_loop m after wi))).
Proof.
  induction after as [after IH] using string_length_ind.
  intros Ha m wi Hm. rewrite chunk_loop_eq.
  destruct (tag_search after) as [[[before nm] na]|] eqn:E.
  - pose proof (tag_search_split _ _ _ _ E) as Hsplit.
    rewrite Hsplit in Ha. apply no_newline_app in Ha as [Hb Ha].
    apply no_newline_app in Ha as [Hnm Hna].
    destruct (IH na (tag_search_shorter _ _ _ _ E) Hna nm
                (if trailing_space_match before then S wi else wi) Hnm)
      as [Hok Hidx].
    split.
    + constructor; [|exact Hok].
      repeat split; simpl;
        try assumption; try discriminate; now apply no_newline_tags_of_match.
    + simpl. rewrite Hidx, (trailing_space_match_spec _ Hb). reflexivity.
  - split; [|reflexivity].
    constructor; [|constructor].
    repeat split; simpl;
      try assumption; try discriminate; now apply no_newline_tags_of_match.
Qed.

(** The chunks of a raw text without newline: at most one chunk without word
    index, which comes first and has no tags, then the chunks of the tag
    runs, whose word index follows the rule. *)
Lemma text_chunks_spec raw :
  no_newline raw ->
  Forall chunk_ok (text_chunks raw)
  /\ exists leading tagged,
       text_chunks raw = (leading ++ tagged)%list
       /\ (leading = []
           \/ exists t, leading = [TextChunk.mk "" t None])
       /\ map TextChunk.word_i tagged
          = map Some (word_index_rule 0 (map TextChunk.text tagged)).
Proof.
  intros Hraw. unfold text_chunks.
  destruct (tag_search raw) as [[[before m] after]|] eqn:E.
  - pose proof (tag_search_split _ _ _ _ E) as Hsplit.
    rewrite Hsplit in Hraw. apply no_newline_app in Hraw as [Hb Hraw].
    apply no_newline_app in Hraw as [Hm Ha].
    destruct (chunk_loop_spec after Ha m 0%nat Hm) as [Hok Hidx].
    split.
    + apply Forall_app. split; [|exact Hok].
      destruct (nonempty before); [|constructor].
      constructor; [|constructor].
      repeat split; simpl; try assumption; reflexivity.
    + exists (if nonempty before then [TextChunk.mk "" before None] else []),
             (chunk_loop m after 0).
      split; [reflexivity|]. split; [|exact Hidx].
      destruct (nonempty before); [right; now exists before | now left].
  - split.
    + constructor; [|constructor].
      repeat split; simpl; try assumption; reflexivity.
    + exists [TextChunk.mk "" raw None], [].
      split; [reflexivity|]. split; [right; now exists raw | reflexivity].
Qed.

(** ** Syllables of a line *)

Lemma clock_app t ds1 ds2 :
  clock t (ds1 ++ ds2)
  = (clock t ds1 ++ clock (t + sum_Z ds1 * 10) ds2)%list.
Proof.
  revert t; induction ds1 as [|d ds1 IH]; intros t; simpl.
  - now rewrite Z.add_0_r.
  - rewrite IH. do 3 f_equal. lia.
Qed.

(** The loop of lines 856-939 over chunks as [text_chunks] builds them. *)
Lemma add_syls_loop_spec st tcs :
  Forall chunk_ok tcs ->
  forall s acc,
  exists syls,
    add_syls_loop st tcs s acc = Ok syls
    /\ ((exists tc, In tc tcs /\ count_ktags (TextChunk.tags tc) = 0%nat) ->
        syls = [])
    /\ ((forall tc, In tc tcs -> count_ktags (TextChunk.tags tc) <> 0%nat) ->
        exists groups,
          syls = (acc ++ List.concat groups)%list
          /\ Forall2 chunk_group tcs groups
          /\ map syl_timing (List.concat groups)
             = clock (last_time s)
                 (List.concat (map (fun tc => ktag_durations (TextChunk.tags tc))
                            tcs))
          /\ Forall (fun x => Syllable.pos x = None) (List.concat groups)).
Proof.
  induction 1 as [|tc tcs Htc Htcs IH]; intros s acc.
  - exists acc. split; [reflexivity|]. split.
    + intros (tc & [] & _).
    + intros _. exists []. simpl. rewrite app_nil_r.
      repeat split; constructor.
  - destruct Htc as (Htags & Htext & Hnone). simpl.
    destruct (syl_tags_match (TextChunk.tags tc)) as [m|] eqn:E.
    + assert (count_ktags (TextChunk.tags tc) <> 0%nat) as Hcount.
      { intros H. apply syl_tags_match_count in H; [congruence | exact Htags]. }
      destruct (TextChunk.word_i tc) as [wi|] eqn:Ewi.
      2:{ rewrite (Hnone eq_refl) in Hcount. now elim Hcount. }
      destruct (chunk_syls_spec st tc s wi Ewi Htags Htext Hcount)
        as (g & fx & Hg & Hgroup & Htiming & Hpos).
      rewrite Hg. simpl.
      destruct (IH (mkSylState (si s + count_ktags (TextChunk.tags tc))
                      (last_time s
                       + sum_Z (ktag_durations (TextChunk.tags tc)) * 10) fx)
                   (acc ++ g)%list)
        as (syls & Hsyls & Hempty & Hfull).
      exists syls. split; [exact Hsyls|]. split.
      * intros (tc' & [<-|Hin] & H0); [contradiction|].
        apply Hempty. now exists tc'.
      * intros Hall.
        destruct Hfull as (groups & -> & Hgroups & Hclock & Hposs).
        { intros tc' Hin. apply Hall. now right. }
        exists (g :: groups). simpl. rewrite app_assoc.
        split; [reflexivity|]. split; [now constructor|]. split.
        -- rewrite map_app, clock_app, Htiming. f_equal. exact Hclock.
        -- apply Forall_app. now split.
    + exists []. split; [reflexivity|]. split; [reflexivity|].
      intros Hall. exfalso. apply (Hall tc); [now left|].
      now apply syl_tags_match_count.
Qed.

(** ** Placement keeps everything but the positional attributes *)

Lemma walk_words_clear a lp sw ss cur_x ws :
  map Word.clear_pos (walk_words a lp sw ss cur_x ws)
  = map Word.clear_pos ws.
Proof.
  revert cur_x; induction ws as [|w ws IH]; intros cur_x; simpl;
    [reflexivity|]. now rewrite IH.
Qed.

Lemma stack_words_clear meta a lp mw cur_y ws :
  map Word.clear_pos (stack_words meta a lp mw cur_y ws)
  = map Word.clear_pos ws.
Proof.
  revert cur_y; induction ws as [|w ws IH]; intros cur_y; simpl;
    [reflexivity|]. now rewrite IH.
Qed.

Lemma position_words_clear meta a lp sw ss ws :
  map Word.clear_pos (position_words meta a lp sw ss ws)
  = map Word.clear_pos ws.
Proof.
  unfold position_words. destruct (_ || _); [apply walk_words_clear|].
  destruct (stack_extent _) as [mw sh]. apply stack_words_clear.
Qed.

Lemma walk_syls_clear a lp sw ss cur_x syls :
  map Syllable.clear_pos (walk_syls a lp sw ss cur_x syls)
  = map Syllable.clear_pos syls.
Proof.
  revert cur_x; induction syls as [|x syls IH]; intros cur_x; simpl;
    [reflexivity|]. now rewrite IH.
Qed.

Lemma stack_syls_clear a lp mw cur_y syls :
  map Syllable.clear_pos (stack_syls a lp mw cur_y syls)
  = map Syllable.clear_pos syls.
Proof.
  revert cur_y; induction syls as [|x syls IH]; intros cur_y; simpl;
    [reflexivity|]. now rewrite IH.
Qed.

Lemma position_syls_clear meta vk a w h lp sw ss syls :
  map Syllable.clear_pos
    (snd (position_syls meta vk a w h lp sw ss syls))
  = map Syllable.clear_pos syls.
Proof.
  unfold position_syls. destruct (_ || _); [apply walk_syls_clear|].
  destruct (stack_extent _) as [mw sh]. apply stack_syls_clear.
Qed.

Lemma walk_chars_clear a lp ss cur_x cs :
  map Char.clear_pos (walk_chars a lp ss cur_x cs) = map Char.clear_pos cs.
Proof.
  revert cur_x; induction cs as [|c cs IH]; intros cur_x; simpl;
    [reflexivity|]. now rewrite IH.
Qed.

Lemma stack_chars_clear meta a lp mw cur_y cs :
  map Char.clear_pos (stack_chars meta a lp mw cur_y cs)
  = map Char.clear_pos cs.
Proof.
  revert cur_y; induction cs as [|c cs IH]; intros cur_y; simpl;
    [reflexivity|]. now rewrite IH.
Qed.

Lemma position_chars_clear meta a lp ss cs :
  map Char.clear_pos (position_chars meta a lp ss cs) = map Char.clear_pos cs.
Proof.
  unfold position_chars. destruct (_ || _); [apply walk_chars_clear|].
  destruct (stack_extent _) as [mw sh]. apply stack_chars_clear.
Qed.

Lemma clear_pos_id_syls (l : list (Syllable.t R)) :
  Forall (fun x => Syllable.pos x = None) l -> map Syllable.clear_pos l = l.
Proof.
  induction 1 as [|x l Hx _ IH]; simpl; [reflexivity|]. rewrite IH. f_equal.
  destruct x. simpl in Hx. subst. reflexivity.
Qed.

Lemma place_words_clear meta a lpos sw ss ws :
  map Word.clear_pos (place_words meta a lpos sw ss ws)
  = map Word.clear_pos ws.
Proof.
  unfold place_words. destruct ws as [|w ws]; [reflexivity|].
  destruct lpos as [lp|]; [apply position_words_clear | reflexivity].
Qed.

Lemma place_syls_clear meta vk a w h lpos sw ss syls :
  map Syllable.clear_pos (snd (place_syls meta vk a w h lpos sw ss syls))
  = map Syllable.clear_pos syls.
Proof.
  unfold place_syls. destruct syls as [|x syls]; [reflexivity|].
  destruct lpos as [lp|]; [|reflexivity].
  pose proof (position_syls_clear meta vk a w h lp sw ss (x :: syls)) as H.
  destruct (position_syls meta vk a w h lp sw ss (x :: syls))
    as [[[w' h'] lp'] syls']. exact H.
Qed.

Lemma place_chars_clear meta a lpos ss cs :
  map Char.clear_pos (place_chars meta a lpos ss cs) = map Char.clear_pos cs.
Proof.
  unfold place_chars. destruct cs as [|c cs]; [reflexivity|].
  destruct lpos as [lp|]; [apply position_chars_clear | reflexivity].
Qed.

Lemma map_concat_split {A B : Type} (f : A -> B) (l : list A)
    (gs0 : list (list B)) :
  map f l = List.concat gs0 ->
  exists gs, l = List.concat gs /\ map (map f) gs = gs0.
Proof.
  revert l; induction gs0 as [|g0 gs0 IH]; intros l H; simpl in H.
  - apply map_eq_nil in H. subst l. now exists [].
  - apply map_eq_app in H as (l1 & l2 & -> & H1 & H2).
    destruct (IH l2 H2) as (gs & -> & Hgs).
    exists (l1 :: gs). simpl. now rewrite H1, Hgs.
Qed.

Lemma chunk_group_clear tc (g : list (Syllable.t R)) :
  chunk_group tc (map Syllable.clear_pos g) -> chunk_group tc g.
Proof.
  intros (Hlen & Hwi & hidden0 & l0 & Hg & Hhid & Hsplit
          & pres & pretags & leftover & Hcut & Hpres & Htags & Hdec).
  rewrite length_map in Hlen. split; [exact Hlen|]. split.
  - rewrite Forall_map in Hwi. eapply Forall_impl; [|exact Hwi].
    intros x Hx. destruct x; exact Hx.
  - apply map_eq_app in Hg as (hidden & ll & -> & Hh & Hl).
    destruct ll as [|l [|]]; try discriminate. injection Hl as Hl.
    exists hidden, l. split; [reflexivity|]. subst hidden0 l0. split.
    + rewrite Forall_map in Hhid. eapply Forall_impl; [|exact Hhid].
      intros x Hx. destruct x; exact Hx.
    + split; [destruct l; exact Hsplit|].
      exists pres, pretags, leftover. split; [exact Hcut|]. split.
      * rewrite <- Hpres, map_map. apply map_ext.
        intros x. destruct x; reflexivity.
      * split; [destruct l; exact Htags | exact Hdec].
Qed.

(** The syllables of a line with a resolved style and a raw text without
    newline: the computation returns; [line.syls] is empty when a chunk has
    no karaoke tag, and otherwise made of one group for each chunk, timed by
    one clock that starts at 0. *)
Lemma extend_line_syls meta vk styles line st :
  styles (Line.style line) = Some st ->
  no_newline (Line.raw_text line) ->
  exists line' syls,
    extend_line meta vk styles line = Ok line'
    /\ Line.syls line' = Some syls
    /\ ((exists tc, In tc (text_chunks (Line.raw_text line))
                    /\ count_ktags (TextChunk.tags tc) = 0%nat) ->
        syls = [])
    /\ ((forall tc, In tc (text_chunks (Line.raw_text line)) ->
                    count_ktags (TextChunk.tags tc) <> 0%nat) ->
        exists groups,
          syls = List.concat groups
          /\ Forall2 chunk_group (text_chunks (Line.raw_text line)) groups
          /\ map syl_timing syls
             = clock 0
                 (List.concat
                    (map (fun tc => ktag_durations (TextChunk.tags tc))
                       (text_chunks (Line.raw_text line))))).
Proof.
  intros Hst Hraw.
  destruct (text_chunks_spec _ Hraw) as [Hok _].
  destruct (add_syls_loop_spec st _ Hok (mkSylState 0%nat 0 "") [])
    as (syls0 & Hsyls0 & Hempty & Hfull).
  unfold extend_line. rewrite Hst. unfold add_syls. rewrite Hsyls0. simpl.
  set (w := fst (get_text_extents st (strip_tags (Line.raw_text line)))).
  set (h := snd (get_text_extents st (strip_tags (Line.raw_text line)))).
  set (lpos := line_pos meta line st w h).
  set (sw := fst (get_text_extents st " ")).
  pose proof (place_syls_clear meta vk (Style.alignment st) w h lpos sw
                (Style.spacing st) syls0) as Hclear.
  destruct (place_syls meta vk (Style.alignment st) w h lpos sw
              (Style.spacing st) syls0) as [[[w' h'] lpos'] syls].
  simpl in Hclear. eexists. exists syls.
  split; [reflexivity|]. split; [reflexivity|]. split.
  - intros H. rewrite (Hempty H) in Hclear. now apply map_eq_nil in Hclear.
  - intros H. destruct (Hfull H) as (groups0 & -> & Hgroups & Hclock & Hpos).
    simpl in Hclear. rewrite (clear_pos_id_syls _ Hpos) in Hclear.
    destruct (map_concat_split _ _ _ Hclear) as (groups & -> & Hmap).
    exists groups. split; [reflexivity|]. split.
    + subst groups0. clear - Hgroups.
      remember (text_chunks (Line.raw_text line)) as tcs eqn:E. clear E.
      revert tcs Hgroups. induction groups as [|g groups IH]; intros tcs H;
        inversion H; subst; constructor.
      * now apply chunk_group_clear.
      * now apply IH.
    + simpl in Hclock. rewrite <- Hclock, <- Hclear, map_map.
      apply map_ext. intros x. destruct x; reflexivity.
Qed.

Lemma chunk_groups_length tcs (groups : list (list (Syllable.t R))) :
  Forall2 chunk_group tcs groups ->
  List.length (List.concat groups)
  = list_sum (map (fun tc => count_ktags (TextChunk.tags tc)) tcs).
Proof.
  induction 1 as [|tc g tcs groups Hg _ IH]; simpl; [reflexivity|].
  rewrite length_app, IH. destruct Hg as [-> _]. reflexivity.
Qed.

(** C1. A line with a resolved style (and a raw text that, coming from one
    line of the file, holds no newline) is processed without exception, and
    its [syls] is empty as soon as one of its tag chunks has a tag string
    without karaoke duration tag; when every chunk has one, [syls] holds one
    syllable for each karaoke duration tag of each chunk, never fewer. *)
Theorem C1_syls_empty_or_complete meta vertical_kanji styles line st :
  styles (Line.style line) = Some st ->
  no_newline (Line.raw_text line) ->
  exists line' syls,
    extend_line meta vertical_kanji styles line = Ok line'
    /\ Line.syls line' = Some syls
    /\ ((exists tc, In tc (text_chunks (Line.raw_text line))
                    /\ count_ktags (TextChunk.tags tc) = 0%nat) ->
        syls = [])
    /\ ((forall tc, In tc (text_chunks (Line.raw_text line)) ->
                    count_ktags (TextChunk.tags tc) <> 0%nat) ->
        List.length syls
        = list_sum (map (fun tc => count_ktags (TextChunk.tags tc))
                      (text_chunks (Line.raw_text line)))).
Proof.
  intros Hst Hraw.
  destruct (extend_line_syls meta vertical_kanji styles line st Hst Hraw)
    as (line' & syls & Hline & Hsyls & Hempty & Hfull).
  exists line', syls. repeat split; try assumption.
  intros H. destruct (Hfull H) as (groups & -> & Hgroups & _).
  now apply chunk_groups_length.
Qed.

Lemma clock_chain t ds k a b :
  nth_error (clock t ds) k = Some a ->
  nth_error (clock t ds) (S k) = Some b ->
  fst (fst b) = snd (fst a).
Proof.
  revert t k; induction ds as [|d ds IH]; intros t k; simpl.
  - destruct k; discriminate.
  - destruct k as [|k]; simpl.
    + intros [= <-]. destruct ds as [|d' ds]; simpl; [discriminate|].
      now intros [= <-].
    + apply IH.
Qed.

Lemma clock_sum t ds :
  sum_Z (map snd (clock t ds)) = 10 * sum_Z ds.
Proof.
  revert t; induction ds as [|d ds IH]; intros t; [reflexivity|].
  change (d * 10 + sum_Z (map snd (clock (t + d * 10) ds))
          = 10 * (d + sum_Z ds)).
  rewrite IH. lia.
Qed.

Lemma clock_ends t ds :
  Forall2 (fun c d => snd (fst c) = fst (fst c) + d * 10 /\ snd c = d * 10)
    (clock t ds) ds.
Proof.
  revert t; induction ds as [|d ds IH]; intros t; simpl; constructor.
  - split; reflexivity.
  - apply IH.
Qed.

Lemma text_chunks_nonempty raw : text_chunks raw <> [].
Proof.
  unfold text_chunks.
  destruct (tag_search raw) as [[[before m] after]|]; [|discriminate].
  rewrite chunk_loop_eq.
  destruct (tag_search after) as [[[b nm] na]|];
    destruct (nonempty before); discriminate.
Qed.

(** C2. In a line in which every tag chunk holds a karaoke duration tag the
    syllables follow one clock that starts at 0: (start_time, end_time,
    duration) of the syllables are the steps of the clock through the
    duration values of the karaoke tags, so that the first syllable starts
    at 0, every syllable ends at its start plus ten times the value of its
    tag, every later syllable starts where the one before it ends, and the
    durations add up to ten times the sum of the values, whatever the start
    and end times of the line are. *)
Theorem C2_running_clock meta vertical_kanji styles line st :
  styles (Line.style line) = Some st ->
  no_newline (Line.raw_text line) ->
  (forall tc, In tc (text_chunks (Line.raw_text line)) ->
              count_ktags (TextChunk.tags tc) <> 0%nat) ->
  exists line' syls,
    extend_line meta vertical_kanji styles line = Ok line'
    /\ Line.syls line' = Some syls
    /\ let ds :=
         List.concat (map (fun tc => ktag_durations (TextChunk.tags tc))
                        (text_chunks (Line.raw_text line))) in
       map syl_timing syls = clock 0 ds
       /\ (exists first rest,
             syls = first :: rest /\ Syllable.start_time first = 0)
       /\ Forall2 (fun s d =>
                     Syllable.end_time s = Syllable.start_time s + d * 10
                     /\ Syllable.duration s = d * 10) syls ds
       /\ (forall k s1 s2,
             nth_error syls k = Some s1 ->
             nth_error syls (S k) = Some s2 ->
             Syllable.start_time s2 = Syllable.end_time s1)
       /\ sum_Z (map (@Syllable.duration R) syls) = 10 * sum_Z ds.
Proof.
  intros Hst Hraw Hall.
  destruct (extend_line_syls meta vertical_kanji styles line st Hst Hraw)
    as (line' & syls & Hline & Hsyls & _ & Hfull).
  destruct (Hfull Hall) as (groups & _ & _ & Hclock).
  exists line', syls. split; [exact Hline|]. split; [exact Hsyls|].
  cbv zeta. set (ds := List.concat _) in *.
  split; [exact Hclock|]. split; [|split; [|split]].
  - destruct syls as [|first rest].
    + exfalso. symmetry in Hclock. simpl in Hclock.
      apply (clock_nonempty _ _ _ Hclock); [|reflexivity].
      subst ds. pose proof (text_chunks_nonempty (Line.raw_text line)) as Hne.
      destruct (text_chunks (Line.raw_text line)) as [|tc tcs];
        [now elim Hne|].
      simpl. specialize (Hall tc (or_introl eq_refl)).
      unfold count_ktags in Hall.
      destruct (ktag_durations (TextChunk.tags tc)); [now elim Hall|].
      discriminate.
    + exists first, rest. split; [reflexivity|].
      destruct ds as [|d ds']; simpl in Hclock; [discriminate|].
      now injection Hclock as -> _ _ _.
  - pose proof (clock_ends 0 ds) as H. rewrite <- Hclock in H.
    clear - H. remember ds as l eqn:E. clear E.
    revert l H. induction syls as [|s syls IH]; intros l H;
      inversion H; subst; constructor.
    + assumption.
    + now apply IH.
  - intros k s1 s2 H1 H2.
    apply (map_nth_error syl_timing) in H1, H2. rewrite Hclock in H1, H2.
    exact (clock_chain _ _ _ _ _ H1 H2).
  - rewrite <- (clock_sum 0 ds), <- Hclock, map_map. reflexivity.
Qed.

(** C3. In a line in which every tag chunk holds a karaoke duration tag,
    [syls] is made of one group of syllables for each chunk, in order. A
    chunk with n karaoke tags gives n syllables; the first n-1 are hidden
    syllables, with an empty text and zero prespace and postspace, whose tags
    are the texts the pattern of line 853 finds before the first n-1 karaoke
    tags; the last one has as tags the text found before the last karaoke
    tag followed by the remainder, which is what follows that tag and holds
    no karaoke tag (line 891), and carries the text of the chunk: whole, with
    zero prespace and postspace, when it is whitespace only, and otherwise as
    the count of its leading whitespace, its core and the count of its
    trailing whitespace. *)
Theorem C3_hidden_and_last_syllable meta vertical_kanji styles line st :
  styles (Line.style line) = Some st ->
  no_newline (Line.raw_text line) ->
  (forall tc, In tc (text_chunks (Line.raw_text line)) ->
              count_ktags (TextChunk.tags tc) <> 0%nat) ->
  exists line' groups,
    extend_line meta vertical_kanji styles line = Ok line'
    /\ Line.syls line' = Some (List.concat groups)
    /\ Forall2
         (fun tc g =>
            exists hidden l,
              g = (hidden ++ [l])%list
              /\ S (List.length hidden) = count_ktags (TextChunk.tags tc)
              /\ Forall (fun h => Syllable.text h = ""
                                  /\ Syllable.prespace h = 0%nat
                                  /\ Syllable.postspace h = 0%nat) hidden
              /\ text_split (TextChunk.text tc) (Syllable.prespace l)
                   (Syllable.text l) (Syllable.postspace l)
              /\ exists pres pretags leftover,
                   ktag_cut (TextChunk.tags tc)
                   = ((pres ++ [pretags])%list, leftover)
                   /\ map (@Syllable.tags R) hidden = pres
                   /\ Syllable.tags l = (pretags ++ leftover)%str
                   /\ exists u v d,
                        TextChunk.tags tc = (u ++ pretags ++ v)%str
                        /\ ktag_here v = Some (d, leftover)
                        /\ count_ktags leftover = 0%nat)
         (text_chunks (Line.raw_text line)) groups.
Proof.
  intros Hst Hraw Hall.
  destruct (extend_line_syls meta vertical_kanji styles line st Hst Hraw)
    as (line' & syls & Hline & Hsyls & _ & Hfull).
  destruct (Hfull Hall) as (groups & -> & Hgroups & _).
  exists line', groups. split; [exact Hline|]. split; [exact Hsyls|].
  eapply Forall2_impl; [|exact Hgroups].
  intros tc g (Hlen & _ & hidden & l & -> & Hhid & Hsplit & Htags).
  exists hidden, l. split; [reflexivity|]. split.
  - rewrite <- Hlen, length_app. simpl. lia.
  - split; [exact Hhid|]. split; [exact Hsplit | exact Htags].
Qed.

Lemma chunks_ktags_dec (tcs : list TextChunk.t) :
  (exists tc, In tc tcs /\ count_ktags (TextChunk.tags tc) = 0%nat)
  \/ (forall tc, In tc tcs -> count_ktags (TextChunk.tags tc) <> 0%nat).
Proof.
  induction tcs as [|tc tcs [(tc' & Hin & H0)|Hall]].
  - right. intros tc [].
  - left. exists tc'. split; [now right | exact H0].
  - destruct (Nat.eq_dec (count_ktags (TextChunk.tags tc)) 0) as [H0|Hn].
    + left. exists tc. split; [now left | exact H0].
    + right. intros tc' [<-|Hin]; [exact Hn | now apply Hall].
Qed.

Lemma chunk_groups_word_i tcs (groups : list (list (Syllable.t R))) :
  Forall2 chunk_group tcs groups ->
  map (fun x => Some (Syllable.word_i x)) (List.concat groups)
  = List.concat
      (map (fun tc => repeat (TextChunk.word_i tc)
                        (count_ktags (TextChunk.tags tc))) tcs).
Proof.
  induction 1 as [|tc g tcs groups Hg _ IH]; simpl; [reflexivity|].
  rewrite map_app, IH. f_equal.
  destruct Hg as (<- & Hwi & _). clear - Hwi.
  induction Hwi as [|x g Hx _ IH]; simpl; [reflexivity|].
  now rewrite Hx, IH.
Qed.

(** C4 (as amended). In the chunks of a line, the chunks built from the tag
    runs carry an owning word index that starts at 0 and grows by one exactly
    after each of them whose text ends in whitespace; a chunk for the text
    before the first tag run, or for the whole text of a line without tags,
    comes first, has no tags and carries no word index, and does not advance
    the index. Every syllable has the word index of its chunk. In particular
    the raw text [{\k50}Hel{\k30}lo {\k40}world] gives three syllables with
    the word indices 0, 0 and 1. *)
Theorem C4_owning_word_index meta vertical_kanji styles line st :
  styles (Line.style line) = Some st ->
  no_newline (Line.raw_text line) ->
  exists leading tagged line' syls,
    text_chunks (Line.raw_text line) = (leading ++ tagged)%list
    /\ (leading = [] \/ exists t, leading = [TextChunk.mk "" t None])
    /\ map TextChunk.word_i tagged
       = map Some (word_index_rule 0 (map TextChunk.text tagged))
    /\ extend_line meta vertical_kanji styles line = Ok line'
    /\ Line.syls line' = Some syls
    /\ (syls = []
        \/ map (fun x => Some (Syllable.word_i x)) syls
           = List.concat
               (map (fun tc => repeat (TextChunk.word_i tc)
                                 (count_ktags (TextChunk.tags tc)))
                  (text_chunks (Line.raw_text line))))
    /\ (Line.raw_text line = "{\k50}Hel{\k30}lo {\k40}world" ->
        map (@Syllable.word_i R) syls = [0; 0; 1]%nat).
Proof.
  intros Hst Hraw.
  destruct (text_chunks_spec _ Hraw)
    as (_ & leading & tagged & Hchunks & Hleading & Htagged).
  destruct (extend_line_syls meta vertical_kanji styles line st Hst Hraw)
    as (line' & syls & Hline & Hsyls & Hempty & Hfull).
  exists leading, tagged, line', syls.
  do 5 (split; [assumption|]).
  assert (syls = []
          \/ map (fun x => Some (Syllable.word_i x)) syls
             = List.concat
                 (map (fun tc => repeat (TextChunk.word_i tc)
                                   (count_ktags (TextChunk.tags tc)))
                    (text_chunks (Line.raw_text line)))) as Hwi.
  { destruct (chunks_ktags_dec (text_chunks (Line.raw_text line)))
      as [H0|Hall].
    - left. now apply Hempty.
    - right. destruct (Hfull Hall) as (groups & -> & Hgroups & _).
      now apply chunk_groups_word_i. }
  split; [exact Hwi|].
  intros Heq. rewrite Heq in *.
  assert (text_chunks "{\k50}Hel{\k30}lo {\k40}world"
          = [TextChunk.mk "\k50" "Hel" (Some 0%nat);
             TextChunk.mk "\k30" "lo " (Some 0%nat);
             TextChunk.mk "\k40" "world" (Some 1%nat)]) as Hex
    by (vm_compute; reflexivity).
  rewrite Hex in *.
  destruct (Hfull ltac:(intros tc [<-|[<-|[<-|[]]]]; vm_compute; discriminate))
    as (groups & -> & Hgroups & _).
  apply chunk_groups_word_i in Hgroups.
  change (map (fun x => Some (Syllable.word_i x)) (List.concat groups)
          = map Some [0; 0; 1]%nat) in Hgroups.
  rewrite <- (map_map (@Syllable.word_i R) Some) in Hgroups.
  clear - Hgroups.
  remember (map (@Syllable.word_i R) (List.concat groups)) as l eqn:E.
  clear E. revert Hgroups. generalize [0; 0; 1]%nat as l'.
  induction l as [|x l IH]; intros [|y l'] H; try discriminate;
    [reflexivity|].
  simpl in H. injection H as -> H. f_equal. now apply IH.
Qed.

(** C5 (as amended). A line whose raw text is [Hi there], with a resolved
    style, has no syllables and exactly two words, [Hi] and [there]; word 0
    has prespace 0 and postspace 1 (the space between the words), word 1 has
    prespace 0 and postspace 0. *)
Theorem C5_hi_there meta vertical_kanji styles line st :
  styles (Line.style line) = Some st ->
  Line.raw_text line = "Hi there" ->
  exists line' w0 w1,
    extend_line meta vertical_kanji styles line = Ok line'
    /\ Line.syls line' = Some []
    /\ Line.words line' = Some [w0; w1]
    /\ Word.text w0 = "Hi" /\ Word.text w1 = "there"
    /\ Word.prespace w0 = 0%nat /\ Word.postspace w0 = 1%nat
    /\ Word.prespace w1 = 0%nat /\ Word.postspace w1 = 0%nat.
Proof.
  intros Hst Hraw. unfold extend_line. rewrite Hst, Hraw.
  assert (strip_tags "Hi there" = "Hi there") as -> by (vm_compute; reflexivity).
  assert (text_chunks "Hi there" = [TextChunk.mk "" "Hi there" None]) as ->
    by (vm_compute; reflexivity).
  unfold add_words.
  assert (find_words "Hi there" = [("", "Hi", " "); ("", "there", "")]) as ->
    by (vm_compute; reflexivity).
  cbn [add_syls add_syls_loop TextChunk.tags bind place_syls].
  change (syl_tags_match "") with (@None (str * str * str)).
  cbn [bind place_syls add_words_from].
  set (ws := place_words _ _ _ _ _ _).
  pose proof (place_words_clear meta (Style.alignment st)
    (line_pos meta line st (fst (get_text_extents st "Hi there"))
       (snd (get_text_extents st "Hi there")))
    (fst (get_text_extents st " ")) (Style.spacing st)
    (add_words_from line (Line.end_time line - Line.start_time line) st 0
       [("", "Hi", " "); ("", "there", "")])) as Hclear.
  cbn [add_words_from] in Hclear. fold ws in Hclear.
  destruct (get_text_extents st "Hi") as [wa ha].
  destruct (get_text_extents st "there") as [wb hb].
  destruct ws as [|w0 [|w1 [|w2 ws]]]; try discriminate Hclear.
  simpl in Hclear. injection Hclear as H0 H1.
  eexists. exists w0, w1. split; [reflexivity|].
  split; [reflexivity|]. split; [reflexivity|].
  destruct w0, w1. simpl in *. subst. repeat split.
Qed.

(** ** Placement: where the elements go *)

Lemma walk_words_row a lp sw ss cur_x ws :
  on_row lp (map (@Word.pos R) (walk_words a lp sw ss cur_x ws)).
Proof.
  revert cur_x; induction ws as [|w ws IH]; intros cur_x; simpl;
    constructor; [|apply IH].
  eexists. split; [reflexivity|]. repeat split.
Qed.

Lemma walk_syls_row a lp sw ss cur_x syls :
  on_row lp (map (@Syllable.pos R) (walk_syls a lp sw ss cur_x syls)).
Proof.
  revert cur_x; induction syls as [|x syls IH]; intros cur_x; simpl;
    constructor; [|apply IH].
  eexists. split; [reflexivity|]. repeat split.
Qed.

Lemma walk_chars_row a lp ss cur_x cs :
  on_row lp (map (@Char.pos R) (walk_chars a lp ss cur_x cs)).
Proof.
  revert cur_x; induction cs as [|c cs IH]; intros cur_x; simpl;
    constructor; [|apply IH].
  eexists. split; [reflexivity|]. repeat split.
Qed.

Lemma stack_words_column meta a lp mw cur_y ws :
  column cur_y
    (map (fun w => (Word.height w, Word.pos w))
       (stack_words meta a lp mw cur_y ws)).
Proof.
  revert cur_y; induction ws as [|w ws IH]; intros cur_y; simpl;
    [exact I|]. split; [|apply IH].
  eexists. split; [reflexivity|]. repeat split.
Qed.

Lemma stack_syls_column a lp mw cur_y syls :
  column cur_y
    (map (fun s => (Syllable.height s, Syllable.pos s))
       (stack_syls a lp mw cur_y syls)).
Proof.
  revert cur_y; induction syls as [|x syls IH]; intros cur_y; simpl;
    [exact I|]. split; [|apply IH].
  eexists. split; [reflexivity|]. repeat split.
Qed.

Lemma stack_chars_column meta a lp mw cur_y cs :
  column cur_y
    (map (fun c => (Char.height c, Char.pos c))
       (stack_chars meta a lp mw cur_y cs)).
Proof.
  revert cur_y; induction cs as [|c cs IH]; intros cur_y; simpl;
    [exact I|]. split; [|apply IH].
  eexists. split; [reflexivity|]. repeat split.
Qed.

Lemma on_row_set (lp : Pos.t R) l :
  on_row lp l -> Forall (fun p => p <> None) l.
Proof.
  intros H. eapply Forall_impl; [|exact H].
  intros p (q & -> & _). discriminate.
Qed.

Lemma column_set (cur_y : R) l :
  column cur_y l -> Forall (fun p => p <> None) (map snd l).
Proof.
  revert cur_y; induction l as [|[h p] l IH]; intros cur_y; simpl;
    [constructor|].
  intros [(q & -> & _) H]. constructor; [discriminate | exact (IH _ H)].
Qed.

(** The alignment is in the middle row. *)
Lemma middle_row_test a :
  (a >? 6) || (a <? 4) = false <-> 4 <= a <= 6.
Proof.
  rewrite orb_false_iff, Z.gtb_ltb, !Z.ltb_ge. lia.
Qed.

Lemma outer_row_test a :
  (a >? 6) || (a <? 4) = true <-> a < 4 \/ 6 < a.
Proof.
  rewrite orb_true_iff, Z.gtb_ltb, !Z.ltb_lt. lia.
Qed.

(** ** The line after the extended computation *)

(** The attributes of the line in terms of the blocks of the computation,
    for a resolved style and syllables [syls0] as lines 849-939 leave them. *)
Lemma extend_line_shape meta vk styles line st syls0 :
  styles (Line.style line) = Some st ->
  add_syls st (text_chunks (Line.raw_text line)) = Ok syls0 ->
  exists line',
    extend_line meta vk styles line = Ok line'
    /\ let text := strip_tags (Line.raw_text line) in
       let a := Style.alignment st in
       let w0 := fst (get_text_extents st text) in
       let h0 := snd (get_text_extents st text) in
       let lpos0 := line_pos meta line st w0 h0 in
       let sw := fst (get_text_extents st " ") in
       let ss := Style.spacing st in
       let words :=
         place_words meta a lpos0 sw ss
           (add_words line (Line.end_time line - Line.start_time line)
              st text) in
       let r := place_syls meta vk a w0 h0 lpos0 sw ss syls0 in
       Line.words line' = Some words
       /\ Line.syls line' = Some (snd r)
       /\ Line.pos line' = snd (fst r)
       /\ Line.width line' = Some (fst (fst (fst r)))
       /\ Line.height line' = Some (snd (fst (fst r)))
       /\ Line.chars line'
          = Some (place_chars meta a (snd (fst r)) ss
                    (add_chars st words (snd r))).
Proof.
  intros Hst Hsyls. unfold extend_line. rewrite Hst, Hsyls. simpl.
  destruct (place_syls _ _ _ _ _ _ _ _ _) as [[[w h] lp] syls].
  eexists. split; [reflexivity|]. simpl. repeat split.
Qed.

(** The syllables of lines 849-939 exist for a raw text without newline. *)
Lemma add_syls_returns st raw :
  no_newline raw -> exists syls0, add_syls st (text_chunks raw) = Ok syls0.
Proof.
  intros Hraw. destruct (text_chunks_spec _ Hraw) as [Hok _].
  destruct (add_syls_loop_spec st _ Hok (mkSylState 0%nat 0 "") [])
    as (syls0 & H & _).
  now exists syls0.
Qed.

Lemma place_syls_pos meta vk a w h lp sw ss syls :
  exists lp', snd (fst (place_syls meta vk a w h (Some lp) sw ss syls))
              = Some lp'.
Proof.
  unfold place_syls. destruct syls as [|x syls]; [now exists lp|].
  destruct (position_syls _ _ _ _ _ _ _ _ _) as [[[w' h'] lp'] syls'].
  now exists lp'.
Qed.

Lemma char_sizes_clear (cs cs' : list (Char.t R)) :
  map Char.clear_pos cs = map Char.clear_pos cs' ->
  char_sizes cs = char_sizes cs'.
Proof.
  revert cs'; induction cs as [|c cs IH]; intros [|c' cs'] H;
    try discriminate; [reflexivity|].
  simpl in H. injection H; intros. simpl. f_equal; [congruence | auto].
Qed.

(** C6 (as amended). In a line with a resolved style and positive
    play-resolution dimensions, for the alignments 1-3 and 7-9 every Char has
    the vertical coordinates of the line (top, middle, bottom and y); for the
    alignments 4-6 with vertical-kanji rendering enabled the Chars are
    stacked in a column of their own: the first one has its top at half the
    play-resolution height minus half the sum of the heights of the Chars,
    each one has its top where the one before it has its bottom, and its y
    in its middle. *)
Theorem C6_char_vertical_coordinates meta vertical_kanji styles line st :
  styles (Line.style line) = Some st ->
  no_newline (Line.raw_text line) ->
  positive_res meta = true ->
  exists line' lp chars,
    extend_line meta vertical_kanji styles line = Ok line'
    /\ Line.pos line' = Some lp
    /\ Line.chars line' = Some chars
    /\ (Style.alignment st < 4 \/ 6 < Style.alignment st ->
        on_row lp (map (@Char.pos R) chars))
    /\ (4 <= Style.alignment st <= 6 /\ vertical_kanji = true ->
        column
          (of_int (Meta.play_res_y meta) / two
           - snd (stack_extent (char_sizes chars)) / two)%py
          (map (fun c => (Char.height c, Char.pos c)) chars)).
Proof.
  intros Hst Hraw Hpos.
  destruct (add_syls_returns st _ Hraw) as (syls0 & Hsyls).
  destruct (extend_line_shape meta vertical_kanji styles line st syls0
              Hst Hsyls) as (line' & Hline & H).
  cbv zeta in H. destruct H as (_ & _ & Hlp & _ & _ & Hchars).
  unfold line_pos in Hlp, Hchars. rewrite Hpos in Hlp, Hchars.
  match type of Hlp with
  | _ = snd (fst (place_syls ?m ?v ?a ?w ?h (Some ?lp0) ?sw ?ss ?s)) =>
      destruct (place_syls_pos m v a w h lp0 sw ss s) as (lp & Hp)
  end.
  rewrite Hp in Hlp, Hchars.
  match type of Hchars with
  | _ = Some (place_chars _ _ _ _ ?cs0) => set (cs := cs0) in *
  end.
  exists line', lp, (place_chars meta (Style.alignment st) (Some lp)
                       (Style.spacing st) cs).
  split; [exact Hline|]. split; [exact Hlp|]. split; [exact Hchars|].
  unfold place_chars. destruct cs as [|c cs'] eqn:Ecs.
  - split; intros _; [constructor | exact I].
  - rewrite <- Ecs. unfold position_chars. split.
    + intros Ha. apply outer_row_test in Ha. rewrite Ha.
      apply walk_chars_row.
    + intros [Ha _]. apply middle_row_test in Ha. rewrite Ha.
      fold (char_sizes cs).
      destruct (stack_extent (char_sizes cs)) as [mw sh] eqn:Eext.
      rewrite (char_sizes_clear _ cs (stack_chars_clear _ _ _ _ _ _)).
      rewrite Eext. apply stack_chars_column.
Qed.

Lemma syl_stack_test a vk :
  (a >? 6) || (a <? 4) || negb vk = false <-> (4 <= a <= 6 /\ vk = true).
Proof.
  rewrite orb_false_iff, middle_row_test, negb_false_iff. reflexivity.
Qed.


(** ** Which geometry attributes are assigned *)

Lemma geometry_all_set w h (p : option (Pos.t R)) :
  p <> None -> all_set (geometry w h p).
Proof.
  intros Hp. destruct p as [q|]; [|now elim Hp].
  unfold all_set, geometry. simpl. repeat constructor; discriminate.
Qed.

Lemma geometry_only_size_set (w h : R) : only_size_set (geometry w h None).
Proof. now exists w, h. Qed.

Lemma add_words_from_pos line d st wi found :
  Forall (fun w => Word.pos w = None) (add_words_from line d st wi found).
Proof.
  revert wi; induction found as [|[[pre t] post] found IH]; intros wi; simpl;
    [constructor|].
  destruct (get_text_extents st t). constructor; [reflexivity | apply IH].
Qed.

Lemma chars_of_el_pos (build : nat -> nat -> str -> Char.t R) ci n t :
  (forall a b c, Char.pos (build a b c) = None) ->
  Forall (fun c => Char.pos c = None) (chars_of_el build ci n t).
Proof.
  intros Hb. revert ci n; induction t as [|c t IH]; intros ci n; simpl;
    constructor; [apply Hb | apply IH].
Qed.

Lemma add_chars_pos st ws syls :
  Forall (fun c => Char.pos c = None) (add_chars st ws syls).
Proof.
  assert (forall n l, Forall (fun c => Char.pos c = None)
                        (chars_of_syls st n l)) as Hs.
  { intros n l; revert n; induction l as [|el l IH]; intros n; simpl;
      [constructor|].
    apply Forall_app. split; [|apply IH].
    apply chars_of_el_pos. intros a b c. unfold char_of_syl.
    now destruct (get_text_extents st c). }
  assert (forall n l, Forall (fun c => Char.pos c = None)
                        (chars_of_words st n l)) as Hw.
  { intros n l; revert n; induction l as [|el l IH]; intros n; simpl;
      [constructor|].
    apply Forall_app. split; [|apply IH].
    apply chars_of_el_pos. intros a b c. unfold char_of_word.
    now destruct (get_text_extents st c). }
  unfold add_chars. destruct syls; [apply Hw | apply Hs].
Qed.

Lemma chunk_syls_pos st tc s g s' :
  chunk_syls st tc s = Ok (g, s') ->
  Forall (fun x => Syllable.pos x = None) g.
Proof.
  unfold chunk_syls.
  destruct (peel _ _ _ _ _ _) as [[[[provs posttags] si'] lt']|e];
    [|discriminate].
  simpl. destruct (rev provs) as [|p before]; [discriminate|].
  pose proof (finish_hiddens_pos (inline_fx s) (rev before)) as Hh.
  destruct (finish_hiddens (inline_fx s) (rev before)) as [hidden fx].
  unfold finish_last. destruct (split_text (TextChunk.text tc))
    as [[[pre core] post]|e]; [|discriminate].
  simpl. destruct (get_text_extents _ core) as [w h].
  intros [= <- <-]. apply Forall_app. split; [exact Hh|].
  constructor; [reflexivity | constructor].
Qed.

Lemma add_syls_pos st tcs syls0 :
  add_syls st tcs = Ok syls0 ->
  Forall (fun x => Syllable.pos x = None) syls0.
Proof.
  unfold add_syls.
  assert (forall s acc,
            Forall (fun x => Syllable.pos x = None) acc ->
            add_syls_loop st tcs s acc = Ok syls0 ->
            Forall (fun x => Syllable.pos x = None) syls0) as H.
  { induction tcs as [|tc tcs IH]; intros s acc Hacc; simpl.
    - now intros [= <-].
    - destruct (syl_tags_match (TextChunk.tags tc));
        [|intros [= <-]; constructor].
      destruct (chunk_syls st tc s) as [[g s']|e] eqn:E; [|discriminate].
      simpl. apply IH. apply Forall_app. split; [exact Hacc|].
      exact (chunk_syls_pos _ _ _ _ _ E). }
  apply H. constructor.
Qed.

Lemma clear_pos_id_words (l : list (Word.t R)) :
  Forall (fun x => Word.pos x = None) l -> map Word.clear_pos l = l.
Proof.
  induction 1 as [|x l Hx _ IH]; simpl; [reflexivity|]. rewrite IH. f_equal.
  destruct x. simpl in Hx. subst. reflexivity.
Qed.

Lemma clear_pos_id_chars (l : list (Char.t R)) :
  Forall (fun x => Char.pos x = None) l -> map Char.clear_pos l = l.
Proof.
  induction 1 as [|x l Hx _ IH]; simpl; [reflexivity|]. rewrite IH. f_equal.
  destruct x. simpl in Hx. subst. reflexivity.
Qed.

Lemma chars_of_el_ext (build build' : nat -> nat -> str -> Char.t R)
    ci n t :
  (forall a b c, build a b c = build' a b c) ->
  chars_of_el build ci n t = chars_of_el build' ci n t.
Proof.
  intros H. revert ci n; induction t as [|c t IH]; intros ci n; simpl;
    [reflexivity|]. now rewrite H, IH.
Qed.

(** The characters are made from attributes that placement leaves alone. *)
Lemma add_chars_clear st ws ws' syls syls' :
  map Word.clear_pos ws = map Word.clear_pos ws' ->
  map Syllable.clear_pos syls = map Syllable.clear_pos syls' ->
  add_chars st ws syls = add_chars st ws' syls'.
Proof.
  intros Hw Hs.
  assert (forall n, chars_of_syls st n syls = chars_of_syls st n syls') as Es.
  { clear Hw. revert syls' Hs. induction syls as [|x l IH];
      intros [|x' l'] Hs n; try discriminate; [reflexivity|].
    simpl in Hs. injection Hs; intros. simpl.
    assert (Syllable.prespace x = Syllable.prespace x') as -> by assumption.
    assert (Syllable.text x = Syllable.text x') as -> by assumption.
    assert (Syllable.postspace x = Syllable.postspace x') as -> by assumption.
    f_equal; [|now apply IH].
    apply chars_of_el_ext. intros a b c. unfold char_of_syl.
    destruct (get_text_extents st c). congruence. }
  assert (forall n, chars_of_words st n ws = chars_of_words st n ws') as Ew.
  { clear Hs Es. revert ws' Hw. induction ws as [|x l IH];
      intros [|x' l'] Hw n; try discriminate; [reflexivity|].
    simpl in Hw. injection Hw; intros. simpl.
    assert (Word.prespace x = Word.prespace x') as -> by assumption.
    assert (Word.text x = Word.text x') as -> by assumption.
    assert (Word.postspace x = Word.postspace x') as -> by assumption.
    f_equal; [|now apply IH].
    apply chars_of_el_ext. intros a b c. unfold char_of_word.
    destruct (get_text_extents st c). congruence. }
  unfold add_chars. destruct syls as [|x l], syls' as [|x' l'];
    try discriminate; [apply Ew | apply Es].
Qed.

Lemma Forall_of_map {A B : Type} (f : A -> B) (P : B -> Prop) (l : list A) :
  Forall P (map f l) -> Forall (fun x => P (f x)) l.
Proof. apply Forall_map. Qed.

Lemma position_words_set meta a lp sw ss ws :
  Forall (fun w => Word.pos w <> None) (position_words meta a lp sw ss ws).
Proof.
  unfold position_words. destruct (_ || _).
  - apply (Forall_of_map (@Word.pos R) (fun p => p <> None)).
    apply (on_row_set lp). apply walk_words_row.
  - destruct (stack_extent _) as [mw sh].
    apply (Forall_of_map (@Word.pos R) (fun p => p <> None)).
    pose proof (column_set _ _ (stack_words_column meta a lp mw
      (of_int (Meta.play_res_y meta) / two - sh / two)%py ws)) as H.
    now rewrite map_map in H.
Qed.

Lemma position_syls_set meta vk a w h lp sw ss syls :
  Forall (fun s => Syllable.pos s <> None)
    (snd (position_syls meta vk a w h lp sw ss syls)).
Proof.
  unfold position_syls. destruct (_ || _).
  - apply (Forall_of_map (@Syllable.pos R) (fun p => p <> None)).
    apply (on_row_set lp). apply walk_syls_row.
  - destruct (stack_extent _) as [mw sh]. cbn [snd].
    apply (Forall_of_map (@Syllable.pos R) (fun p => p <> None)).
    pose proof (column_set _ _ (stack_syls_column a
      (fix_line_position meta a lp mw sh) mw
      (of_int (Meta.play_res_y meta) / two - sh / two)%py syls)) as H.
    now rewrite map_map in H.
Qed.

Lemma position_chars_set meta a lp ss cs :
  Forall (fun c => Char.pos c <> None) (position_chars meta a lp ss cs).
Proof.
  unfold position_chars. destruct (_ || _).
  - apply (Forall_of_map (@Char.pos R) (fun p => p <> None)).
    apply (on_row_set lp). apply walk_chars_row.
  - destruct (stack_extent _) as [mw sh].
    apply (Forall_of_map (@Char.pos R) (fun p => p <> None)).
    pose proof (column_set _ _ (stack_chars_column meta a lp mw
      (of_int (Meta.play_res_y meta) / two - sh / two)%py cs)) as H.
    now rewrite map_map in H.
Qed.

Lemma place_words_geometry meta a lpos sw ss ws :
  Forall (fun w => Word.pos w = None) ws ->
  match lpos with
  | Some _ =>
      Forall (fun w => all_set (word_geometry w))
        (place_words meta a lpos sw ss ws)
  | None =>
      Forall (fun w => only_size_set (word_geometry w))
        (place_words meta a lpos sw ss ws)
  end.
Proof.
  intros Hws. unfold place_words. destruct lpos as [lp|].
  - destruct ws as [|w ws]; [constructor|].
    eapply Forall_impl; [|apply position_words_set].
    intros x Hx. now apply geometry_all_set.
  - assert (Forall (fun w => only_size_set (word_geometry w)) ws) as H.
    { eapply Forall_impl; [|exact Hws]. intros x Hx.
      unfold word_geometry. rewrite Hx. apply geometry_only_size_set. }
    now destruct ws.
Qed.

Lemma place_syls_geometry meta vk a w h lpos sw ss syls :
  Forall (fun s => Syllable.pos s = None) syls ->
  match lpos with
  | Some _ =>
      Forall (fun s => all_set (syl_geometry s))
        (snd (place_syls meta vk a w h lpos sw ss syls))
  | None =>
      Forall (fun s => only_size_set (syl_geometry s))
        (snd (place_syls meta vk a w h lpos sw ss syls))
      /\ snd (fst (place_syls meta vk a w h lpos sw ss syls)) = None
  end.
Proof.
  intros Hs. unfold place_syls. destruct lpos as [lp|].
  - destruct syls as [|x syls]; [constructor|].
    pose proof (position_syls_set meta vk a w h lp sw ss (x :: syls)) as H.
    destruct (position_syls _ _ _ _ _ _ _ _ _) as [[[w' h'] lp'] syls'].
    simpl in *. eapply Forall_impl; [|exact H].
    intros y Hy. now apply geometry_all_set.
  - assert (Forall (fun s => only_size_set (syl_geometry s)) syls) as H.
    { eapply Forall_impl; [|exact Hs]. intros x Hx.
      unfold syl_geometry. rewrite Hx. apply geometry_only_size_set. }
    now destruct syls.
Qed.

Lemma place_chars_geometry meta a lpos ss cs :
  Forall (fun c => Char.pos c = None) cs ->
  match lpos with
  | Some _ =>
      Forall (fun c => all_set (char_geometry c))
        (place_chars meta a lpos ss cs)
  | None =>
      Forall (fun c => only_size_set (char_geometry c))
        (place_chars meta a lpos ss cs)
  end.
Proof.
  intros Hcs. unfold place_chars. destruct lpos as [lp|].
  - destruct cs as [|c cs]; [constructor|].
    eapply Forall_impl; [|apply position_chars_set].
    intros x Hx. now apply geometry_all_set.
  - assert (Forall (fun c => only_size_set (char_geometry c)) cs) as H.
    { eapply Forall_impl; [|exact Hcs]. intros x Hx.
      unfold char_geometry. rewrite Hx. apply geometry_only_size_set. }
    now destruct cs.
Qed.

(** C8 (as amended). For every Word, Syllable and Char of a line with a
    resolved style, width and height are assigned whatever the play
    resolution is; the positional attributes (x, y, left, center, right, top,
    middle, bottom) are assigned when both play-resolution dimensions are
    positive, and none of them is when one of the dimensions is zero or
    negative (nor is any of the line). Everything else, timing and text
    included, is assigned the same way in both cases: without their
    positional attributes the words, syllables and characters are those that
    lines 708-738, 849-939 and 1026-1071 create, which do not read the play
    resolution. *)
Theorem C8_geometry_and_play_resolution meta vertical_kanji styles line st :
  styles (Line.style line) = Some st ->
  no_newline (Line.raw_text line) ->
  exists line' syls0 words syls chars,
    extend_line meta vertical_kanji styles line = Ok line'
    /\ add_syls st (text_chunks (Line.raw_text line)) = Ok syls0
    /\ Line.words line' = Some words
    /\ Line.syls line' = Some syls
    /\ Line.chars line' = Some chars
    /\ (positive_res meta = true ->
        Forall (fun w => all_set (word_geometry w)) words
        /\ Forall (fun s => all_set (syl_geometry s)) syls
        /\ Forall (fun c => all_set (char_geometry c)) chars)
    /\ (positive_res meta = false ->
        Forall (fun w => only_size_set (word_geometry w)) words
        /\ Forall (fun s => only_size_set (syl_geometry s)) syls
        /\ Forall (fun c => only_size_set (char_geometry c)) chars
        /\ Line.pos line' = None)
    /\ map Word.clear_pos words
       = add_words line (Line.end_time line - Line.start_time line) st
           (strip_tags (Line.raw_text line))
    /\ map Syllable.clear_pos syls = syls0
    /\ map Char.clear_pos chars
       = add_chars st
           (add_words line (Line.end_time line - Line.start_time line) st
              (strip_tags (Line.raw_text line)))
           syls0.
Proof.
  intros Hst Hraw.
  destruct (add_syls_returns st _ Hraw) as (syls0 & Hsyls).
  destruct (extend_line_shape meta vertical_kanji styles line st syls0
              Hst Hsyls) as (line' & Hline & H).
  cbv zeta in H. destruct H as (Hwords & Hs & Hlp & _ & _ & Hchars).
  set (a := Style.alignment st) in *.
  set (text := strip_tags (Line.raw_text line)) in *.
  set (w0 := fst (get_text_extents st text)) in *.
  set (h0 := snd (get_text_extents st text)) in *.
  set (sw := fst (get_text_extents st " ")) in *.
  set (ss := Style.spacing st) in *.
  set (words0 :=
         add_words line (Line.end_time line - Line.start_time line) st text)
    in *.
  remember (line_pos meta line st w0 h0) as lpos0 eqn:Elp.
  remember (place_words meta a lpos0 sw ss words0) as words eqn:Ewords.
  remember (place_syls meta vertical_kanji a w0 h0 lpos0 sw ss syls0) as r
    eqn:Er.
  remember (add_chars st words (snd r)) as chars0 eqn:Echars0.
  remember (place_chars meta a (snd (fst r)) ss chars0) as chars eqn:Echars.
  assert (Forall (fun w => Word.pos w = None) words0) as Hw0
    by apply add_words_from_pos.
  pose proof (add_syls_pos _ _ _ Hsyls) as Hs0.
  assert (Forall (fun c => Char.pos c = None) chars0) as Hc0
    by (subst chars0; apply add_chars_pos).
  pose proof (place_words_geometry meta a lpos0 sw ss words0 Hw0) as Gw.
  pose proof (place_syls_geometry meta vertical_kanji a w0 h0 lpos0 sw ss
                syls0 Hs0) as Gs.
  pose proof (place_chars_geometry meta a (snd (fst r)) ss chars0 Hc0) as Gc.
  pose proof (place_words_clear meta a lpos0 sw ss words0) as Cw.
  pose proof (place_syls_clear meta vertical_kanji a w0 h0 lpos0 sw ss syls0)
    as Cs.
  pose proof (place_chars_clear meta a (snd (fst r)) ss chars0) as Cc.
  rewrite <- Ewords in Gw, Cw. rewrite <- Er in Gs, Cs.
  rewrite <- Echars in Gc, Cc.
  rewrite (clear_pos_id_words _ Hw0) in Cw.
  rewrite (clear_pos_id_syls _ Hs0) in Cs.
  rewrite (clear_pos_id_chars _ Hc0) in Cc.
  exists line', syls0, words, (snd r), chars.
  do 5 (split; [assumption|]).
  split; [|split; [|split; [exact Cw | split; [exact Cs|]]]].
  - intros Hpos. unfold line_pos in Elp. rewrite Hpos in Elp. subst lpos0.
    destruct (place_syls_pos meta vertical_kanji a w0 h0
                (line_position meta line st w0 h0) sw ss syls0) as (lp & E).
    rewrite <- Er in E. rewrite E in Gc. now repeat split.
  - intros Hpos. unfold line_pos in Elp. rewrite Hpos in Elp. subst lpos0.
    destruct Gs as [Gs E]. rewrite E in Gc, Hlp. now repeat split.
  - rewrite Cc. subst chars0. apply add_chars_clear.
    + rewrite Cw. symmetry. now apply clear_pos_id_words.
    + rewrite Cs. symmetry. now apply clear_pos_id_syls.
Qed.

(** ** Lead times: the stable sort *)

Lemma insert_by_perm key x l : Permutation (x :: l) (insert_by key x l).
Proof.
  induction l as [|y l IH]; simpl; [reflexivity|].
  destruct (key x <=? key y); [reflexivity|].
  rewrite perm_swap. now constructor.
Qed.

Lemma sort_by_perm key l : Permutation l (sort_by key l).
Proof.
  induction l as [|x l IH]; simpl; [reflexivity|].
  rewrite <- insert_by_perm. now constructor.
Qed.

Lemma insert_by_sorted key x l :
  Forall (fun y => (x < y)%nat) l ->
  StronglySorted (key_then_ref key) l ->
  StronglySorted (key_then_ref key) (insert_by key x l).
Proof.
  intros Hx Hl. induction Hl as [|y l Hl IH Hy]; simpl.
  - repeat constructor.
  - apply Forall_cons_iff in Hx as [Hxy Hx].
    destruct (key x <=? key y) eqn:E.
    + apply Z.leb_le in E. constructor; [now constructor|].
      constructor.
      * unfold key_then_ref. lia.
      * rewrite Forall_forall in Hy, Hx |- *. intros z Hz.
        specialize (Hy z Hz). specialize (Hx z Hz).
        unfold key_then_ref in *. lia.
    + apply Z.leb_gt in E. constructor; [now apply IH|].
      rewrite <- insert_by_perm. constructor; [|exact Hy].
      unfold key_then_ref. lia.
Qed.

(** Sorting references given in document order sorts them by key and keeps
    the document order among equal keys. *)
Lemma sort_by_sorted key l :
  StronglySorted lt l -> StronglySorted (key_then_ref key) (sort_by key l).
Proof.
  induction 1 as [|x l Hl IH Hx]; simpl; [constructor|].
  apply insert_by_sorted; [|exact IH].
  now rewrite <- sort_by_perm.
Qed.

Lemma insert_by_ext key key' x l :
  (forall r, In r (x :: l) -> key r = key' r) ->
  insert_by key x l = insert_by key' x l.
Proof.
  induction l as [|y l IH]; intros H; simpl; [reflexivity|].
  rewrite (H x), (H y); [|right; now left | now left].
  destruct (key' x <=? key' y); [reflexivity|].
  f_equal. apply IH. intros r [<-|Hr]; apply H; [now left | now right; right].
Qed.

Lemma sort_by_ext key key' l :
  (forall r, In r l -> key r = key' r) -> sort_by key l = sort_by key' l.
Proof.
  induction l as [|x l IH]; intros H; simpl; [reflexivity|].
  rewrite IH; [|intros r Hr; apply H; now right].
  apply insert_by_ext. intros r [<-|Hr]; apply H; [now left|].
  right. now rewrite (sort_by_perm key' l).
Qed.

(** ** Lead times: the references of a style *)

Lemma refs_of_style_spec style li (lines : list (Line.t R)) r :
  In r (refs_of_style style li lines) <->
  (li <= r)%nat
  /\ exists line, nth_error lines (r - li) = Some line
                  /\ Line.style line = style.
Proof.
  revert li; induction lines as [|l lines IH]; intros li; simpl.
  - split; [intros [] | intros (_ & line & H & _)].
    now destruct (r - li)%nat.
  - assert (In r (refs_of_style style (S li) lines) <->
            (li < r)%nat /\ exists line,
               nth_error (l :: lines) (r - li) = Some line
               /\ Line.style line = style) as Htail.
    { rewrite IH. split; intros (Hr & line & Hn & Hs);
        (split; [lia|]); exists line; (split; [|exact Hs]).
      - replace (r - li)%nat with (S (r - S li)) by lia. exact Hn.
      - replace (r - li)%nat with (S (r - S li)) in Hn by lia. exact Hn. }
    destruct (Str.eqb (Line.style l) style) eqn:E.
    + apply str_eqb_eq in E. simpl. rewrite Htail. split.
      * intros [<-|(Hr & H)]; [|split; [lia | exact H]].
        split; [lia|]. exists l. now rewrite Nat.sub_diag.
      * intros (Hr & line & Hn & Hs).
        destruct (Nat.eq_dec li r) as [->|Hne]; [now left|].
        right. split; [lia|]. now exists line.
    + apply str_eqb_neq in E. rewrite Htail. split.
      * intros (Hr & H). split; [lia | exact H].
      * intros (Hr & line & Hn & Hs).
        destruct (Nat.eq_dec li r) as [->|Hne].
        -- rewrite Nat.sub_diag in Hn. simpl in Hn. injection Hn as ->.
           contradiction.
        -- split; [lia|]. now exists line.
Qed.

Lemma refs_of_style_sorted style li (lines : list (Line.t R)) :
  StronglySorted lt (refs_of_style style li lines).
Proof.
  revert li; induction lines as [|l lines IH]; intros li; simpl;
    [constructor|].
  destruct (Str.eqb (Line.style l) style); [|apply IH].
  constructor; [apply IH|].
  apply Forall_forall. intros r Hr. apply refs_of_style_spec in Hr. lia.
Qed.

Lemma refs_of_style_bound style (lines : list (Line.t R)) r :
  In r (refs_of_style style 0 lines) -> (r < List.length lines)%nat.
Proof.
  intros H. apply refs_of_style_spec in H as (_ & line & Hn & _).
  rewrite Nat.sub_0_r in Hn. apply nth_error_Some. congruence.
Qed.

Lemma StronglySorted_lt_NoDup l : StronglySorted lt l -> NoDup l.
Proof.
  induction 1 as [|x l Hl IH Hx]; constructor; [|exact IH].
  intros Hin. rewrite Forall_forall in Hx. specialize (Hx x Hin). lia.
Qed.

Lemma group_append_of style ref s d :
  group_of s (group_append style ref d)
  = if Str.eqb style s then (group_of s d ++ [ref])%list
    else group_of s d.
Proof.
  induction d as [|[k v] d IH]; simpl.
  - destruct (Str.eqb style s); reflexivity.
  - destruct (Str.eqb k style) eqn:Ek; simpl.
    + apply str_eqb_eq in Ek. subst k.
      destruct (Str.eqb style s); reflexivity.
    + destruct (Str.eqb k s) eqn:Eks; [|exact IH].
      apply str_eqb_eq in Eks. subst k.
      now rewrite str_eqb_sym, Ek.
Qed.

Lemma group_append_in k style ref d :
  In k (map fst (group_append style ref d)) ->
  k = style \/ In k (map fst d).
Proof.
  induction d as [|[k' v] d IH]; simpl.
  - intros [<-|[]]. now left.
  - destruct (Str.eqb k' style); simpl; [now right|].
    intros [<-|H]; [right; now left|].
    destruct (IH H); [now left | right; now right].
Qed.

Lemma group_append_keys style ref d :
  NoDup (map fst d) -> NoDup (map fst (group_append style ref d)).
Proof.
  induction d as [|[k v] d IH]; simpl; intros Hd.
  - repeat constructor. intros [].
  - destruct (Str.eqb k style) eqn:Ek; [exact Hd|].
    simpl. apply NoDup_cons_iff in Hd as [Hk Hd].
    constructor; [|exact (IH Hd)].
    intros H. destruct (group_append_in _ _ _ _ H) as [->|H'];
      [|contradiction].
    now rewrite str_eqb_refl in Ek.
Qed.

Lemma build_groups_of style li (lines : list (Line.t R)) d :
  group_of style (build_groups li lines d)
  = (group_of style d ++ refs_of_style style li lines)%list.
Proof.
  revert li d; induction lines as [|l lines IH]; intros li d; simpl.
  - now rewrite app_nil_r.
  - rewrite IH, group_append_of.
    destruct (Str.eqb (Line.style l) style);
      [now rewrite <- app_assoc | reflexivity].
Qed.

Lemma build_groups_keys li (lines : list (Line.t R)) d :
  NoDup (map fst d) -> NoDup (map fst (build_groups li lines d)).
Proof.
  revert li d; induction lines as [|l lines IH]; intros li d Hd; simpl;
    [exact Hd|].
  apply IH. now apply group_append_keys.
Qed.

Lemma group_of_In style g d :
  NoDup (map fst d) -> In (style, g) d -> group_of style d = g.
Proof.
  induction d as [|[k v] d IH]; simpl; intros Hd; [intros []|].
  apply NoDup_cons_iff in Hd as [Hk Hd].
  intros [[= -> ->]|Hin]; [now rewrite str_eqb_refl|].
  destruct (Str.eqb k style) eqn:Ek; [|now apply IH].
  apply str_eqb_eq in Ek. subst k. elim Hk.
  now apply (in_map fst) in Hin.
Qed.

Lemma group_of_split style d :
  group_of style d <> [] ->
  exists d1 d2, d = (d1 ++ (style, group_of style d) :: d2)%list.
Proof.
  induction d as [|[k v] d IH]; simpl; [intros H; now elim H|].
  destruct (Str.eqb k style) eqn:Ek.
  - apply str_eqb_eq in Ek. subst k. intros _. now exists [], d.
  - intros H. destruct (IH H) as (d1 & d2 & E).
    exists ((k, v) :: d1), d2. simpl. now rewrite <- E.
Qed.

(** ** Lead times: the store *)

Lemma nth_error_update_at r f (store : list (Line.t R)) r' :
  nth_error (update_at r f store) r'
  = if (r =? r')%nat then option_map f (nth_error store r')
    else nth_error store r'.
Proof.
  revert r r'; induction store as [|l store IH]; intros r r'; simpl.
  - destruct r, r'; simpl; try reflexivity; now destruct (_ =? _)%nat.
  - destruct r as [|r], r' as [|r']; simpl; try reflexivity. apply IH.
Qed.

Lemma attr_update_at g r f (store : list (Line.t R)) r' :
  (forall l, g (f l) = g l) ->
  attr g (update_at r f store) r' = attr g store r'.
Proof.
  intros Hg. unfold attr. rewrite nth_error_update_at.
  destruct (r =? r')%nat; [|reflexivity].
  destruct (nth_error store r'); simpl; [apply Hg | reflexivity].
Qed.

Lemma kept_start_time : kept (@Line.start_time R).
Proof. intros l i o. reflexivity. Qed.

Lemma kept_end_time : kept (@Line.end_time R).
Proof. intros l i o. reflexivity. Qed.

Lemma lead_step_attr g group (store : list (Line.t R)) li r :
  kept g -> attr g (lead_step group store li) r = attr g store r.
Proof.
  intros Hg. unfold lead_step. apply attr_update_at. intros l. apply Hg.
Qed.

Lemma lead_steps_attr g group (store : list (Line.t R)) idx r :
  kept g -> attr g (fold_left (lead_step group) idx store) r = attr g store r.
Proof.
  intros Hg. revert store; induction idx as [|li idx IH]; intros store; simpl;
    [reflexivity|].
  now rewrite IH, lead_step_attr.
Qed.

Lemma lead_steps_outside group (store : list (Line.t R)) idx r :
  (forall li, In li idx -> nth li group 0%nat <> r) ->
  nth_error (fold_left (lead_step group) idx store) r = nth_error store r.
Proof.
  revert store; induction idx as [|li idx IH]; intros store H; simpl;
    [reflexivity|].
  rewrite IH; [|intros li' Hli; apply H; now right].
  unfold lead_step. rewrite nth_error_update_at.
  destruct (_ =? r)%nat eqn:E; [|reflexivity].
  apply Nat.eqb_eq in E. elim (H li (or_introl eq_refl) E).
Qed.

Lemma lead_steps_spec group (store : list (Line.t R)) n :
  NoDup group ->
  (n <= List.length group)%nat ->
  (forall r, In r group -> (r < List.length store)%nat) ->
  forall k, (k < n)%nat ->
    exists l',
      nth_error (fold_left (lead_step group) (seq 0 n) store)
        (nth k group 0%nat) = Some l'
      /\ Line.leadin l' = Some (leadin_rule store group k)
      /\ Line.leadout l' = Some (leadout_rule store group k).
Proof.
  intros Hnd Hn Hb. induction n as [|n IH]; intros k Hk; [lia|].
  rewrite seq_S, fold_left_app. simpl.
  set (store' := fold_left (lead_step group) (seq 0 n) store) in *.
  unfold lead_step at 1. rewrite nth_error_update_at.
  destruct (Nat.eq_dec k n) as [->|Hne].
  - rewrite Nat.eqb_refl.
    assert (nth_error store' (nth n group 0%nat) <> None) as Hsome.
    { subst store'. rewrite lead_steps_outside.
      - apply nth_error_Some. apply Hb. apply nth_In. lia.
      - intros li Hli E. apply in_seq in Hli.
        apply (proj1 (NoDup_nth group 0%nat)) in E; [lia | exact Hnd | lia | lia]. }
    destruct (nth_error store' (nth n group 0%nat)) as [l|]; [|now elim Hsome].
    simpl. eexists. split; [reflexivity|]. subst store'. split; simpl.
    + unfold leadin_rule.
      now rewrite !(lead_steps_attr _ _ _ _ _ kept_start_time),
                  !(lead_steps_attr _ _ _ _ _ kept_end_time).
    + unfold leadout_rule.
      now rewrite !(lead_steps_attr _ _ _ _ _ kept_start_time),
                  !(lead_steps_attr _ _ _ _ _ kept_end_time).
  - destruct (_ =? _)%nat eqn:E.
    + apply Nat.eqb_eq in E.
      apply (proj1 (NoDup_nth group 0%nat)) in E; [lia | exact Hnd | lia | lia].
    + apply IH; lia.
Qed.

Lemma group_leads_attr g (store : list (Line.t R)) group r :
  kept g -> attr g (group_leads store group) r = attr g store r.
Proof. intros Hg. unfold group_leads. now apply lead_steps_attr. Qed.

Lemma group_leads_outside (store : list (Line.t R)) group r :
  ~ In r group -> nth_error (group_leads store group) r = nth_error store r.
Proof.
  intros Hr. unfold group_leads. apply lead_steps_outside.
  intros li Hli E. apply in_seq in Hli. apply Hr.
  rewrite (sort_by_perm (attr (@Line.start_time R) store) group), <- E.
  apply nth_In. lia.
Qed.

Lemma fold_groups_attr g (d : list (str * list nat))
    (store : list (Line.t R)) r :
  kept g ->
  attr g (fold_left (fun st e => group_leads st (snd e)) d store) r
  = attr g store r.
Proof.
  intros Hg. revert store; induction d as [|e d IH]; intros store; simpl;
    [reflexivity|].
  now rewrite IH, group_leads_attr.
Qed.

Lemma fold_groups_outside (d : list (str * list nat))
    (store : list (Line.t R)) r :
  (forall e, In e d -> ~ In r (snd e)) ->
  nth_error (fold_left (fun st e => group_leads st (snd e)) d store) r
  = nth_error store r.
Proof.
  revert store; induction d as [|e d IH]; intros store H; simpl;
    [reflexivity|].
  rewrite IH; [|intros e' He; apply H; now right].
  apply group_leads_outside. apply H. now left.
Qed.

Lemma leadin_rule_ext (store store' : list (Line.t R)) group k :
  (forall r, attr (@Line.start_time R) store r
             = attr (@Line.start_time R) store' r) ->
  (forall r, attr (@Line.end_time R) store r
             = attr (@Line.end_time R) store' r) ->
  leadin_rule store group k = leadin_rule store' group k
  /\ leadout_rule store group k = leadout_rule store' group k.
Proof.
  intros Hs He. unfold leadin_rule, leadout_rule. now rewrite !Hs, !He.
Qed.

Lemma fold_left_length_store (d : list (str * list nat))
    (store : list (Line.t R)) :
  List.length (fold_left (fun st e => group_leads st (snd e)) d store)
  = List.length store.
Proof.
  assert (forall r f (s : list (Line.t R)),
            List.length (update_at r f s) = List.length s) as Hu.
  { intros r f s; revert r; induction s as [|l s IH]; intros [|r]; simpl;
      auto. }
  assert (forall group idx (s : list (Line.t R)),
            List.length (fold_left (lead_step group) idx s) = List.length s)
    as Hs.
  { intros group idx; induction idx as [|li idx IH]; intros s; simpl;
      [reflexivity|]. rewrite IH. apply Hu. }
  revert store; induction d as [|e d IH]; intros store; simpl;
    [reflexivity|]. rewrite IH. apply Hs.
Qed.

(** C9. The lines of one style, taken in document order and sorted by start
    time with a stable sort, form a group that is ordered by start time and,
    among equal start times, by document position. After the lead times are
    added, the line at index [k] of the group has as lead-in its start time
    minus the end time of the line before it in the group, or 1000.1 when it
    is the first; and as lead-out the start time of the line after it in the
    group minus its end time, or 1000.1 when it is the last. A line alone in
    its group has both at 1000.1. *)
Theorem C9_lead_times (lines : list (Line.t R)) (style : str) (k : nat) :
  let start := attr (@Line.start_time R) lines in
  let finish := attr (@Line.end_time R) lines in
  let group := sort_by start (refs_of_style style 0 lines) in
  (k < List.length group)%nat ->
  Permutation (refs_of_style style 0 lines) group
  /\ StronglySorted (key_then_ref start) group
  /\ exists line',
       nth_error (add_durations lines) (nth k group 0%nat) = Some line'
       /\ Line.leadin line'
          = Some (if (k =? 0)%nat then Lead1000_1
                  else LeadGap (start (nth k group 0%nat)
                                - finish (nth (k - 1) group 0%nat)))
       /\ Line.leadout line'
          = Some (if (k =? List.length group - 1)%nat then Lead1000_1
                  else LeadGap (start (nth (k + 1) group 0%nat)
                                - finish (nth k group 0%nat)))
       /\ (List.length group = 1%nat ->
           Line.leadin line' = Some Lead1000_1
           /\ Line.leadout line' = Some Lead1000_1).
Proof.
  intros start finish group Hk.
  set (g0 := refs_of_style style 0 lines) in *.
  assert (Permutation g0 group) as Hperm by apply sort_by_perm.
  split; [exact Hperm|].
  split; [apply sort_by_sorted, refs_of_style_sorted|].
  assert (NoDup group) as Hnd.
  { rewrite <- Hperm. apply StronglySorted_lt_NoDup, refs_of_style_sorted. }
  set (d := lines_by_styles lines).
  assert (NoDup (map fst d)) as Hkeys
    by (apply build_groups_keys; constructor).
  assert (forall s, group_of s d = refs_of_style s 0 lines) as Hgroups
    by (intros s; apply build_groups_of).
  assert (g0 <> []) as Hne.
  { intros E. rewrite E in Hperm. apply Permutation_nil in Hperm.
    rewrite Hperm in Hk. simpl in Hk. lia. }
  destruct (group_of_split style d) as (d1 & d2 & Hd).
  { now rewrite Hgroups. }
  rewrite Hgroups in Hd. fold g0 in Hd.
  unfold add_durations. fold d. rewrite Hd, fold_left_app. simpl.
  set (store1 := fold_left (fun st e => group_leads st (snd e)) d1 lines).
  assert (forall g r, kept g -> attr g store1 r = attr g lines r) as Hattr
    by (intros g r Hg; now apply fold_groups_attr).
  assert (sort_by (attr (@Line.start_time R) store1) g0 = group) as Hsort.
  { apply sort_by_ext. intros r _. apply Hattr, kept_start_time. }
  assert (In (nth k group 0%nat) g0) as Hin.
  { rewrite Hperm. now apply nth_In. }
  rewrite fold_groups_outside.
  2:{ intros [s' g'] He Hr. simpl in Hr.
      assert (In (s', g') d) as Hed
        by (rewrite Hd; apply in_or_app; right; now right).
      assert (g' = refs_of_style s' 0 lines) as ->
        by (rewrite <- Hgroups; symmetry; now apply group_of_In).
      assert (s' <> style) as Hs'.
      { intros ->. rewrite Hd, map_app in Hkeys. simpl in Hkeys.
        apply NoDup_remove_2 in Hkeys. apply Hkeys, in_or_app. right.
        now apply (in_map fst) in He. }
      apply refs_of_style_spec in Hr as (_ & l1 & Hl1 & Hs1).
      unfold g0 in Hin.
      apply refs_of_style_spec in Hin as (_ & l2 & Hl2 & Hs2).
      congruence. }
  unfold group_leads. rewrite Hsort.
  destruct (lead_steps_spec group store1 (List.length group) Hnd (le_n _))
    with (k := k) as (l' & Hl' & Hli & Hlo); [|exact Hk|].
  { intros r Hr. unfold store1. rewrite fold_left_length_store.
    apply (refs_of_style_bound style). fold g0. now rewrite Hperm. }
  destruct (leadin_rule_ext store1 lines group k) as [Ei Eo];
    [intros r; apply Hattr, kept_start_time
    |intros r; apply Hattr, kept_end_time|].
  rewrite Ei in Hli. rewrite Eo in Hlo.
  exists l'. split; [exact Hl'|]. split; [exact Hli|]. split; [exact Hlo|].
  intros H1. rewrite Hli, Hlo. unfold leadin_rule, leadout_rule.
  rewrite H1 in *. replace k with 0%nat by lia. now split.
Qed.

(** The three outcomes of [write_line] (lines 1162-1181), for a Line whose
    attributes other than [text] are assigned, as the parser assigns them. It
    raises a TypeError and leaves the output accumulator and the count of
    produced lines as they were when its argument is not a Line. When the
    argument is a Line whose [text] is assigned, it appends one record, a
    newline followed by
    [Dialogue|Comment: layer,start,end,style,actor,marginL,marginR,marginV,effect,text],
    with start and end clamped to non-negative values before the time
    encoding and the margins padded with zeros to four characters, and
    counts one more produced line. When the argument is a Line whose [text]
    is not assigned, it raises an AttributeError and leaves the accumulator
    and the count as they were. *)
Lemma write_line_outcomes (x : @pyobj R) (s : Output) :
  match x with
  | PyOther _ => write_line convert_time x s = (s, Raise TypeError)
  | PyLine line =>
      match Line.text line with
      | None => write_line convert_time x s = (s, Raise AttributeError)
      | Some text =>
          write_line convert_time x s
          = (mkOutput
               (output s
                ++ [String newline
                      ((if Line.comment line then "Comment" else "Dialogue")
                       ++ ": " ++ str_int (Line.layer line)
                       ++ "," ++ convert_time (Z.max 0 (Line.start_time line))
                       ++ "," ++ convert_time (Z.max 0 (Line.end_time line))
                       ++ "," ++ Line.style line
                       ++ "," ++ Line.actor line
                       ++ "," ++ str_int_04 (Line.margin_l line)
                       ++ "," ++ str_int_04 (Line.margin_r line)
                       ++ "," ++ str_int_04 (Line.margin_v line)
                       ++ "," ++ Line.effect line
                       ++ "," ++ text)%str])%list
               (S (plines s)),
             Ok tt)
      end
  end.
Proof.
  destruct x as [line|name]; [|reflexivity].
  unfold write_line. destruct (Line.text line) as [text|]; [|reflexivity].
  unfold line_format.
  cbn [pyformat bind Str.append].
  rewrite append_nil_r. reflexivity.
Qed.

End Properties.

(** ** The properties on concrete lines *)

Import Examples.

Lemma C1_witness :
  no_newline "{\k50}Hel{\k30}lo {\k40}world"
  /\ exists line' syls,
       run true 2 1280 720 "{\k50}Hel{\k30}lo {\k40}world" = Ok line'
       /\ Line.syls line' = Some syls
       /\ List.length syls = 3%nat.
Proof.
  split; [reflexivity|].
  destruct (@C1_syls_empty_or_complete Q Sample.qnum Sample.mono
              (Sample.meta 1280 720) true (Sample.styles 2)
              (Sample.line 0 0 5000 "Default" "{\k50}Hel{\k30}lo {\k40}world")
              (Sample.style 2) eq_refl eq_refl)
    as (line' & syls & H1 & H2 & _ & H4).
  exists line', syls. split; [exact H1|]. split; [exact H2|].
  apply H4. intros tc [<-|[<-|[<-|[]]]]; vm_compute; discriminate.
Defined.

Lemma C2_witness :
  no_newline "{\k50}Hel{\k30}lo {\k40}world"
  /\ exists line' syls,
       run true 2 1280 720 "{\k50}Hel{\k30}lo {\k40}world" = Ok line'
       /\ Line.syls line' = Some syls
       /\ map syl_timing syls
          = [(0, 500, 500); (500, 800, 300); (800, 1200, 400)]%Z.
Proof.
  split; [reflexivity|].
  destruct (@C2_running_clock Q Sample.qnum Sample.mono
              (Sample.meta 1280 720) true (Sample.styles 2)
              (Sample.line 0 0 5000 "Default" "{\k50}Hel{\k30}lo {\k40}world")
              (Sample.style 2) eq_refl eq_refl)
    as (line' & syls & H1 & H2 & H3 & _).
  { intros tc [<-|[<-|[<-|[]]]]; vm_compute; discriminate. }
  exists line', syls. split; [exact H1|]. split; [exact H2|]. exact H3.
Defined.

Lemma C3_witness :
  no_newline ("{\b1\k50\i1\k20\fs9}Hel" ++ String 12288%N "")
  /\ exists line' h l,
       run true 2 1280 720 ("{\b1\k50\i1\k20\fs9}Hel" ++ String 12288%N "")
       = Ok line'
       /\ Line.syls line' = Some [h; l]
       /\ Syllable.tags h = "\b1" /\ Syllable.text h = ""
       /\ Syllable.tags l = "\i1\fs9" /\ Syllable.text l = "Hel"
       /\ Syllable.prespace l = 0%nat /\ Syllable.postspace l = 1%nat.
Proof.
  split; [reflexivity|].
  destruct (@C3_hidden_and_last_syllable Q Sample.qnum Sample.mono
              (Sample.meta 1280 720) true (Sample.styles 2)
              (Sample.line 0 0 5000 "Default"
                 ("{\b1\k50\i1\k20\fs9}Hel" ++ String 12288%N ""))
              (Sample.style 2) eq_refl eq_refl)
    as (line' & groups & H1 & H2 & H3).
  { intros tc [<-|[]]; vm_compute; discriminate. }
  match type of H3 with
  | Forall2 _ ?tcs _ =>
      let v := eval vm_compute in tcs in change tcs with v in H3
  end.
  inversion H3 as [|tc g tcs gs Hg Hrest E1 E2]; subst.
  inversion Hrest; subst. simpl in H2. rewrite app_nil_r in H2.
  destruct Hg as (hidden & l & -> & Hlen & _ & _
                  & pres & pretags & leftover & Hcut & Hpres & Htags & _).
  vm_compute in Hcut.
  destruct hidden as [|h [|h' hidden]]; try discriminate Hlen.
  destruct pres as [|p0 [|p1 pres]]; try discriminate Hpres.
  injection Hcut as <- <- <-. injection Hpres as Hh.
  exists line', h, l. split; [exact H1|]. split; [exact H2|].
  split; [exact Hh|].
  change (run true 2 1280 720
            ("{\b1\k50\i1\k20\fs9}Hel" ++ String 12288%N "") = Ok line')
    in H1.
  vm_compute in H1. injection H1 as <-.
  vm_compute in H2. injection H2 as <- <-.
  repeat split; reflexivity.
Defined.

Lemma C4_witness :
  no_newline "{\k50}Hel{\k30}lo {\k40}world"
  /\ exists line' syls,
       run true 2 1280 720 "{\k50}Hel{\k30}lo {\k40}world" = Ok line'
       /\ Line.syls line' = Some syls
       /\ map (@Syllable.word_i Q) syls = [0; 0; 1]%nat.
Proof.
  split; [reflexivity|].
  destruct (@C4_owning_word_index Q Sample.qnum Sample.mono
              (Sample.meta 1280 720) true (Sample.styles 2)
              (Sample.line 0 0 5000 "Default" "{\k50}Hel{\k30}lo {\k40}world")
              (Sample.style 2) eq_refl eq_refl)
    as (leading & tagged & line' & syls & _ & _ & _ & H1 & H2 & _ & H3).
  exists line', syls. split; [exact H1|]. split; [exact H2|].
  exact (H3 eq_refl).
Defined.

(** The claim gives the chunk for the text before the first tag run a word
    index and lets it advance the index; the chunk has none and does not. *)
Lemma C4_counterexample :
  map TextChunk.word_i (text_chunks "a {\k1}b")
  <> map Some (word_index_rule 0 (map TextChunk.text (text_chunks "a {\k1}b"))).
Proof. vm_compute. discriminate. Qed.

(** The whitespace that ends a word is any whitespace of the interpreter:
    a chunk whose text ends with the ideographic space U+3000 advances the
    word index. *)
Example wide_space_ends_word :
  exists line' syls,
    run true 2 1280 720 ("{\k50}Hel" ++ String 12288%N "{\k30}lo") = Ok line'
    /\ Line.syls line' = Some syls
    /\ map (@Syllable.word_i Q) syls = [0; 1]%nat
    /\ map (@Syllable.postspace Q) syls = [1; 0]%nat.
Proof.
  do 2 eexists.
  split; [vm_compute; reflexivity|].
  split; [vm_compute; reflexivity|].
  split; vm_compute; reflexivity.
Qed.

Lemma C5_witness :
  exists line' w0 w1,
    run true 2 1280 720 "Hi there" = Ok line'
    /\ Line.syls line' = Some []
    /\ Line.words line' = Some [w0; w1]
    /\ Word.text w0 = "Hi" /\ Word.text w1 = "there"
    /\ Word.prespace w0 = 0%nat /\ Word.postspace w0 = 1%nat
    /\ Word.prespace w1 = 0%nat /\ Word.postspace w1 = 0%nat.
Proof.
  exact (@C5_hi_there Q Sample.qnum Sample.mono
           (Sample.meta 1280 720) true (Sample.styles 2)
           (Sample.line 0 0 5000 "Default" "Hi there")
           (Sample.style 2) eq_refl eq_refl).
Defined.

(** The claim gives word 0 a postspace of 0; it is 1. *)
Lemma C5_counterexample :
  ~ (exists line' w0 w1,
       run true 2 1280 720 "Hi there" = Ok line'
       /\ Line.syls line' = Some []
       /\ Line.words line' = Some [w0; w1]
       /\ Word.text w0 = "Hi" /\ Word.text w1 = "there"
       /\ Word.prespace w0 = 0%nat /\ Word.postspace w0 = 0%nat
       /\ Word.prespace w1 = 0%nat /\ Word.postspace w1 = 0%nat).
Proof.
  intros (line' & w0 & w1 & Hl & _ & Hw & _ & _ & _ & Hpost & _).
  vm_compute in Hl. injection Hl as <-.
  vm_compute in Hw. injection Hw as <- _.
  vm_compute in Hpost. discriminate.
Qed.

Lemma C6_witness :
  positive_res (Sample.meta 1280 720) = true
  /\ exists line' lp chars,
       run true 2 1280 720 "Hi there" = Ok line'
       /\ Line.pos line' = Some lp
       /\ Line.chars line' = Some chars
       /\ @on_row Q lp (map (@Char.pos Q) chars).
Proof.
  split; [reflexivity|].
  destruct (@C6_char_vertical_coordinates Q Sample.qnum Sample.mono
              (Sample.meta 1280 720) true (Sample.styles 2)
              (Sample.line 0 0 5000 "Default" "Hi there")
              (Sample.style 2) eq_refl eq_refl eq_refl)
    as (line' & lp & chars & H1 & H2 & H3 & H4 & _).
  exists line', lp, chars. split; [exact H1|]. split; [exact H2|].
  split; [exact H3|]. apply H4. left. reflexivity.
Defined.

(** The claim gives every Char the top of its line for every alignment; with
    the alignment 5 and vertical-kanji rendering enabled the second Char of
    [Hi] has its top at 360 and the line at 350. *)
Lemma C6_counterexample :
  exists line' lp chars c p,
    run true 5 1280 720 "Hi" = Ok line'
    /\ Line.pos line' = Some lp
    /\ Line.chars line' = Some chars
    /\ nth_error chars 1 = Some c
    /\ Char.pos c = Some p
    /\ Pos.top p = 360%Q /\ Pos.top lp = 350%Q
    /\ Pos.top p <> Pos.top lp.
Proof.
  do 5 eexists.
  split; [vm_compute; reflexivity|].
  split; [vm_compute; reflexivity|].
  split; [vm_compute; reflexivity|].
  split; [vm_compute; reflexivity|].
  split; [vm_compute; reflexivity|].
  split; [vm_compute; reflexivity|].
  split; [vm_compute; reflexivity|].
  vm_compute. discriminate.
Qed.



Lemma C8_witness :
  no_newline "{\k50}Hel{\k30}lo {\k40}world"
  /\ exists line' words syls chars,
       run true 2 0 720 "{\k50}Hel{\k30}lo {\k40}world" = Ok line'
       /\ Line.words line' = Some words
       /\ Line.syls line' = Some syls
       /\ Line.chars line' = Some chars
       /\ Forall (fun w => only_size_set (word_geometry w)) words
       /\ Forall (fun s => only_size_set (syl_geometry s)) syls
       /\ Forall (fun c => only_size_set (char_geometry c)) chars
       /\ Line.pos line' = None.
Proof.
  split; [reflexivity|].
  destruct (@C8_geometry_and_play_resolution Q Sample.qnum Sample.mono
              (Sample.meta 0 720) true (Sample.styles 2)
              (Sample.line 0 0 5000 "Default" "{\k50}Hel{\k30}lo {\k40}world")
              (Sample.style 2) eq_refl eq_refl)
    as (line' & syls0 & words & syls & chars
        & H1 & _ & H3 & H4 & H5 & _ & Hneg & _).
  destruct (Hneg eq_refl) as (Gw & Gs & Gc & Hp).
  exists line', words, syls, chars. repeat split; assumption.
Defined.

(** The claim leaves width and height unassigned when a play-resolution
    dimension is not positive; with a play-resolution width of 0 the words of
    [Hi there] have the widths 20 and 50 and the height 20, and no
    positional attribute. *)
Lemma C8_counterexample :
  exists line' words,
    positive_res (Sample.meta 0 720) = false
    /\ run true 2 0 720 "Hi there" = Ok line'
    /\ Line.words line' = Some words
    /\ map (@word_geometry Q) words
       = [Some 20%Q :: Some 20%Q :: repeat None 8;
          Some 50%Q :: Some 20%Q :: repeat None 8]
    /\ ~ Forall (fun w => Forall (fun o => o = None) (word_geometry w)) words.
Proof.
  do 2 eexists.
  split; [reflexivity|].
  split; [vm_compute; reflexivity|].
  split; [vm_compute; reflexivity|].
  split; [vm_compute; reflexivity|].
  intros H. apply Forall_inv in H. apply Forall_inv in H. discriminate H.
Qed.

Lemma C9_witness :
  exists line',
    nth_error (add_durations three_lines) 0 = Some line'
    /\ Line.leadin line' = Some (LeadGap 1000)
    /\ Line.leadout line' = Some Lead1000_1.
Proof.
  destruct (@C9_lead_times Q three_lines "Default" 1)
    as (_ & _ & line' & H1 & H2 & H3 & _).
  { vm_compute. lia. }
  exists line'. split; [exact H1|]. split; [exact H2 | exact H3].
Defined.

(** C10. [write_line] on a Line as the constructor leaves it when the
    extended computation is not asked for (lines 585-613): [text], which line
    1176 reads, is assigned at line 629 only, after the return of line 613.
    The call raises an AttributeError and leaves the output accumulator and
    the count of produced lines as they were, where the claim has one record
    appended for every Line. *)
Theorem C10_line_without_text :
  @write_line Q Sample.time_str
    (PyLine (Sample.line 0 0 5000 "Default" "Hi")) (mkOutput [] 0)
  = (mkOutput [] 0, Raise AttributeError).
Proof. reflexivity. Qed.

(** * Further properties of the code *)

(** ** The text of a line and its chunks (lines 629 and 808-847) *)

Lemma groupless_strip_tags s : groupless s -> strip_tags s = s.
Proof.
  induction s as [|c r IH]; [reflexivity|].
  intros [H Hr]. rewrite strip_tags_eq, H. now rewrite IH.
Qed.

Lemma lazy_to_close_strip_tags r :
  lazy_to_close r = None -> lazy_to_close (strip_tags r) = None.
Proof.
  induction r as [|d r IH]; [reflexivity|].
  intros H. simpl in H.
  destruct (N.eqb d rbrace) eqn:Ed; [discriminate|].
  assert (tag_group (String d r) = None) as Hg.
  { simpl. destruct (N.eqb d lbrace) eqn:El; [|reflexivity].
    apply N.eqb_eq in El. subst d.
    change (dot lbrace) with true in H.
    destruct (lazy_to_close r) as [[b q]|]; [discriminate|reflexivity]. }
  rewrite strip_tags_eq, Hg. simpl. rewrite Ed.
  destruct (dot d); [|reflexivity].
  destruct (lazy_to_close r) as [[b q]|] eqn:E; [discriminate|].
  now rewrite IH.
Qed.

Lemma strip_tags_groupless s : groupless (strip_tags s).
Proof.
  induction s as [s IH] using string_length_ind.
  rewrite strip_tags_eq. destruct s as [|c r]; [exact I|].
  destruct (tag_group (String c r)) as [[body rest]|] eqn:E.
  - apply IH. exact (tag_group_shorter _ _ _ E).
  - split; [|apply IH; simpl; lia].
    simpl in E |- *. destruct (N.eqb c lbrace); [|reflexivity].
    now apply lazy_to_close_strip_tags.
Qed.

Lemma tag_match_none s : tag_group s = None -> tag_match s = None.
Proof.
  intros H. unfold tag_match. rewrite tag_groups_eq, H. reflexivity.
Qed.

Lemma tag_match_some s :
  tag_match s = None -> tag_group s = None.
Proof.
  unfold tag_match. rewrite tag_groups_eq.
  destruct (tag_group s) as [[body rest]|]; [|reflexivity].
  destruct (tag_groups rest) as [m r]. discriminate.
Qed.

Lemma groupless_tag_search s : groupless s -> tag_search s = None.
Proof.
  induction s as [|c r IH].
  - reflexivity.
  - intros [H Hr]. simpl. rewrite (tag_match_none _ H).
    now rewrite (IH Hr).
Qed.

Lemma tag_search_groupless s : tag_search s = None -> groupless s.
Proof.
  induction s as [|c r IH]; [exact (fun _ => I)|].
  intros H. simpl in H.
  destruct (tag_match (String c r)) as [[m q]|] eqn:E; [discriminate|].
  destruct (tag_search r) as [[[b m] q]|]; [discriminate|].
  split; [now apply tag_match_some|now apply IH].
Qed.

(** X1. [line.text] (line 629) holds no brace group any more: the pattern
    of the tags finds nothing in it, and the substitution applied once more
    changes nothing. *)
Theorem X1_strip_tags_idempotent s :
  tag_search (strip_tags s) = None
  /\ strip_tags (strip_tags s) = strip_tags s.
Proof.
  split.
  - apply groupless_tag_search, strip_tags_groupless.
  - apply groupless_strip_tags, strip_tags_groupless.
Qed.

Lemma strip_tags_tag_groups s : strip_tags s = strip_tags (snd (tag_groups s)).
Proof.
  induction s as [s IH] using string_length_ind.
  rewrite tag_groups_eq.
  destruct (tag_group s) as [[body rest]|] eqn:E; [|reflexivity].
  specialize (IH rest (tag_group_shorter _ _ _ E)).
  destruct (tag_groups rest) as [m r]; simpl in *.
  rewrite <- IH. rewrite (strip_tags_eq s).
  destruct s as [|c s']; [discriminate E|]. now rewrite E.
Qed.

Lemma strip_tags_tag_search s before m rest :
  tag_search s = Some (before, m, rest) ->
  strip_tags s = (before ++ strip_tags rest)%str.
Proof.
  revert before; induction s as [|c r IH]; intros before; simpl.
  - destruct (tag_match "") as [[m' q]|] eqn:E; [|discriminate].
    discriminate E.
  - destruct (tag_match (String c r)) as [[m' q]|] eqn:E.
    + intros [= <- <- <-]. simpl.
      rewrite strip_tags_tag_groups. unfold tag_match in E.
      destruct (tag_groups (String c r)) as [m1 r1].
      destruct (nonempty m1); [|discriminate]. now injection E as <- <-.
    + destruct (tag_search r) as [[[b m'] q]|] eqn:Es; [|discriminate].
      intros [= <- <- <-]. simpl.
      rewrite strip_tags_eq, (tag_match_some _ E).
      now rewrite (IH _ eq_refl).
Qed.

Lemma concat_cons_empty_sep x l :
  Str.concat "" (x :: l) = (x ++ Str.concat "" l)%str.
Proof.
  destruct l as [|y l]; simpl; [now rewrite append_nil_r|reflexivity].
Qed.

Lemma chunk_loop_texts after :
  forall m wi,
    Str.concat "" (map TextChunk.text (chunk_loop m after wi))
    = strip_tags after.
Proof.
  induction after as [after IH] using string_length_ind.
  intros m wi. rewrite chunk_loop_eq.
  destruct (tag_search after) as [[[before nm] na]|] eqn:E.
  - rewrite map_cons, concat_cons_empty_sep. simpl TextChunk.text.
    rewrite (IH na (tag_search_shorter _ _ _ _ E)).
    symmetry. exact (strip_tags_tag_search _ _ _ _ E).
  - simpl. symmetry. apply groupless_strip_tags.
    now apply tag_search_groupless.
Qed.

Lemma text_chunks_texts raw :
  Str.concat "" (map TextChunk.text (text_chunks raw)) = strip_tags raw.
Proof.
  unfold text_chunks.
  destruct (tag_search raw) as [[[before m] after]|] eqn:E.
  - rewrite (strip_tags_tag_search _ _ _ _ E), <- (chunk_loop_texts after m 0).
    destruct before as [|c b]; [reflexivity|].
    simpl app. rewrite map_cons, concat_cons_empty_sep. reflexivity.
  - simpl. symmetry. apply groupless_strip_tags.
    now apply tag_search_groupless.
Qed.

(** X2. The texts of the chunks of a line (lines 811-847), put one after the
    other, are [line.text] (line 629): chunking loses no character of the
    visible text and adds none. *)
Theorem X2_text_chunks_cover raw :
  Str.concat "" (map TextChunk.text (text_chunks raw)) = strip_tags raw.
Proof. exact (text_chunks_texts raw). Qed.

(** ** Words (line 712) *)

Lemma span_nonspace_nonempty s c r :
  snd (span isspace s) = String c r ->
  nonempty (fst (span nonspace (String c r))) = true.
Proof.
  intros H.
  destruct (span isspace s) as [a b] eqn:E. simpl in H. subst b.
  destruct (span_spec _ _ _ _ E) as (_ & _ & Hc). simpl in Hc.
  simpl. unfold nonspace at 1. rewrite Hc. simpl.
  now destruct (span nonspace r).
Qed.

Lemma span_rest_all p s :
  forall_chars p (snd (span p s)) = true -> snd (span p s) = "".
Proof.
  destruct (span p s) as [a b] eqn:E. simpl.
  destruct (span_spec _ _ _ _ E) as (_ & _ & Hc).
  destruct b as [|c b]; [reflexivity|]. simpl in *. now rewrite Hc.
Qed.

Lemma find_words_space s :
  forall_chars isspace s = true -> find_words s = [].
Proof.
  induction s as [|c r IH]; [reflexivity|].
  intros H. rewrite find_words_eq. unfold word_match.
  rewrite (span_all _ _ H). simpl.
  simpl in H. apply andb_prop in H as [_ H]. now apply IH.
Qed.

Lemma find_words_glued s :
  Str.concat "" (map glue (find_words s))
  = if forall_chars isspace s then "" else s.
Proof.
  induction s as [s IH] using string_length_ind.
  destruct (forall_chars isspace s) eqn:Hsp.
  - now rewrite (find_words_space _ Hsp).
  - rewrite find_words_eq.
    destruct (word_match s) as [[[[pre w] post] rest]|] eqn:E.
    + rewrite map_cons, concat_cons_empty_sep.
      rewrite (IH rest (word_match_shorter _ _ _ _ _ E)).
      unfold word_match in E.
      destruct (span isspace s) as [p1 r1] eqn:E1.
      destruct (span nonspace r1) as [w1 r2] eqn:E2.
      destruct (span isspace r2) as [p3 r3] eqn:E3.
      destruct (nonempty w1); [|discriminate].
      injection E as <- <- <- <-.
      destruct (span_spec _ _ _ _ E1) as (-> & _ & _).
      destruct (span_spec _ _ _ _ E2) as (-> & _ & _).
      destruct (span_spec _ _ _ _ E3) as (-> & _ & H3).
      simpl glue. rewrite !append_assoc.
      destruct (forall_chars isspace r3) eqn:H; [|reflexivity].
      destruct r3 as [|c r3]; [reflexivity|].
      simpl in H3, H. now rewrite H3 in H.
    + exfalso. unfold word_match in E.
      destruct (span isspace s) as [p1 r1] eqn:E1.
      destruct r1 as [|c r1].
      * destruct (span_spec _ _ _ _ E1) as (-> & Hp & _).
        rewrite append_nil_r in Hsp. congruence.
      * pose proof (span_nonspace_nonempty s c r1) as Hw.
        rewrite E1 in Hw. specialize (Hw eq_refl).
        destruct (span nonspace (String c r1)) as [w1 r2].
        destruct (span isspace r2) as [p3 r3]. simpl in Hw.
        now rewrite Hw in E.
Qed.

(** X3. The words of a text (line 712) cover it: when the text holds a
    character that is no whitespace, the matches put together again, each
    with the whitespace before and after it, give the text back; a text of
    whitespace only has no word. *)
Theorem X3_find_words_cover s :
  Str.concat "" (map glue (find_words s))
  = if forall_chars isspace s then "" else s.
Proof. exact (find_words_glued s). Qed.

(** The runs are cut at any whitespace of the interpreter, the ideographic
    space U+3000 included. *)
Example find_words_wide :
  find_words hi_there_wide
  = [("", "Hi", String 12288%N ""); ("", "there", "")].
Proof. vm_compute. reflexivity. Qed.

Lemma word_match_none s :
  word_match s = None -> forall_chars isspace s = true.
Proof.
  intros E. unfold word_match in E.
  destruct (span isspace s) as [p1 r1] eqn:E1.
  destruct r1 as [|c r1].
  - destruct (span_spec _ _ _ _ E1) as (-> & Hp & _).
    now rewrite append_nil_r.
  - pose proof (span_nonspace_nonempty s c r1) as Hw.
    rewrite E1 in Hw. specialize (Hw eq_refl).
    destruct (span nonspace (String c r1)) as [w1 r2].
    destruct (span isspace r2) as [p3 r3]. simpl in Hw.
    now rewrite Hw in E.
Qed.

Lemma find_words_shape s :
  Forall word_shaped (find_words s)
  /\ (match s with
      | "" => True
      | String c _ => isspace c = false
      end ->
      Forall (fun m => fst (fst m) = "") (find_words s)).
Proof.
  induction s as [s IH] using string_length_ind.
  rewrite find_words_eq.
  destruct (word_match s) as [[[[pre w] post] rest]|] eqn:E.
  - destruct (IH rest (word_match_shorter _ _ _ _ _ E)) as [IH1 IH2].
    unfold word_match in E.
    destruct (span isspace s) as [p1 r1] eqn:E1.
    destruct (span nonspace r1) as [w1 r2] eqn:E2.
    destruct (span isspace r2) as [p3 r3] eqn:E3.
    destruct (nonempty w1) eqn:Hw; [|discriminate].
    injection E as <- <- <- <-.
    destruct (span_spec _ _ _ _ E1) as (Hs & Hp1 & _).
    destruct (span_spec _ _ _ _ E2) as (_ & Hw1 & _).
    destruct (span_spec _ _ _ _ E3) as (_ & Hp3 & H3).
    assert (Forall (fun m => fst (fst m) = "") (find_words r3)) as Htail.
    { apply IH2. destruct r3 as [|c r3]; [exact I|exact H3]. }
    split.
    + constructor; [|exact IH1]. simpl. auto.
    + intros Hhead. constructor; [|exact Htail]. simpl.
      destruct s as [|c s']; [now inversion E1|].
      simpl in E1. rewrite Hhead in E1. now inversion E1.
  - pose proof (find_words_space _ (word_match_none _ E)) as H.
    rewrite find_words_eq, E in H. rewrite H. split; constructor.
Qed.

Lemma find_words_tail s head tail :
  find_words s = head :: tail ->
  Forall (fun m => fst (fst m) = "") tail.
Proof.
  rewrite find_words_eq.
  destruct (word_match s) as [[[[pre w] post] rest]|] eqn:E.
  - intros [= <- <-]. apply find_words_shape.
    unfold word_match in E.
    destruct (span isspace s) as [p1 r1].
    destruct (span nonspace r1) as [w1 r2].
    destruct (span isspace r2) as [p3 r3] eqn:E3.
    destruct (nonempty w1); [|discriminate].
    injection E as <- <- <- <-.
    destruct (span_spec _ _ _ _ E3) as (_ & _ & H3).
    destruct r3 as [|c r3]; [exact I|exact H3].
  - pose proof (find_words_space _ (word_match_none _ E)) as H.
    rewrite find_words_eq, E in H. rewrite H. discriminate.
Qed.

Lemma respace_app a b : respace (a ++ b) = (respace a ++ respace b)%str.
Proof. induction a as [|c a IH]; simpl; [reflexivity|]. now rewrite IH. Qed.

Lemma respace_space s :
  forall_chars isspace s = true ->
  respace s = repeat_char " "%char (Str.length s).
Proof.
  induction s as [|c s IH]; simpl; [reflexivity|].
  intros H. apply andb_prop in H as [Hc H]. now rewrite Hc, IH.
Qed.

Lemma respace_nonspace s : forall_chars nonspace s = true -> respace s = s.
Proof.
  induction s as [|c s IH]; simpl; [reflexivity|].
  intros H. apply andb_prop in H as [Hc H]. unfold nonspace in Hc.
  destruct (isspace c); [discriminate|]. now rewrite IH.
Qed.

Lemma respace_length s : Str.length (respace s) = Str.length s.
Proof. induction s as [|c s IH]; simpl; [reflexivity|]. now rewrite IH. Qed.

Lemma concat_app_empty_sep a b :
  Str.concat "" (a ++ b)
  = (Str.concat "" a ++ Str.concat "" b)%str.
Proof.
  induction a as [|x a IH]; [reflexivity|].
  rewrite <- app_comm_cons, !concat_cons_empty_sep, IH.
  now rewrite append_assoc.
Qed.

Lemma repeat_char_length c n : Str.length (repeat_char c n) = n.
Proof. induction n as [|n IH]; simpl; [reflexivity|]. now rewrite IH. Qed.

Section Elements.

Context {R : Type} {num : PyNum R} {font : FontProvider R}.

Local Open Scope Z_scope.

(** What [extend_line] returns for a line whose style is defined. *)
Lemma extend_line_ok meta vk styles line st line' :
  styles (Line.style line) = Some st ->
  extend_line meta vk styles line = Ok line' ->
  exists syls0,
    add_syls st (text_chunks (Line.raw_text line)) = Ok syls0
    /\ let text := strip_tags (Line.raw_text line) in
       let a := Style.alignment st in
       let w0 := fst (get_text_extents st text) in
       let h0 := snd (get_text_extents st text) in
       let lpos0 := line_pos meta line st w0 h0 in
       let sw := fst (get_text_extents st " ") in
       let ss := Style.spacing st in
       let words :=
         place_words meta a lpos0 sw ss
           (add_words line (Line.end_time line - Line.start_time line)
              st text) in
       let r := place_syls meta vk a w0 h0 lpos0 sw ss syls0 in
       Line.words line' = Some words
       /\ Line.syls line' = Some (snd r)
       /\ Line.pos line' = snd (fst r)
       /\ Line.chars line'
          = Some (place_chars meta a (snd (fst r)) ss
                    (add_chars st words (snd r))).
Proof.
  intros Hst Hok.
  destruct (add_syls st (text_chunks (Line.raw_text line))) as [syls0|e] eqn:E.
  - exists syls0. split; [reflexivity|].
    destruct (extend_line_shape meta vk styles line st syls0 Hst E)
      as (l2 & H1 & H2).
    rewrite Hok in H1. injection H1 as <-. simpl in H2. simpl.
    destruct H2 as (Hw & Hs & Hp & _ & _ & Hc). auto.
  - unfold extend_line in Hok. rewrite Hst, E in Hok. discriminate.
Qed.

(** A projection that does not look at the coordinates. *)
Lemma map_clear_words {A : Type} (f : Word.t R -> A) (l l' : list (Word.t R)) :
  (forall w, f (Word.clear_pos w) = f w) ->
  map Word.clear_pos l = map Word.clear_pos l' -> map f l = map f l'.
Proof.
  intros Hf H.
  transitivity (map f (map Word.clear_pos l)).
  - rewrite map_map. apply map_ext. intros w. symmetry. apply Hf.
  - rewrite H, map_map. apply map_ext, Hf.
Qed.

Lemma map_clear_syls {A : Type} (f : Syllable.t R -> A)
    (l l' : list (Syllable.t R)) :
  (forall w, f (Syllable.clear_pos w) = f w) ->
  map Syllable.clear_pos l = map Syllable.clear_pos l' -> map f l = map f l'.
Proof.
  intros Hf H.
  transitivity (map f (map Syllable.clear_pos l)).
  - rewrite map_map. apply map_ext. intros w. symmetry. apply Hf.
  - rewrite H, map_map. apply map_ext, Hf.
Qed.

Lemma map_clear_chars {A : Type} (f : Char.t R -> A) (l l' : list (Char.t R)) :
  (forall w, f (Char.clear_pos w) = f w) ->
  map Char.clear_pos l = map Char.clear_pos l' -> map f l = map f l'.
Proof.
  intros Hf H.
  transitivity (map f (map Char.clear_pos l)).
  - rewrite map_map. apply map_ext. intros w. symmetry. apply Hf.
  - rewrite H, map_map. apply map_ext, Hf.
Qed.

(** *** Words *)

Lemma add_words_from_fields line d st wi found :
  map (fun w => (Word.text w, Word.prespace w, Word.postspace w))
    (add_words_from line d st wi found)
  = map (fun m => (snd (fst m), Str.length (fst (fst m)),
                   Str.length (snd m))) found
  /\ map (@Word.i R) (add_words_from line d st wi found)
     = seq wi (List.length found).
Proof.
  revert wi; induction found as [|[[pre w] post] found IH]; intros wi.
  - split; reflexivity.
  - destruct (IH (S wi)) as [IH1 IH2]. simpl.
    destruct (get_text_extents st w) as [ww hh]. simpl.
    now rewrite IH1, IH2.
Qed.

(** X4. The words of a line (lines 708-738): the text of a word is not
    empty and holds no whitespace, and only the first word can have
    whitespace before it, since each word takes all the whitespace that
    follows it. *)
Theorem X4_line_words_shape meta vertical_kanji styles line st line' ws :
  styles (Line.style line) = Some st ->
  extend_line meta vertical_kanji styles line = Ok line' ->
  Line.words line' = Some ws ->
  Forall (fun w => nonempty (Word.text w) = true
                   /\ forall_chars nonspace (Word.text w) = true) ws
  /\ (forall k w, nth_error ws (S k) = Some w -> Word.prespace w = 0%nat).
Proof.
  intros Hst Hok Hws.
  destruct (extend_line_ok _ _ _ _ _ _ Hst Hok) as (syls0 & _ & Hw & _).
  simpl in Hw. rewrite Hws in Hw. injection Hw as ->.
  set (text := strip_tags (Line.raw_text line)).
  set (d := Line.end_time line - Line.start_time line).
  match goal with
  | |- context [place_words ?m ?a ?lp ?sw ?ss ?l] =>
      pose proof (place_words_clear m a lp sw ss l) as Hclear;
      set (placed := place_words m a lp sw ss l) in *
  end.
  destruct (add_words_from_fields line d st 0%nat (find_words text))
    as [Hfields _].
  fold (add_words line d st text) in Hfields.
  assert (map (fun w => (Word.text w, Word.prespace w, Word.postspace w))
            placed
          = map (fun m => (snd (fst m), Str.length (fst (fst m)),
                           Str.length (snd m))) (find_words text))
    as Hplaced.
  { rewrite <- Hfields. apply map_clear_words; [now intros []|exact Hclear]. }
  clearbody placed. clear Hclear Hfields.
  destruct (find_words_shape text) as [Hshape _].
  pose proof (find_words_tail text) as Htail.
  revert placed Hplaced Hshape Htail.
  generalize (find_words text) as found.
  intros found placed Hplaced Hshape Htail. split.
  - clear Htail. revert placed Hplaced.
    induction Hshape as [|[[pre w] post] found (_ & H1 & H2 & _) _ IH];
      intros [|x placed] Hplaced; try discriminate; constructor.
    + simpl in Hplaced. injection Hplaced as -> _ _ _. auto.
    + apply IH. simpl in Hplaced. now injection Hplaced.
  - intros k w Hk.
    destruct found as [|head tail]; [now destruct placed|].
    specialize (Htail _ _ eq_refl).
    destruct placed as [|x placed]; [discriminate|].
    simpl in Hplaced. injection Hplaced as _ _ _ Hplaced.
    simpl in Hk. clear -Hk Hplaced Htail.
    revert k placed Hk Hplaced.
    induction Htail as [|[[pre w'] post] tail Hpre _ IH];
      intros k [|y placed] Hk Hplaced; try discriminate;
      try (now destruct k).
    simpl in Hplaced. injection Hplaced as _ Hp _ Hplaced.
    destruct k as [|k]; simpl in Hk.
    + injection Hk as <-. simpl in Hpre. now rewrite Hp, Hpre.
    + now apply (IH k placed).
Qed.

(** *** Indices *)

Lemma add_syls_loop_inv (I : SylState -> list (Syllable.t R) -> Prop) st :
  (forall tc s acc g s',
     I s acc -> chunk_syls st tc s = Ok (g, s') -> I s' (acc ++ g)%list) ->
  forall tcs s acc syls,
    I s acc -> add_syls_loop st tcs s acc = Ok syls ->
    syls = [] \/ exists s', I s' syls.
Proof.
  intros Hstep. induction tcs as [|tc tcs IH]; intros s acc syls HI; simpl.
  - intros [= <-]. right. now exists s.
  - destruct (syl_tags_match (TextChunk.tags tc)); [|intros [= <-]; now left].
    destruct (chunk_syls st tc s) as [[g s']|e] eqn:E; simpl; [|discriminate].
    apply IH. exact (Hstep _ _ _ _ _ HI E).
Qed.

Lemma peel_indices wi st posttags :
  forall acc si t provs leftover si' t',
    peel wi st posttags acc si t = Ok (provs, leftover, si', t') ->
    exists new,
      provs = (acc ++ new)%list
      /\ map (@Provisional.i R) new = seq si (List.length new)
      /\ si' = (si + List.length new)%nat.
Proof.
  induction posttags as [posttags IH] using string_length_ind.
  intros acc si t provs leftover si' t'. rewrite peel_eq.
  destruct (syl_tags_match posttags) as [[[pre d] rest]|] eqn:E.
  - cbv zeta. destruct wi as [wi|]; [|discriminate].
    intros H.
    destruct (IH rest (syl_tags_match_shorter _ _ _ _ E) _ _ _ _ _ _ _ H)
      as (new & -> & Hnew & ->).
    eexists (_ :: new). split; [now rewrite <- app_assoc|].
    simpl. rewrite Hnew. split; [reflexivity|lia].
  - intros [= <- _ <- _]. exists [].
    split; [now rewrite app_nil_r|]. split; [reflexivity|simpl; lia].
Qed.

Lemma finish_hiddens_fields fx ps :
  map (@Syllable.i R) (fst (finish_hiddens fx ps))
  = map (@Provisional.i R) ps.
Proof.
  pose proof (finish_hiddens_spec fx ps) as H.
  induction H as [|p h ps hs ((Hi & _) & _) _ IH]; [reflexivity|].
  simpl. now rewrite Hi, IH.
Qed.

Lemma finish_last_fields fx leftover text p l fx' :
  finish_last fx leftover text p = Ok (l, fx') ->
  Syllable.i l = Provisional.i p
  /\ Syllable.inline_fx l = update_inline_fx fx (Syllable.tags l)
  /\ fx' = Syllable.inline_fx l.
Proof.
  unfold finish_last.
  destruct (split_text text) as [[[pre core] post]|e]; simpl; [|discriminate].
  destruct (get_text_extents (Provisional.styleref p) core) as [w h].
  intros [= <- <-]. simpl. auto.
Qed.

Lemma chunk_syls_indices st tc s g s' :
  chunk_syls st tc s = Ok (g, s') ->
  map (@Syllable.i R) g = seq (si s) (List.length g)
  /\ si s' = (si s + List.length g)%nat.
Proof.
  unfold chunk_syls.
  destruct (peel (TextChunk.word_i tc) st (TextChunk.tags tc) [] (si s)
              (last_time s)) as [[[[provs leftover] si'] t']|e] eqn:E;
    simpl; [|discriminate].
  destruct (peel_indices _ _ _ _ _ _ _ _ _ _ E) as (new & Hp & Hnew & Hsi).
  simpl in Hp. subst new.
  destruct (rev provs) as [|last_syl before] eqn:Er; [discriminate|].
  pose proof (finish_hiddens_fields (inline_fx s) (rev before)) as Hh.
  destruct (finish_hiddens (inline_fx s) (rev before)) as [hidden fx].
  simpl in Hh.
  destruct (finish_last fx leftover (TextChunk.text tc) last_syl)
    as [[l fx']|e] eqn:El; simpl; [|discriminate].
  intros [= <- <-]. simpl.
  destruct (finish_last_fields _ _ _ _ _ _ El) as (Hi & _).
  assert (provs = (rev before ++ [last_syl])%list) as Hprovs.
  { rewrite <- (rev_involutive provs), Er. reflexivity. }
  assert (List.length (hidden ++ [l]) = List.length provs) as Hlen.
  { rewrite Hprovs, !length_app, <- (length_map (@Syllable.i R) hidden), Hh.
    now rewrite length_map. }
  split; [|lia].
  rewrite Hlen, <- Hnew, Hprovs, !map_app, Hh. simpl. now rewrite Hi.
Qed.

Lemma add_syls_indices st tcs syls :
  add_syls st tcs = Ok syls ->
  map (@Syllable.i R) syls = seq 0 (List.length syls).
Proof.
  intros H.
  destruct (add_syls_loop_inv
              (fun s acc => map (@Syllable.i R) acc = seq 0 (List.length acc)
                            /\ si s = List.length acc) st) with
    (tcs := tcs) (s := mkSylState 0%nat 0%Z "") (acc := @nil (Syllable.t R))
    (syls := syls) as [-> | (s' & Hs & _)]; auto.
  intros tc s acc g s' (Hacc & Hsi) E.
  destruct (chunk_syls_indices _ _ _ _ _ E) as (Hg & Hs').
  rewrite map_app, length_app, seq_app, Hacc, Hg, Hsi. simpl. split; auto.
  lia.
Qed.

Lemma chars_of_el_indices (build : nat -> nat -> str -> Char.t R) ci n t :
  (forall a b c, Char.i (build a b c) = b) ->
  map (@Char.i R) (chars_of_el build ci n t) = seq n (Str.length t)
  /\ List.length (chars_of_el build ci n t) = Str.length t.
Proof.
  intros Hb. revert ci n; induction t as [|c t IH]; intros ci n; simpl.
  - auto.
  - destruct (IH (S ci) (S n)) as [IH1 IH2]. now rewrite Hb, IH1, IH2.
Qed.

Lemma char_of_syl_i st el ci n t : Char.i (char_of_syl st el ci n t) = n.
Proof.
  unfold char_of_syl. now destruct (get_text_extents st t).
Qed.

Lemma char_of_word_i st el ci n t : Char.i (char_of_word st el ci n t) = n.
Proof.
  unfold char_of_word. now destruct (get_text_extents st t).
Qed.

Lemma chars_of_syls_indices st n syls :
  map (@Char.i R) (chars_of_syls st n syls)
  = seq n (List.length (chars_of_syls st n syls)).
Proof.
  revert n; induction syls as [|el syls IH]; intros n; [reflexivity|].
  simpl.
  destruct (chars_of_el_indices (char_of_syl st el) 0 n
              (el_text (Syllable.prespace el) (Syllable.text el)
                 (Syllable.postspace el)) (char_of_syl_i st el)) as [H1 H2].
  now rewrite map_app, length_app, seq_app, H1, H2, IH.
Qed.

Lemma chars_of_words_indices st n ws :
  map (@Char.i R) (chars_of_words st n ws)
  = seq n (List.length (chars_of_words st n ws)).
Proof.
  revert n; induction ws as [|el ws IH]; intros n; [reflexivity|].
  simpl.
  destruct (chars_of_el_indices (char_of_word st el) 0 n
              (el_text (Word.prespace el) (Word.text el)
                 (Word.postspace el)) (char_of_word_i st el)) as [H1 H2].
  now rewrite map_app, length_app, seq_app, H1, H2, IH.
Qed.

Lemma length_clear_chars (l l' : list (Char.t R)) :
  map Char.clear_pos l = map Char.clear_pos l' ->
  List.length l = List.length l'.
Proof.
  intros H. now rewrite <- (length_map Char.clear_pos l), H, length_map.
Qed.

(** X5. The index each Word, Syllable and Char carries is its position in
    the list of the line: [words[k].i], [syls[k].i] and [chars[k].i] are all
    [k] (lines 717, 932 and 1046). *)
Theorem X5_element_indices meta vertical_kanji styles line st line' :
  styles (Line.style line) = Some st ->
  extend_line meta vertical_kanji styles line = Ok line' ->
  exists ws syls cs,
    Line.words line' = Some ws
    /\ Line.syls line' = Some syls
    /\ Line.chars line' = Some cs
    /\ map (@Word.i R) ws = seq 0 (List.length ws)
    /\ map (@Syllable.i R) syls = seq 0 (List.length syls)
    /\ map (@Char.i R) cs = seq 0 (List.length cs).
Proof.
  intros Hst Hok.
  destruct (extend_line_ok _ _ _ _ _ _ Hst Hok)
    as (syls0 & Hsyls0 & Hw & Hs & _ & Hc).
  cbv zeta in Hw, Hs, Hc.
  set (text := strip_tags (Line.raw_text line)) in *.
  set (d := Line.end_time line - Line.start_time line) in *.
  set (w0 := fst (get_text_extents st text)) in *.
  set (h0 := snd (get_text_extents st text)) in *.
  set (sw := fst (get_text_extents st " ")) in *.
  set (lpos0 := line_pos meta line st w0 h0) in *.
  pose proof (place_words_clear meta (Style.alignment st) lpos0 sw
                (Style.spacing st) (add_words line d st text)) as Hcw.
  set (ws := place_words meta (Style.alignment st) lpos0 sw
               (Style.spacing st) (add_words line d st text)) in *.
  pose proof (place_syls_clear meta vertical_kanji (Style.alignment st) w0 h0
                lpos0 sw (Style.spacing st) syls0) as Hcs.
  set (r := place_syls meta vertical_kanji (Style.alignment st) w0 h0
              lpos0 sw (Style.spacing st) syls0) in *.
  pose proof (place_chars_clear meta (Style.alignment st) (snd (fst r))
                (Style.spacing st) (add_chars st ws (snd r))) as Hcc.
  set (cs := place_chars meta (Style.alignment st) (snd (fst r))
               (Style.spacing st) (add_chars st ws (snd r))) in *.
  exists ws, (snd r), cs. repeat (split; [assumption|]). repeat split.
  - rewrite <- (length_map Word.clear_pos ws), Hcw, length_map.
    rewrite (map_clear_words (@Word.i R) _ _ (fun w => eq_refl) Hcw).
    destruct (add_words_from_fields line d st 0%nat (find_words text))
      as [_ Hi].
    unfold add_words. rewrite Hi.
    f_equal. clear. generalize 0%nat.
    induction (find_words text) as [|[[p w] q] l IH]; intros n; simpl;
      [reflexivity|].
    destruct (get_text_extents st w). simpl. now rewrite <- IH.
  - rewrite <- (length_map Syllable.clear_pos (snd r)), Hcs, length_map.
    rewrite (map_clear_syls (@Syllable.i R) _ _ (fun w => eq_refl) Hcs).
    exact (add_syls_indices _ _ _ Hsyls0).
  - rewrite (length_clear_chars _ _ Hcc).
    rewrite (map_clear_chars (@Char.i R) _ _ (fun w => eq_refl) Hcc).
    unfold add_chars. destruct (snd r).
    + apply chars_of_words_indices.
    + apply chars_of_syls_indices.
Qed.

(** *** Characters *)

Lemma chars_of_el_texts (build : nat -> nat -> str -> Char.t R) ci n t :
  (forall a b c, Char.text (build a b c) = c) ->
  Str.concat "" (map (@Char.text R) (chars_of_el build ci n t)) = t
  /\ Forall one_character (chars_of_el build ci n t).
Proof.
  intros Hb. revert ci n; induction t as [|c t IH]; intros ci n.
  - split; [reflexivity|constructor].
  - destruct (IH (S ci) (S n)) as [IH1 IH2]. simpl chars_of_el.
    rewrite map_cons, concat_cons_empty_sep, Hb, IH1. split; [reflexivity|].
    constructor; [|exact IH2]. unfold one_character. now rewrite Hb.
Qed.

Lemma char_of_syl_text st el ci n t :
  Char.text (char_of_syl st el ci n t) = t.
Proof. unfold char_of_syl. now destruct (get_text_extents st t). Qed.

Lemma char_of_word_text st el ci n t :
  Char.text (char_of_word st el ci n t) = t.
Proof. unfold char_of_word. now destruct (get_text_extents st t). Qed.

Lemma chars_of_words_texts st n ws :
  Str.concat "" (map (@Char.text R) (chars_of_words st n ws))
  = Str.concat "" (map word_el_text ws)
  /\ Forall one_character (chars_of_words st n ws).
Proof.
  revert n; induction ws as [|el ws IH]; intros n.
  - split; [reflexivity|constructor].
  - destruct (IH (n + Str.length (word_el_text el))%nat) as [IH1 IH2].
    destruct (chars_of_el_texts (char_of_word st el) 0 n (word_el_text el)
                (char_of_word_text st el)) as [H1 H2].
    simpl chars_of_words. fold (word_el_text el).
    rewrite map_app, concat_app_empty_sep, H1, IH1, map_cons,
      concat_cons_empty_sep.
    split; [reflexivity|]. apply Forall_app. now split.
Qed.

Lemma chars_of_syls_texts st n syls :
  Str.concat "" (map (@Char.text R) (chars_of_syls st n syls))
  = Str.concat "" (map syl_el_text syls)
  /\ Forall one_character (chars_of_syls st n syls).
Proof.
  revert n; induction syls as [|el syls IH]; intros n.
  - split; [reflexivity|constructor].
  - destruct (IH (n + Str.length (syl_el_text el))%nat) as [IH1 IH2].
    destruct (chars_of_el_texts (char_of_syl st el) 0 n (syl_el_text el)
                (char_of_syl_text st el)) as [H1 H2].
    simpl chars_of_syls. fold (syl_el_text el).
    rewrite map_app, concat_app_empty_sep, H1, IH1, map_cons,
      concat_cons_empty_sep.
    split; [reflexivity|]. apply Forall_app. now split.
Qed.

Lemma words_respace (found : list (str * str * str)) :
  Forall word_shaped found ->
  Str.concat ""
    (map (fun m => el_text (Str.length (fst (fst m))) (snd (fst m))
                     (Str.length (snd m))) found)
  = respace (Str.concat "" (map glue found)).
Proof.
  induction 1 as [|[[pre w] post] found (H1 & _ & H2 & H3) _ IH];
    [reflexivity|].
  rewrite !map_cons, !concat_cons_empty_sep, IH, respace_app.
  f_equal. simpl. unfold el_text.
  now rewrite !respace_app, (respace_space _ H1), (respace_space _ H3),
    (respace_nonspace _ H2).
Qed.

Lemma one_character_clear (l l' : list (Char.t R)) :
  map Char.clear_pos l = map Char.clear_pos l' ->
  Forall one_character l' -> Forall one_character l.
Proof.
  intros H HF.
  pose proof (map_clear_chars (@Char.text R) _ _ (fun w => eq_refl) H) as Ht.
  apply (proj1 (Forall_map (@Char.text R)
                  (fun t => Str.length t = 1%nat) l)).
  rewrite Ht. apply Forall_map. exact HF.
Qed.

(** The words of the line, by the matches of line 712. *)
Lemma line_words_fields meta vk styles line st line' ws :
  styles (Line.style line) = Some st ->
  extend_line meta vk styles line = Ok line' ->
  Line.words line' = Some ws ->
  map (fun w => (Word.text w, Word.prespace w, Word.postspace w)) ws
  = map (fun m => (snd (fst m), Str.length (fst (fst m)),
                   Str.length (snd m)))
      (find_words (strip_tags (Line.raw_text line))).
Proof.
  intros Hst Hok Hws.
  destruct (extend_line_ok _ _ _ _ _ _ Hst Hok) as (syls0 & _ & Hw & _).
  simpl in Hw. rewrite Hws in Hw. injection Hw as ->.
  destruct (add_words_from_fields line
              (Line.end_time line - Line.start_time line) st 0%nat
              (find_words (strip_tags (Line.raw_text line)))) as [<- _].
  apply map_clear_words; [now intros []|]. apply place_words_clear.
Qed.

Lemma line_words_text meta vk styles line st line' ws :
  styles (Line.style line) = Some st ->
  extend_line meta vk styles line = Ok line' ->
  Line.words line' = Some ws ->
  Str.concat "" (map word_el_text ws)
  = if forall_chars isspace (strip_tags (Line.raw_text line)) then ""
    else respace (strip_tags (Line.raw_text line)).
Proof.
  intros Hst Hok Hws.
  pose proof (line_words_fields _ _ _ _ _ _ _ Hst Hok Hws) as Hf.
  set (text := strip_tags (Line.raw_text line)) in *.
  transitivity
    (Str.concat ""
       (map (fun m => el_text (Str.length (fst (fst m))) (snd (fst m))
                        (Str.length (snd m))) (find_words text))).
  - f_equal.
    transitivity
      (map (fun x : str * nat * nat =>
              el_text (snd (fst x)) (fst (fst x)) (snd x))
         (map (fun w => (Word.text w, Word.prespace w, Word.postspace w)) ws)).
    + now rewrite map_map.
    + now rewrite Hf, map_map.
  - rewrite (words_respace _ (proj1 (find_words_shape text))).
    rewrite find_words_glued. now destruct (forall_chars isspace text).
Qed.

Lemma word_chars_text meta vertical_kanji styles line st line' cs :
  styles (Line.style line) = Some st ->
  extend_line meta vertical_kanji styles line = Ok line' ->
  Line.syls line' = Some [] ->
  Line.chars line' = Some cs ->
  Str.concat "" (map (@Char.text R) cs)
  = (if forall_chars isspace (strip_tags (Line.raw_text line)) then ""
     else respace (strip_tags (Line.raw_text line)))
  /\ Forall one_character cs.
Proof.
  intros Hst Hok Hsyls Hcs.
  destruct (extend_line_ok _ _ _ _ _ _ Hst Hok)
    as (syls0 & _ & Hw & Hs & _ & Hc).
  cbv zeta in Hw, Hs, Hc. rewrite Hsyls in Hs. injection Hs as Hs.
  rewrite <- Hs in Hc. rewrite Hcs in Hc. injection Hc as ->.
  pose proof (line_words_text _ _ _ _ _ _ _ Hst Hok Hw) as Htext.
  match goal with
  | |- context [place_chars ?m ?a ?lp ?ss ?l] =>
      pose proof (place_chars_clear m a lp ss l) as Hclear;
      set (placed := place_chars m a lp ss l) in *
  end.
  simpl add_chars in Hclear.
  match type of Hclear with
  | _ = map _ (chars_of_words _ _ ?ws) =>
      destruct (chars_of_words_texts st 0 ws) as [H1 H2]
  end.
  split.
  - rewrite (map_clear_chars (@Char.text R) _ _ (fun w => eq_refl) Hclear).
    now rewrite H1.
  - exact (one_character_clear _ _ Hclear H2).
Qed.

(** X6. A line without karaoke syllables is spelled by its Chars (lines
    1026-1071): their texts, one character each, put one after the other give
    [line.text] with every whitespace character turned into a blank; a text
    of whitespace only gives no Char at all. *)
Theorem X6_chars_spell_text meta vertical_kanji styles line st line' cs :
  styles (Line.style line) = Some st ->
  extend_line meta vertical_kanji styles line = Ok line' ->
  Line.syls line' = Some [] ->
  Line.chars line' = Some cs ->
  Str.concat "" (map (@Char.text R) cs)
  = (if forall_chars isspace (strip_tags (Line.raw_text line)) then ""
     else respace (strip_tags (Line.raw_text line)))
  /\ Forall one_character cs.
Proof. exact (word_chars_text meta vertical_kanji styles line st line' cs). Qed.

Lemma concat_length_sum (l : list str) :
  Str.length (Str.concat "" l) = list_sum (map Str.length l).
Proof.
  induction l as [|x l IH]; [reflexivity|].
  now rewrite concat_cons_empty_sep, append_length, IH.
Qed.

Lemma one_character_count (l : list (Char.t R)) :
  Forall one_character l ->
  List.length l = Str.length (Str.concat "" (map (@Char.text R) l)).
Proof.
  induction 1 as [|c l Hc _ IH]; [reflexivity|].
  rewrite map_cons, concat_cons_empty_sep, append_length, <- IH.
  unfold one_character in Hc. rewrite Hc. reflexivity.
Qed.

Lemma el_text_length pre t post :
  Str.length (el_text pre t post) = (pre + Str.length t + post)%nat.
Proof.
  unfold el_text. rewrite !append_length, !repeat_char_length. lia.
Qed.

Lemma chunk_group_text_length tc (g : list (Syllable.t R)) :
  chunk_group tc g ->
  Str.length (Str.concat "" (map syl_el_text g))
  = Str.length (TextChunk.text tc).
Proof.
  intros (_ & _ & hidden & l & -> & Hh & (Hsp & Hns) & _).
  rewrite map_app, concat_app_empty_sep, append_length.
  assert (Str.length (Str.concat "" (map syl_el_text hidden)) = 0%nat)
    as ->.
  { induction Hh as [|h hidden (H1 & H2 & H3) _ IH]; [reflexivity|].
    rewrite map_cons, concat_cons_empty_sep, append_length, IH.
    unfold syl_el_text. rewrite el_text_length, H1, H2, H3. reflexivity. }
  simpl. unfold syl_el_text. rewrite el_text_length.
  destruct (str_isspace (TextChunk.text tc)) eqn:E.
  - destruct (Hsp eq_refl) as (-> & -> & ->). lia.
  - destruct (Hns eq_refl) as (pre & post & -> & _ & _ & -> & -> & _).
    rewrite !append_length. lia.
Qed.

Lemma chunk_groups_text_length tcs (groups : list (list (Syllable.t R))) :
  Forall2 chunk_group tcs groups ->
  Str.length (Str.concat "" (map syl_el_text (List.concat groups)))
  = Str.length (Str.concat "" (map TextChunk.text tcs)).
Proof.
  induction 1 as [|tc g tcs groups Hg _ IH]; [reflexivity|].
  simpl List.concat.
  rewrite map_app, concat_app_empty_sep, map_cons, concat_cons_empty_sep,
    !append_length, IH.
  now rewrite (chunk_group_text_length _ _ Hg).
Qed.

(** X7. The Chars of a line are as many as the characters of [line.text]
    (lines 1026-1071), with one exception: a line without karaoke syllables
    whose text is whitespace only has no Char. *)
Theorem X7_chars_count meta vertical_kanji styles line st :
  styles (Line.style line) = Some st ->
  no_newline (Line.raw_text line) ->
  exists line' syls cs,
    extend_line meta vertical_kanji styles line = Ok line'
    /\ Line.syls line' = Some syls
    /\ Line.chars line' = Some cs
    /\ Forall one_character cs
    /\ List.length cs
       = match syls with
         | [] =>
             if forall_chars isspace (strip_tags (Line.raw_text line))
             then 0%nat
             else Str.length (strip_tags (Line.raw_text line))
         | _ :: _ => Str.length (strip_tags (Line.raw_text line))
         end.
Proof.
  intros Hst Hraw.
  destruct (extend_line_syls meta vertical_kanji styles line st Hst Hraw)
    as (line' & syls & Hok & Hsyls & Hempty & Hfull).
  destruct (extend_line_ok _ _ _ _ _ _ Hst Hok)
    as (syls0 & _ & Hw & Hs & _ & Hc).
  cbv zeta in Hw, Hs, Hc. rewrite Hsyls in Hs. injection Hs as Hs.
  rewrite <- Hs in Hc.
  match type of Hc with
  | _ = Some (place_chars ?m ?a ?lp ?ss ?l) =>
      pose proof (place_chars_clear m a lp ss l) as Hclear;
      set (cs := place_chars m a lp ss l) in *
  end.
  exists line', syls, cs. repeat (split; [assumption|]).
  destruct (chunks_ktags_dec (text_chunks (Line.raw_text line))) as [H|H].
  - specialize (Hempty H). subst syls.
    destruct (word_chars_text _ _ _ _ _ _ _ Hst Hok Hsyls Hc) as [Ht H1].
    split; [exact H1|].
    rewrite (one_character_count _ H1), Ht.
    destruct (forall_chars isspace _); [reflexivity|apply respace_length].
  - destruct (Hfull H) as (groups & Hg & Hgroups & _).
    assert (syls <> []) as Hne.
    { intros ->. pose proof (text_chunks_nonempty (Line.raw_text line)) as Hn.
      destruct Hgroups as [|tc g tcs gs (Hlen & _) _]; [now apply Hn|].
      destruct g; [|discriminate].
      apply (H tc); [now left|]. now rewrite <- Hlen. }
    destruct syls as [|s0 syls]; [congruence|].
    unfold add_chars in Hclear.
    destruct (chars_of_syls_texts st 0 (s0 :: syls)) as [H1 H2].
    pose proof (one_character_clear _ _ Hclear H2) as Hone.
    split; [exact Hone|].
    rewrite (one_character_count _ Hone).
    rewrite (map_clear_chars (@Char.text R) _ _ (fun w => eq_refl) Hclear).
    rewrite H1, Hg, (chunk_groups_text_length _ _ Hgroups).
    now rewrite text_chunks_texts.
Qed.

(** *** Inline effects *)

Lemma fx_chain_app fx a b :
  fx_chain fx (a ++ b)
  = (fx_chain fx a ++ fx_chain (fold_left update_inline_fx a fx) b)%list.
Proof.
  revert fx; induction a as [|t a IH]; intros fx; simpl; [reflexivity|].
  now rewrite IH.
Qed.

Lemma finish_hiddens_fx fx ps :
  map (@Syllable.inline_fx R) (fst (finish_hiddens fx ps))
  = fx_chain fx (map (@Syllable.tags R) (fst (finish_hiddens fx ps)))
  /\ snd (finish_hiddens fx ps)
     = fold_left update_inline_fx
         (map (@Syllable.tags R) (fst (finish_hiddens fx ps))) fx.
Proof.
  revert fx; induction ps as [|p ps IH]; intros fx; [split; reflexivity|].
  simpl. unfold finish_hidden.
  destruct (get_text_extents (Provisional.styleref p) "") as [w h].
  destruct (IH (update_inline_fx fx (Provisional.tags p))) as [IH1 IH2].
  destruct (finish_hiddens (update_inline_fx fx (Provisional.tags p)) ps)
    as [hs fx'].
  simpl in *. now rewrite IH1, IH2.
Qed.

Lemma chunk_syls_fx st tc s g s' :
  chunk_syls st tc s = Ok (g, s') ->
  map (@Syllable.inline_fx R) g
  = fx_chain (inline_fx s) (map (@Syllable.tags R) g)
  /\ inline_fx s'
     = fold_left update_inline_fx (map (@Syllable.tags R) g) (inline_fx s).
Proof.
  unfold chunk_syls.
  destruct (peel _ _ _ _ _ _) as [[[[provs leftover] si'] t']|e];
    simpl; [|discriminate].
  destruct (rev provs) as [|last_syl before]; [discriminate|].
  destruct (finish_hiddens_fx (inline_fx s) (rev before)) as [H1 H2].
  destruct (finish_hiddens (inline_fx s) (rev before)) as [hidden fx].
  simpl in H1, H2.
  destruct (finish_last fx leftover (TextChunk.text tc) last_syl)
    as [[l fx']|e] eqn:El; simpl; [|discriminate].
  intros [= <- <-]. simpl.
  destruct (finish_last_fields _ _ _ _ _ _ El) as (_ & Hl & ->).
  rewrite !map_app, fx_chain_app, fold_left_app, <- H2, H1. simpl.
  now rewrite Hl.
Qed.

(** X8. The inline effect of a syllable (lines 871-874 and 893-896) is the
    name that follows the first inline-effect tag of its tags; a syllable
    whose tags carry none takes the inline effect of the syllable before it,
    and the first syllable of the line starts from the empty name. *)
Theorem X8_inline_fx_carried meta vertical_kanji styles line st line' syls :
  styles (Line.style line) = Some st ->
  extend_line meta vertical_kanji styles line = Ok line' ->
  Line.syls line' = Some syls ->
  map (@Syllable.inline_fx R) syls
  = fx_chain "" (map (@Syllable.tags R) syls).
Proof.
  intros Hst Hok Hsyls.
  destruct (extend_line_ok _ _ _ _ _ _ Hst Hok)
    as (syls0 & Hsyls0 & _ & Hs & _).
  cbv zeta in Hs. rewrite Hsyls in Hs. injection Hs as ->.
  match goal with
  | |- context [place_syls ?m ?vk ?a ?w ?h ?lp ?sw ?ss ?l] =>
      pose proof (place_syls_clear m vk a w h lp sw ss l) as Hclear;
      set (r := place_syls m vk a w h lp sw ss l) in *
  end.
  rewrite (map_clear_syls (@Syllable.inline_fx R) _ _ (fun w => eq_refl)
             Hclear).
  rewrite (map_clear_syls (@Syllable.tags R) _ _ (fun w => eq_refl) Hclear).
  destruct (add_syls_loop_inv
              (fun s acc =>
                 map (@Syllable.inline_fx R) acc
                 = fx_chain "" (map (@Syllable.tags R) acc)
                 /\ inline_fx s
                    = fold_left update_inline_fx
                        (map (@Syllable.tags R) acc) "") st) with
    (tcs := text_chunks (Line.raw_text line))
    (s := mkSylState 0%nat 0%Z "") (acc := @nil (Syllable.t R))
    (syls := syls0) as [-> | (s' & Hs' & _)]; auto.
  intros tc s acc g s' (Hacc & Hfx) E.
  destruct (chunk_syls_fx _ _ _ _ _ E) as (Hg & Hs').
  rewrite !map_app, fx_chain_app, fold_left_app, <- Hfx, Hacc, Hg.
  split; [reflexivity|exact Hs'].
Qed.

(** *** The box of an element *)

Lemma column_x_middle a (l c r : R) :
  4 <= a <= 6 ->
  (if a =? 4 then l else if a =? 5 then c else r) = column_x a l c r.
Proof.
  intros H. assert (a = 4 \/ a = 5 \/ a = 6) as [-> | [-> | ->]] by lia;
    reflexivity.
Qed.

Lemma walk_words_boxed a lp sw ss cur_x ws :
  Forall (fun w => boxed a (Word.width w) (Word.pos w))
    (walk_words a lp sw ss cur_x ws).
Proof.
  revert cur_x; induction ws as [|w ws IH]; intros cur_x; simpl;
    constructor; [|apply IH].
  simpl. auto.
Qed.

Lemma walk_syls_boxed a lp sw ss cur_x syls :
  Forall (fun s => boxed a (Syllable.width s) (Syllable.pos s))
    (walk_syls a lp sw ss cur_x syls).
Proof.
  revert cur_x; induction syls as [|w ws IH]; intros cur_x; simpl;
    constructor; [|apply IH].
  simpl. auto.
Qed.

Lemma walk_chars_boxed a lp ss cur_x cs :
  Forall (fun c => boxed a (Char.width c) (Char.pos c))
    (walk_chars a lp ss cur_x cs).
Proof.
  revert cur_x; induction cs as [|w ws IH]; intros cur_x; simpl;
    constructor; [|apply IH].
  simpl. auto.
Qed.

Lemma stack_words_boxed meta a lp mw cur_y ws :
  4 <= a <= 6 ->
  Forall (fun w => boxed a (Word.width w) (Word.pos w))
    (stack_words meta a lp mw cur_y ws).
Proof.
  intros Ha. revert cur_y; induction ws as [|w ws IH]; intros cur_y; simpl;
    constructor; [|apply IH].
  simpl. repeat split. apply column_x_middle, Ha.
Qed.

Lemma stack_syls_boxed a lp mw cur_y syls :
  4 <= a <= 6 ->
  Forall (fun s => boxed a (Syllable.width s) (Syllable.pos s))
    (stack_syls a lp mw cur_y syls).
Proof.
  intros Ha. revert cur_y; induction syls as [|w ws IH]; intros cur_y; simpl;
    constructor; [|apply IH].
  simpl. repeat split. apply column_x_middle, Ha.
Qed.

Lemma stack_chars_boxed meta a lp mw cur_y cs :
  4 <= a <= 6 ->
  Forall (fun c => boxed a (Char.width c) (Char.pos c))
    (stack_chars meta a lp mw cur_y cs).
Proof.
  intros Ha. revert cur_y; induction cs as [|w ws IH]; intros cur_y; simpl;
    constructor; [|apply IH].
  simpl. repeat split. apply column_x_middle, Ha.
Qed.

Lemma place_words_boxed meta a lpos sw ss ws :
  Forall (fun w => Word.pos w = None) ws ->
  Forall (fun w => boxed a (Word.width w) (Word.pos w))
    (place_words meta a lpos sw ss ws).
Proof.
  intros Hnone.
  assert (Forall (fun w => boxed a (Word.width w) (Word.pos w)) ws) as H0.
  { eapply Forall_impl; [|exact Hnone]. intros w Hw. now rewrite Hw. }
  unfold place_words. destruct ws as [|w ws]; [constructor|].
  destruct lpos as [lp|]; [|exact H0].
  unfold position_words.
  destruct ((a >? 6) || (a <? 4)) eqn:E; [apply walk_words_boxed|].
  destruct (stack_extent _) as [mw sh].
  apply stack_words_boxed. now apply middle_row_test.
Qed.

Lemma place_syls_boxed meta vk a w h lpos sw ss syls :
  Forall (fun s => Syllable.pos s = None) syls ->
  Forall (fun s => boxed a (Syllable.width s) (Syllable.pos s))
    (snd (place_syls meta vk a w h lpos sw ss syls)).
Proof.
  intros Hnone.
  assert (Forall (fun s => boxed a (Syllable.width s) (Syllable.pos s)) syls)
    as H0.
  { eapply Forall_impl; [|exact Hnone]. intros s Hs. now rewrite Hs. }
  unfold place_syls. destruct syls as [|s syls]; [constructor|].
  destruct lpos as [lp|]; [|exact H0].
  unfold position_syls.
  destruct ((a >? 6) || (a <? 4) || negb vk) eqn:E;
    [apply walk_syls_boxed|].
  destruct (stack_extent _) as [mw sh]. cbn [snd].
  apply stack_syls_boxed. now apply syl_stack_test in E.
Qed.

Lemma place_chars_boxed meta a lpos ss cs :
  Forall (fun c => Char.pos c = None) cs ->
  Forall (fun c => boxed a (Char.width c) (Char.pos c))
    (place_chars meta a lpos ss cs).
Proof.
  intros Hnone.
  assert (Forall (fun c => boxed a (Char.width c) (Char.pos c)) cs) as H0.
  { eapply Forall_impl; [|exact Hnone]. intros c Hc. now rewrite Hc. }
  unfold place_chars. destruct cs as [|c cs]; [constructor|].
  destruct lpos as [lp|]; [|exact H0].
  unfold position_chars.
  destruct ((a >? 6) || (a <? 4)) eqn:E; [apply walk_chars_boxed|].
  destruct (stack_extent _) as [mw sh].
  apply stack_chars_boxed. now apply middle_row_test.
Qed.

(** X9. Whatever branch places it (lines 741-806, 942-1024, 1074-1128), a
    Word, Syllable or Char that has coordinates has them fit its width:
    [center = left + width / 2], [right = left + width], and [x] is [left],
    [center] or [right] by the column of the alignment of the style. *)
Theorem X9_element_boxes meta vertical_kanji styles line st line' :
  styles (Line.style line) = Some st ->
  extend_line meta vertical_kanji styles line = Ok line' ->
  exists ws syls cs,
    Line.words line' = Some ws
    /\ Line.syls line' = Some syls
    /\ Line.chars line' = Some cs
    /\ Forall (fun w => boxed (Style.alignment st) (Word.width w)
                          (Word.pos w)) ws
    /\ Forall (fun s => boxed (Style.alignment st) (Syllable.width s)
                          (Syllable.pos s)) syls
    /\ Forall (fun c => boxed (Style.alignment st) (Char.width c)
                          (Char.pos c)) cs.
Proof.
  intros Hst Hok.
  destruct (extend_line_ok _ _ _ _ _ _ Hst Hok)
    as (syls0 & Hsyls0 & Hw & Hs & _ & Hc).
  cbv zeta in Hw, Hs, Hc.
  eexists _, _, _. repeat (split; [eassumption|]). repeat split.
  - apply place_words_boxed, add_words_from_pos.
  - apply place_syls_boxed. exact (add_syls_pos _ _ _ Hsyls0).
  - apply place_chars_boxed, add_chars_pos.
Qed.

End Elements.

(** ** Text primitives of the parser *)

Lemma forall_chars_and p q s :
  forall_chars (fun c => p c && q c) s
  = forall_chars p s && forall_chars q s.
Proof.
  induction s as [|c s IH]; simpl; [reflexivity|]. rewrite IH.
  destruct (p c), (q c), (forall_chars p s), (forall_chars q s); reflexivity.
Qed.

Lemma at_end_cases e : at_end e = true -> e = "" \/ e = String newline "".
Proof.
  destruct e as [|c [|d e]]; simpl; auto; [|discriminate].
  intros H. apply N.eqb_eq in H. subst. auto.
Qed.

Lemma span_app_stop p s e :
  forall_chars p s = true ->
  match e with
  | "" => True
  | String c _ => p c = false
  end ->
  span p (s ++ e) = (s, e).
Proof.
  intros Hs He. induction s as [|c s IH]; simpl.
  - destruct e as [|c e]; [reflexivity|]. simpl. now rewrite He.
  - simpl in Hs. apply andb_prop in Hs as [Hc Hs]. now rewrite Hc, IH.
Qed.

Lemma span_dot_line s e :
  forall_chars dot s = true -> at_end e = true -> span dot (s ++ e) = (s, e).
Proof.
  intros Hs He. apply span_app_stop; [exact Hs|].
  destruct (at_end_cases _ He) as [-> | ->]; [exact I|reflexivity].
Qed.

Lemma rstrip_by_keep p s :
  forall_chars (fun c => negb (p c)) s = true -> rstrip_by p s = s.
Proof.
  induction s as [|c s IH]; simpl; [reflexivity|].
  intros H. apply andb_prop in H as [Hc H]. rewrite (IH H).
  destruct s; [|reflexivity]. now destruct (p c).
Qed.

Lemma rstrip_by_end p s e :
  forall_chars (fun c => negb (p c)) s = true ->
  forall_chars p e = true ->
  rstrip_by p (s ++ e) = s.
Proof.
  intros Hs He.
  assert (rstrip_by p e = "") as Hr.
  { induction e as [|c e IH]; simpl; [reflexivity|].
    simpl in He. apply andb_prop in He as [Hc He]. now rewrite (IH He), Hc. }
  induction s as [|c s IH]; simpl; [exact Hr|].
  simpl in Hs. apply andb_prop in Hs as [Hc Hs]. rewrite (IH Hs).
  destruct s; [|reflexivity]. now destruct (p c).
Qed.

Lemma strip_by_keep p s :
  forall_chars (fun c => negb (p c)) s = true -> strip_by p s = s.
Proof.
  intros H. unfold strip_by.
  assert (span p s = ("", s)) as ->.
  { destruct s as [|c s]; [reflexivity|]. simpl in *.
    apply andb_prop in H as [Hc _]. now destruct (p c). }
  now apply rstrip_by_keep.
Qed.

Lemma split_on_nonempty sep s : split_on sep s <> [].
Proof.
  destruct s as [|c s]; simpl; [discriminate|].
  destruct (N.eqb c sep); [discriminate|].
  destruct (split_on sep s); discriminate.
Qed.

Lemma split_on_field sep a b :
  forall_chars (fun c => negb (N.eqb c sep)) a = true ->
  split_on sep (a ++ String sep b) = a :: split_on sep b.
Proof.
  induction a as [|c a IH]; simpl.
  - intros _. now rewrite N.eqb_refl.
  - intros H. apply andb_prop in H as [Hc H]. rewrite (IH H).
    now destruct (N.eqb c sep).
Qed.

Lemma join_split sep s :
  Str.concat (String sep "") (split_on sep s) = s.
Proof.
  induction s as [|c s IH]; [reflexivity|]. simpl.
  destruct (N.eqb c sep) eqn:E.
  - apply N.eqb_eq in E. subst c.
    pose proof (split_on_nonempty sep s) as Hn.
    destruct (split_on sep s) as [|h t]; [congruence|].
    simpl in *. now rewrite IH.
  - destruct (split_on sep s) as [|h t]; simpl in *; [now subst|].
    destruct t; simpl in *; now subst.
Qed.

Lemma split_on_forall p sep s :
  forall_chars p s = true -> Forall (fun f => forall_chars p f = true)
                               (split_on sep s).
Proof.
  induction s as [|c s IH]; simpl; [now repeat constructor|].
  intros H. apply andb_prop in H as [Hc H]. specialize (IH H).
  destruct (N.eqb c sep); [now constructor|].
  destruct (split_on sep s) as [|h t]; [repeat constructor; simpl;
                                        now rewrite Hc|].
  inversion IH; subst. constructor; [|assumption]. simpl.
  now rewrite Hc.
Qed.

Lemma concat_forall p sep l :
  forall_chars p sep = true ->
  Forall (fun f => forall_chars p f = true) l ->
  forall_chars p (Str.concat sep l) = true.
Proof.
  intros Hsep. induction 1 as [|x l Hx Hl IH]; [reflexivity|].
  simpl. destruct l as [|y l]; [exact Hx|].
  rewrite !forall_chars_app, Hx, Hsep. exact IH.
Qed.

Lemma Forall_skipn_keep {A : Type} (P : A -> Prop) n (l : list A) :
  Forall P l -> Forall P (skipn n l).
Proof.
  revert l; induction n as [|n IH]; intros l H; [exact H|].
  destruct l as [|x l]; [constructor|]. inversion H; subst. now apply IH.
Qed.

(** ** [int] and the decimal notation *)

Lemma int_of_digits_from_pos d acc :
  int_of_digits_from (Z.pos acc) (uint_digits d)
  = Z.pos (Pos.of_uint_acc d acc).
Proof.
  revert acc; induction d; intros acc;
    cbn [uint_digits int_of_digits_from Pos.of_uint_acc];
    try reflexivity; rewrite <- IHd; f_equal;
    match goal with
    | |- context [digit_value ?c] =>
        let v := eval vm_compute in (digit_value c) in
        change (digit_value c) with v
    end; lia.
Qed.

Lemma int_of_digits_uint d :
  int_of_digits (uint_digits d) = Z.of_N (Pos.of_uint d).
Proof.
  unfold int_of_digits.
  induction d;
    cbn [uint_digits int_of_digits_from Pos.of_uint Z.of_N];
    try reflexivity;
    match goal with
    | |- context [digit_value ?c] =>
        let v := eval vm_compute in (digit_value c) in
        change (digit_value c) with v
    end;
    try exact IHd; apply (int_of_digits_from_pos d).
Qed.

Lemma digits_of_uint d :
  forall_chars isdigit (uint_digits d) = true.
Proof. induction d; simpl; auto. Qed.

Lemma string_of_uint_nonempty d :
  d <> Decimal.Nil -> nonempty (uint_digits d) = true.
Proof. destruct d; simpl; congruence. Qed.

Lemma nilzero_uint d :
  str_of_uint d
  = match d with
    | Decimal.Nil => "0"
    | _ => uint_digits d
    end.
Proof. reflexivity. Qed.

(** The decimal digits of a natural number: not empty, digits only, and read
    back as the number. *)
Lemma digits_of_N n :
  let s := str_of_uint (N.to_uint n) in
  nonempty s = true /\ forall_chars isdigit s = true
  /\ int_of_digits s = Z.of_N n.
Proof.
  destruct n as [|p]; [repeat split|].
  simpl N.to_uint. pose proof (DecimalPos.Unsigned.to_uint_nonnil p) as Hn.
  rewrite nilzero_uint.
  assert (uint_digits (Pos.to_uint p)
          = match Pos.to_uint p with
            | Decimal.Nil => "0"
            | _ => uint_digits (Pos.to_uint p)
            end) as <-.
  { destruct (Pos.to_uint p); congruence. }
  split; [now apply string_of_uint_nonempty|].
  split; [apply digits_of_uint|].
  rewrite int_of_digits_uint, DecimalPos.Unsigned.of_to. reflexivity.
Qed.

(** A decimal digit is one of the ten characters of its number system. *)
Lemma isdigit_system c :
  isdigit c = true ->
  exists z, In z decimal_zeros /\ (z <= c < z + 10)%N.
Proof.
  unfold isdigit, decimal.
  destruct (find (fun z => (z <=? c) && (c <? z + 10))%N decimal_zeros)
    as [z|] eqn:E; [|discriminate].
  intros _. apply find_some in E as [Hin Hz].
  apply andb_prop in Hz as [H1 H2].
  apply N.leb_le in H1. apply N.ltb_lt in H2. now exists z.
Qed.

(** The whitespace characters, one by one. *)
Lemma isspace_cases c :
  isspace c = true ->
  In c [9; 10; 11; 12; 13; 28; 29; 30; 31; 32; 133; 160; 5760; 8192; 8193;
        8194; 8195; 8196; 8197; 8198; 8199; 8200; 8201; 8202; 8232; 8233;
        8239; 8287; 12288]%N.
Proof.
  unfold isspace. intros H.
  repeat match type of H with
         | (_ || _) = true => apply orb_prop in H as [H|H]
         end;
    repeat match goal with
           | H : (_ && _) = true |- _ => apply andb_prop in H as [? ?]
           | H : (_ <=? _)%N = true |- _ => apply N.leb_le in H
           | H : (_ =? _)%N = true |- _ => apply N.eqb_eq in H
           end;
    cbn [In]; lia.
Qed.

(** No whitespace character is a decimal digit. *)
Lemma isdigit_not_space c : isdigit c = true -> isspace c = false.
Proof.
  intros Hd. destruct (isspace c) eqn:Hs; [|reflexivity].
  apply isspace_cases in Hs. cbn [In] in Hs.
  repeat match type of Hs with
         | _ \/ _ => destruct Hs as [<-|Hs]; [discriminate Hd|]
         end.
  contradiction.
Qed.

Lemma isdigit_not_int_space c : isdigit c = true -> int_space c = false.
Proof.
  intros H. unfold int_space. now rewrite (isdigit_not_space c H).
Qed.

(** Of the ASCII characters, the decimal digits are 0 to 9. *)
Lemma isdigit_ascii c :
  (c < 128)%N -> isdigit c = true -> (48 <= c <= 57)%N.
Proof.
  intros Hc H. apply isdigit_system in H as (z & Hin & Hz).
  assert (forallb (fun z => (z =? 48) || (128 <=? z))%N decimal_zeros = true)
    as Hall by reflexivity.
  rewrite forallb_forall in Hall. specialize (Hall z Hin).
  apply orb_prop in Hall as [E|E];
    [apply N.eqb_eq in E | apply N.leb_le in E]; lia.
Qed.

Lemma isdigit_neq c d :
  isdigit c = true -> isdigit d = false -> N.eqb c d = false.
Proof.
  intros Hc Hd. apply N.eqb_neq. intros ->. congruence.
Qed.

Lemma digits_ok_digits b s :
  forall_chars isdigit s = true -> digits_ok b s = b || nonempty s.
Proof.
  revert b; induction s as [|c s IH]; intros b; simpl.
  - now rewrite orb_false_r.
  - intros H. apply andb_prop in H as [Hc H]. rewrite Hc, (IH _ H).
    now rewrite orb_true_r.
Qed.

Lemma without_underscores_digits s :
  forall_chars isdigit s = true -> without_underscores s = s.
Proof.
  induction s as [|c s IH]; simpl; [reflexivity|].
  intros H. apply andb_prop in H as [Hc H].
  rewrite (isdigit_neq c underscore Hc), (IH H); reflexivity.
Qed.

(** [int] on decimal digits, with or without a minus sign. *)
Lemma py_int_digits s :
  nonempty s = true -> forall_chars isdigit s = true ->
  py_int s = Some (int_of_digits s)
  /\ py_int (String "-" s) = Some (- int_of_digits s)%Z.
Proof.
  intros Hn Hd.
  assert (forall_chars (fun c => negb (int_space c)) s = true) as Hsp.
  { eapply forall_chars_impl; [|exact Hd].
    intros c Hc. now rewrite (isdigit_not_int_space c Hc). }
  split; unfold py_int.
  - rewrite (strip_by_keep _ _ Hsp).
    destruct s as [|c s]; [discriminate|].
    simpl in Hd. apply andb_prop in Hd as [Hc Hd].
    rewrite (isdigit_neq c "-" Hc), (isdigit_neq c "+" Hc);
      try reflexivity.
    assert (forall_chars isdigit (String c s) = true) as Hall
      by (simpl; now rewrite Hc, Hd).
    rewrite (digits_ok_digits _ _ Hall), (without_underscores_digits _ Hall).
    reflexivity.
  - rewrite strip_by_keep; [|simpl; now rewrite Hsp].
    rewrite N.eqb_refl.
    rewrite (digits_ok_digits _ _ Hd), Hn, (without_underscores_digits _ Hd).
    reflexivity.
Qed.

(** [int(str(z))] is [z]. *)
Lemma py_int_str_int z : py_int (str_int z) = Some z.
Proof.
  unfold str_int.
  destruct z as [|p|p].
  - reflexivity.
  - destruct (digits_of_N (N.pos p)) as (H1 & H2 & H3). cbv zeta in *.
    change (str_of_int (Z.to_int (Z.pos p)))
      with (str_of_uint (N.to_uint (N.pos p))).
    destruct (py_int_digits _ H1 H2) as [-> _]. now rewrite H3.
  - destruct (digits_of_N (N.pos p)) as (H1 & H2 & H3). cbv zeta in *.
    change (str_of_int (Z.to_int (Z.neg p)))
      with (String "-" (str_of_uint (N.to_uint (N.pos p)))).
    destruct (py_int_digits _ H1 H2) as [_ ->]. now rewrite H3.
Qed.

Lemma int_of_digits_zeros k s :
  int_of_digits (repeat_char "0"%char k ++ s) = int_of_digits s.
Proof.
  unfold int_of_digits. induction k as [|k IH]; [reflexivity|].
  simpl. exact IH.
Qed.

Lemma digits_zeros k : forall_chars isdigit (repeat_char "0"%char k) = true.
Proof. induction k as [|k IH]; simpl; auto. Qed.

Lemma nonempty_app_r a b : nonempty b = true -> nonempty (a ++ b) = true.
Proof. destruct a; simpl; auto. Qed.

(** [int] reads a number padded with zeros back. *)
Lemma py_int_str_int_04 z : py_int (str_int_04 z) = Some z.
Proof.
  unfold str_int_04.
  destruct (digits_of_N (Z.abs_N z)) as (H1 & H2 & H3). cbv zeta in *.
  set (digits := str_of_uint (N.to_uint (Z.abs_N z))) in *.
  match goal with
  | |- context [repeat_char "0"%char ?n ++ digits] => generalize n
  end.
  intros k.
  assert (nonempty (repeat_char "0"%char k ++ digits) = true) as Hn
    by now apply nonempty_app_r.
  assert (forall_chars isdigit (repeat_char "0"%char k ++ digits) = true)
    as Hd by now rewrite forall_chars_app, digits_zeros, H2.
  destruct (py_int_digits _ Hn Hd) as [Hp Hm].
  rewrite int_of_digits_zeros, H3 in Hp, Hm.
  destruct (z <? 0)%Z eqn:E.
  - change ("-" ++ repeat_char "0"%char k ++ digits)%str
      with (String "-" (repeat_char "0"%char k ++ digits)).
    rewrite Hm. f_equal. apply Z.ltb_lt in E. rewrite N2Z.inj_abs_N. lia.
  - change ("" ++ repeat_char "0"%char k ++ digits)%str
      with (repeat_char "0"%char k ++ digits)%str.
    rewrite Hp. f_equal. apply Z.ltb_ge in E. rewrite N2Z.inj_abs_N. lia.
Qed.

Lemma plain_digit c : isdigit c = true -> plain c = true.
Proof.
  intros H. unfold plain, dot.
  rewrite (isdigit_neq c comma H), (isdigit_neq c newline H);
    reflexivity.
Qed.

Lemma plain_str_int z : forall_chars plain (str_int z) = true.
Proof.
  unfold str_int. destruct z as [|p|p]; [reflexivity| |];
    destruct (digits_of_N (N.pos p)) as (_ & H & _); simpl in H |- *;
    try (apply andb_true_intro; split; [reflexivity|]);
    (eapply forall_chars_impl; [exact plain_digit|exact H]).
Qed.

Lemma plain_str_int_04 z : forall_chars plain (str_int_04 z) = true.
Proof.
  unfold str_int_04.
  destruct (digits_of_N (Z.abs_N z)) as (_ & H & _). cbv zeta in H.
  rewrite !forall_chars_app.
  rewrite (forall_chars_impl _ _ _ plain_digit H).
  rewrite (forall_chars_impl _ _ _ plain_digit (digits_zeros _)).
  now destruct (z <? 0)%Z.
Qed.

Lemma plain_split c : plain c = true ->
  negb (N.eqb c comma) = true /\ dot c = true.
Proof. unfold plain. intros H. now apply andb_prop in H. Qed.

Lemma plain_no_comma s :
  forall_chars plain s = true ->
  forall_chars (fun c => negb (N.eqb c comma)) s = true.
Proof. apply forall_chars_impl. intros c H. now apply plain_split in H. Qed.

Lemma plain_no_newline s :
  forall_chars plain s = true -> forall_chars dot s = true.
Proof. apply forall_chars_impl. intros c H. now apply plain_split in H. Qed.

(** ** The parser and the constructor *)

Lemma after_prefix_head a p c s r :
  after_prefix (String a p) (String c s) = Some r -> c = a.
Proof.
  cbn [after_prefix]. destruct (N.eqb a c) eqn:E; [|discriminate].
  intros _. apply N.eqb_eq in E. now subst.
Qed.

Ltac bind_done H :=
  repeat match type of H with
         | and_then ?m _ = Done _ =>
             let E := fresh "E" in
             destruct m eqn:E; cbn [and_then] in H; [|discriminate H]
         end.

Section Document.

Context {R C : Type} {num : PyNum R} {font : FontProvider R}.
Context {os : Os} {conv : Convert C}.

(** [float] and [Convert.time], as in the constructor and [write_line]. *)
Variable py_float : str -> option R.
Variable convert_time : Z -> str.

Local Open Scope Z_scope.

Lemma event_match_body line kind body :
  event_match line = Some (kind, body) ->
  no_newline body /\ section_match line = None.
Proof.
  unfold event_match.
  assert (forall r t, line_body r = Some t -> no_newline t) as Hb.
  { intros r t. unfold line_body. destruct (span dot r) as [t' e] eqn:E.
    destruct (nonempty t' && at_end e); [|discriminate].
    intros [= <-]. now destruct (span_spec _ _ _ _ E) as (_ & H & _). }
  destruct line as [|c line]; [discriminate|].
  destruct (after_prefix "Dialogue: " (String c line)) as [r|] eqn:E1.
  - destruct (line_body r) as [t|] eqn:E; [|discriminate].
    intros [= <- <-]. split; [exact (Hb _ _ E)|].
    now rewrite (after_prefix_head _ _ _ _ _ E1).
  - destruct (after_prefix "Comment: " (String c line)) as [r|] eqn:E2;
      [|discriminate].
    destruct (line_body r) as [t|] eqn:E; [|discriminate].
    intros [= <- <-]. split; [exact (Hb _ _ E)|].
    now rewrite (after_prefix_head _ _ _ _ _ E2).
Qed.

Lemma parse_event_done li kind body (l : Line.t R) :
  parse_event li kind body = Done l ->
  Line.i l = li
  /\ Line.raw_text l = Str.concat "," (skipn 9 (split_on comma body))
  /\ Line.text l = None
  /\ Line.styleref l = None.
Proof.
  unfold parse_event. intros H. bind_done H.
  injection H as <-. repeat split.
Qed.

(** What one line of the file does to [self.lines] and [li]. *)
Lemma parse_line_lines path ko (st st' : @Parsed R) line :
  parse_line py_float path ko st line = Done st' ->
  (p_lines st' = p_lines st /\ p_li st' = p_li st)
  \/ (exists kind body l,
        event_match line = Some (kind, body)
        /\ parse_event (p_li st) kind body = Done l
        /\ p_lines st' = (p_lines st ++ [l])%list
        /\ p_li st' = S (p_li st)).
Proof.
  unfold parse_line.
  destruct (section_match line); [intros [= <-]; now left|].
  destruct (_ || _).
  { intros H. bind_done H. destruct a. injection H as <-. now left. }
  destruct (Str.eqb (p_section st) "V4+ Styles").
  { destruct (style_match line); [|intros [= <-]; now left].
    intros H. bind_done H. injection H as <-. now left. }
  destruct (Str.eqb (p_section st) "Events"); [|intros [= <-]; now left].
  assert (p_lines (if ko then emit st (comment_out line) else st)
          = p_lines st
          /\ p_li (if ko then emit st (comment_out line) else st) = p_li st)
    as [Hl Hi] by now destruct ko.
  revert Hl Hi. generalize (if ko then emit st (comment_out line) else st).
  intros st0 Hl Hi.
  destruct (event_match line) as [[kind body]|];
    [|intros [= <-]; now left].
  intros H. bind_done H. injection H as <-. right.
  exists kind, body, a. rewrite <- Hi, <- Hl. auto.
Qed.

Lemma parse_lines_as_parsed path ko file :
  forall st st' : @Parsed R,
    parse_lines py_float path ko st file = Done st' ->
    p_li st = List.length (p_lines st) ->
    map (@Line.i R) (p_lines st) = seq 0 (List.length (p_lines st)) ->
    Forall as_parsed (p_lines st) ->
    map (@Line.i R) (p_lines st') = seq 0 (List.length (p_lines st'))
    /\ Forall as_parsed (p_lines st').
Proof.
  induction file as [|line file IH]; intros st st' H Hli Hi Hf.
  - injection H as <-. now split.
  - simpl in H. bind_done H.
    destruct (parse_line_lines _ _ _ _ _ E)
      as [[Hl Hn] | (kind & body & l & Hm & Hp & Hl & Hn)].
    + apply (IH _ _ H); rewrite ?Hl, ?Hn; assumption.
    + destruct (parse_event_done _ _ _ _ Hp) as (H1 & H2 & H3 & H4).
      apply (IH _ _ H); rewrite ?Hl, ?Hn.
      * rewrite length_app. simpl. lia.
      * rewrite map_app, length_app, seq_app, Hi. simpl.
        now rewrite H1, Hli.
      * apply Forall_app. split; [exact Hf|]. constructor; [|constructor].
        split; [|now split]. rewrite H2. unfold no_newline.
        apply concat_forall; [reflexivity|].
        apply Forall_skipn_keep, split_on_forall.
        exact (proj1 (event_match_body _ _ _ Hm)).
Qed.

Lemma parser_start_as_parsed path ko file (st : @Parsed R) :
  parse_lines py_float path ko parser_start file = Done st ->
  map (@Line.i R) (p_lines st) = seq 0 (List.length (p_lines st))
  /\ Forall as_parsed (p_lines st).
Proof.
  intros H. apply (parse_lines_as_parsed _ _ _ _ _ H); try reflexivity.
  constructor.
Qed.

(** The attributes the extended computation of a line leaves alone. *)
Lemma extend_line_keeps meta vk styles (line line' : Line.t R) :
  extend_line meta vk styles line = Ok line' ->
  Line.i line' = Line.i line /\ Line.raw_text line' = Line.raw_text line.
Proof.
  unfold extend_line. destruct (styles (Line.style line)) as [st|].
  - destruct (add_syls st _) as [syls|e]; simpl; [|discriminate].
    destruct (place_syls _ _ _ _ _ _ _ _ _) as [[[w h] lp] syls'].
    intros [= <-]. now split.
  - intros [= <-]. now split.
Qed.

Lemma extend_parsed_line_keeps h vk styles (line line' : Line.t R) :
  extend_parsed_line h vk styles line = Ok line' ->
  Line.i line' = Line.i line /\ Line.raw_text line' = Line.raw_text line.
Proof.
  unfold extend_parsed_line. destruct (dict_get _ styles).
  - destruct (layout_meta h) as [meta|e]; simpl; [|discriminate].
    apply extend_line_keeps.
  - apply extend_line_keeps.
Qed.

Lemma extend_parsed_lines_keep h vk styles (lines lines' : list (Line.t R)) :
  extend_parsed_lines h vk styles lines = Ok lines' ->
  map (@Line.i R) lines' = map (@Line.i R) lines
  /\ map (@Line.raw_text R) lines' = map (@Line.raw_text R) lines.
Proof.
  revert lines'; induction lines as [|l lines IH]; intros lines'; simpl.
  - intros [= <-]. now split.
  - destruct (extend_parsed_line h vk styles l) as [l'|e] eqn:E; simpl;
      [|discriminate].
    destruct (extend_parsed_lines h vk styles lines) as [ls|e]; simpl;
      [|discriminate].
    intros [= <-]. destruct (IH _ eq_refl) as [H1 H2].
    destruct (extend_parsed_line_keeps _ _ _ _ _ E) as [H3 H4].
    simpl. now rewrite H1, H2, H3, H4.
Qed.

Lemma update_at_map {A : Type} (g : Line.t R -> A) r f store :
  (forall l, g (f l) = g l) -> map g (update_at r f store) = map g store.
Proof.
  intros Hg. revert r; induction store as [|l store IH]; intros [|r]; simpl;
    try reflexivity.
  - now rewrite Hg.
  - now rewrite IH.
Qed.

(** An attribute other than the lead times is the same before and after
    lines 1131-1143. *)
Lemma add_durations_map {A : Type} (g : Line.t R -> A) lines :
  (forall l i o, g (Line.set_leadout (Line.set_leadin l i) o) = g l) ->
  map g (add_durations lines) = map g lines.
Proof.
  intros Hg. unfold add_durations.
  generalize (lines_by_styles lines). intros d.
  generalize lines. intros store.
  revert store; induction d as [|[k group] d IH]; intros store;
    [reflexivity|].
  simpl. rewrite IH. unfold group_leads.
  generalize (sort_by (attr (@Line.start_time R) store) group).
  intros sorted. generalize (seq 0 (List.length sorted)). intros idx.
  revert store; induction idx as [|n idx IHn]; intros store; [reflexivity|].
  simpl. rewrite IHn. unfold lead_step. apply update_at_map.
  intros l. apply Hg.
Qed.

Lemma init_lines path ko ext vk file a :
  init py_float path ko ext vk file = Done a ->
  exists st : @Parsed R,
    parse_lines py_float path ko parser_start file = Done st
    /\ ass_meta a = p_meta st
    /\ ass_styles a = p_styles st
    /\ map (@Line.i R) (ass_lines a) = map (@Line.i R) (p_lines st)
    /\ map (@Line.raw_text R) (ass_lines a)
       = map (@Line.raw_text R) (p_lines st)
    /\ (ext = false -> ass_lines a = p_lines st).
Proof.
  unfold init. intros H. bind_done H. exists a0. split; [reflexivity|].
  destruct ext; simpl in H.
  - destruct (extend_parsed_lines _ _ _ _) as [lines|e] eqn:El;
      simpl in H; [|discriminate].
    injection H as <-. simpl.
    destruct (extend_parsed_lines_keep _ _ _ _ _ El) as [H1 H2].
    rewrite !add_durations_map, H1, H2 by reflexivity.
    repeat split. discriminate.
  - injection H as <-. simpl. repeat split.
Qed.

(** X10. In the document the constructor leaves, with or without the
    extended computation, the index of a line is its position:
    [lines[k].i = k] (lines 587-588). *)
Theorem X10_parsed_line_indices path keep_original extended vertical_kanji
    file a :
  init py_float path keep_original extended vertical_kanji file = Done a ->
  map (@Line.i R) (ass_lines a) = seq 0 (List.length (ass_lines a)).
Proof.
  intros H. destruct (init_lines _ _ _ _ _ _ H) as (st & Hp & _ & _ & Hi & _).
  destruct (parser_start_as_parsed _ _ _ _ Hp) as [Hseq _].
  rewrite Hi, Hseq. f_equal.
  now rewrite <- (length_map (@Line.i R) (ass_lines a)), Hi, length_map.
Qed.

(** X11. The raw text of every line of the document holds no newline,
    whatever the lines of the file are: the pattern of line 581 stops at the
    end of the line, and the fields are cut from what it matched. This is
    the condition under which the extended computation of a line is shown to
    return. *)
Theorem X11_parsed_raw_text path keep_original extended vertical_kanji file a :
  init py_float path keep_original extended vertical_kanji file = Done a ->
  Forall (fun l => no_newline (Line.raw_text l)) (ass_lines a).
Proof.
  intros H. destruct (init_lines _ _ _ _ _ _ H) as (st & Hp & _ & _ & _ & Hr & _).
  destruct (parser_start_as_parsed _ _ _ _ Hp) as [_ Hf].
  apply (proj1 (Forall_map (@Line.raw_text R) no_newline (ass_lines a))).
  rewrite Hr. apply Forall_map.
  eapply Forall_impl; [|exact Hf]. now intros l (Hl & _).
Qed.

Lemma extend_line_unstyled meta vk styles (line : Line.t R) :
  styles (Line.style line) = None ->
  exists line', extend_line meta vk styles line = Ok line'.
Proof. intros H. unfold extend_line. rewrite H. eauto. Qed.

Lemma extend_parsed_lines_no_resolution h vk styles
    (lines : list (Line.t R)) :
  Header.play_res_x h = None ->
  (exists l, In l lines /\ dict_get (Line.style l) styles <> None) ->
  extend_parsed_lines h vk styles lines = Raise AttributeError.
Proof.
  intros Hx. induction lines as [|l lines IH]; intros (l0 & Hin & Hs).
  - destruct Hin.
  - simpl. unfold extend_parsed_line at 1.
    destruct (dict_get (Line.style l) styles) as [st|] eqn:E.
    + unfold layout_meta. rewrite Hx. reflexivity.
    + destruct (extend_line_unstyled (Meta.mk 0 false 0 0 "" "") vk
                  (fun name => dict_get name styles) l E) as (l' & ->).
      simpl. rewrite IH; [reflexivity|].
      destruct Hin as [<- | Hin]; [congruence|]. now exists l0.
Qed.

(** X13. When the file never sets [PlayResX] and some dialogue line uses a
    style the file defines, the constructor with the extended computation
    raises an AttributeError: line 645 reads [self.meta.play_res_x], which
    no line of the file has assigned. *)
Theorem X13_missing_resolution path keep_original vertical_kanji file
    (st : @Parsed R) :
  parse_lines py_float path keep_original parser_start file = Done st ->
  Header.play_res_x (p_meta st) = None ->
  (exists l, In l (p_lines st)
             /\ dict_get (Line.style l) (p_styles st) <> None) ->
  init py_float path keep_original true vertical_kanji file
  = Failed (Exn AttributeError).
Proof.
  intros Hp Hx Hl. unfold init. rewrite Hp. simpl.
  now rewrite (extend_parsed_lines_no_resolution _ vertical_kanji _ _ Hx Hl).
Qed.

(** X14. A line of a document loaded without the extended computation has
    no [text]; handing it to [write_line] as it is raises an AttributeError
    and appends nothing (lines 612-613 and 1176). *)
Theorem X14_unextended_line_unwritable path keep_original vertical_kanji file a
    (l : Line.t R) (out : Output) :
  init py_float path keep_original false vertical_kanji file = Done a ->
  In l (ass_lines a) ->
  write_line convert_time (PyLine l) out = (out, Raise AttributeError).
Proof.
  intros H Hin.
  destruct (init_lines _ _ _ _ _ _ H) as (st & Hp & _ & _ & _ & _ & Hl).
  rewrite (Hl eq_refl) in Hin.
  destruct (parser_start_as_parsed _ _ _ _ Hp) as [_ Hf].
  rewrite Forall_forall in Hf. destruct (Hf _ Hin) as (_ & Ht & _).
  unfold write_line. now rewrite Ht.
Qed.

(** *** Writing a line and reading it back *)

Lemma nonempty_field a c b : nonempty (a ++ String c b) = true.
Proof. now destruct a. Qed.

Lemma line_body_record body e :
  forall_chars dot body = true -> nonempty body = true -> at_end e = true ->
  line_body (body ++ e) = Some body.
Proof.
  intros Hd Hn He. unfold line_body.
  now rewrite (span_dot_line _ _ Hd He), Hn, He.
Qed.

(** The match of line 581 on a record of [write_line], read back from the
    file with or without a newline after it. *)
Lemma event_match_record (comment : bool) body e :
  forall_chars dot body = true -> nonempty body = true -> at_end e = true ->
  event_match (((if comment then "Comment" else "Dialogue") ++ ": " ++ body)
               ++ e)
  = Some (if comment then "Comment" else "Dialogue", body).
Proof.
  intros Hd Hn He. unfold event_match.
  destruct comment; cbn [Str.append after_prefix N.eqb Pos.eqb andb];
    now rewrite (line_body_record _ _ Hd Hn He).
Qed.

Lemma comment_flag (comment : bool) :
  Str.eqb (if comment then "Comment" else "Dialogue") "Comment" = comment.
Proof. now destruct comment. Qed.

(** X15. What [write_line] writes (lines 1163-1178), the parser reads back
    (lines 581-607). For a Line whose style, actor and effect hold no comma
    and no newline and whose text holds no newline, with a [Convert.time]
    that reads back the time strings it writes, the record parsed as a line
    of the section Events gives a Line with the same comment flag, layer,
    style, actor, margins and effect, the start and end times clamped at
    zero, and the written text as its raw text. *)
Theorem X15_write_then_parse path keep_original (st : @Parsed R) (l : Line.t R)
    text (out : Output) e :
  Line.text l = Some text ->
  p_section st = "Events" ->
  forall_chars plain (Line.style l) = true ->
  forall_chars plain (Line.actor l) = true ->
  forall_chars plain (Line.effect l) = true ->
  no_newline text ->
  forall_chars plain (convert_time (Z.max 0 (Line.start_time l))) = true ->
  forall_chars plain (convert_time (Z.max 0 (Line.end_time l))) = true ->
  time_of_str (convert_time (Z.max 0 (Line.start_time l)))
  = Some (Z.max 0 (Line.start_time l)) ->
  time_of_str (convert_time (Z.max 0 (Line.end_time l)))
  = Some (Z.max 0 (Line.end_time l)) ->
  at_end e = true ->
  exists record st',
    write_line convert_time (PyLine l) out
    = (mkOutput (output out ++ [String newline record])%list
         (S (plines out)), Ok tt)
    /\ parse_line py_float path keep_original st (record ++ e) = Done st'
    /\ p_lines st'
       = (p_lines st
          ++ [Line.mk (p_li st) (Line.comment l) (Line.layer l)
                (Z.max 0 (Line.start_time l)) (Z.max 0 (Line.end_time l))
                None None None (Line.style l) None (Line.actor l)
                (Line.margin_l l) (Line.margin_r l) (Line.margin_v l)
                (Line.effect l) text
                None None None None None None None None])%list.
Proof.
  intros Htext Hsec Hstyle Hactor Heffect Hnl Hps Hpe Hts Hte He.
  set (f0 := str_int (Line.layer l)).
  set (f1 := convert_time (Z.max 0 (Line.start_time l))) in *.
  set (f2 := convert_time (Z.max 0 (Line.end_time l))) in *.
  set (f5 := str_int_04 (Line.margin_l l)).
  set (f6 := str_int_04 (Line.margin_r l)).
  set (f7 := str_int_04 (Line.margin_v l)).
  set (body :=
         (f0 ++ String comma (f1 ++ String comma (f2 ++ String comma
          (Line.style l ++ String comma (Line.actor l ++ String comma
           (f5 ++ String comma (f6 ++ String comma (f7 ++ String comma
            (Line.effect l ++ String comma text)))))))))%str).
  set (kind := if Line.comment l then "Comment" else "Dialogue").
  assert (forall_chars plain f0 = true) as H0 by apply plain_str_int.
  assert (forall_chars plain f5 = true) as H5 by apply plain_str_int_04.
  assert (forall_chars plain f6 = true) as H6 by apply plain_str_int_04.
  assert (forall_chars plain f7 = true) as H7 by apply plain_str_int_04.
  assert (forall_chars dot body = true) as Hdot.
  { unfold body.
    repeat (rewrite forall_chars_app; cbn [forall_chars];
            change (dot comma) with true; cbn [andb]).
    rewrite !plain_no_newline by assumption. exact Hnl. }
  assert (nonempty body = true) as Hne by apply nonempty_field.
  assert (split_on comma body
          = [f0; f1; f2; Line.style l; Line.actor l; f5; f6; f7;
             Line.effect l] ++ split_on comma text)%list as Hsplit.
  { unfold body.
    rewrite !split_on_field by (apply plain_no_comma; assumption).
    reflexivity. }
  exists (kind ++ ": " ++ body)%str.
  assert (write_line convert_time (PyLine l) out
          = (mkOutput
               (output out ++ [String newline (kind ++ ": " ++ body)])%list
               (S (plines out)), Ok tt)) as Hwrite.
  { unfold write_line. rewrite Htext. unfold line_format.
    cbn [pyformat bind Str.append]. rewrite append_nil_r. reflexivity. }
  pose proof (event_match_record (Line.comment l) body e Hdot Hne He)
    as Hmatch.
  fold kind in Hmatch.
  destruct (event_match_body _ _ _ Hmatch) as [_ Hsm].
  assert (@parse_event R C conv (p_li st) kind body
          = Done (Line.mk (p_li st) (Line.comment l) (Line.layer l)
                    (Z.max 0 (Line.start_time l)) (Z.max 0 (Line.end_time l))
                    None None None (Line.style l) None (Line.actor l)
                    (Line.margin_l l) (Line.margin_r l) (Line.margin_v l)
                    (Line.effect l) text
                    None None None None None None None None)) as Hparse.
  { unfold parse_event. rewrite Hsplit.
    cbn [app item nth_error or_fail and_then skipn].
    unfold to_int, to_time, f0, f5, f6, f7.
    rewrite py_int_str_int, !py_int_str_int_04, Hts, Hte.
    cbn [or_fail and_then].
    unfold kind. rewrite comment_flag.
    change "," with (String comma ""). now rewrite join_split. }
  eexists. split; [exact Hwrite|].
  unfold parse_line. rewrite Hsm, Hsec.
  cbn [Str.eqb N.eqb Pos.eqb andb orb].
  rewrite Hmatch.
  assert (p_li (if keep_original
                then emit st (comment_out ((kind ++ ": " ++ body) ++ e))
                else st) = p_li st) as -> by now destruct keep_original.
  rewrite Hparse. cbn [and_then]. split; [reflexivity|].
  now destruct keep_original.
Qed.

(** *** Lines the parser cannot read *)

Ltac fail_fast :=
  repeat match goal with
         | |- exists e, Failed _ = Failed e => eexists; reflexivity
         | |- exists e, match ?p with pair _ _ => _ end = Failed e =>
             destruct p
         | |- exists e, and_then ?m _ = Failed e =>
             let E := fresh "E" in
             destruct m eqn:E; cbn [and_then];
             [|eexists; reflexivity]
         end.

Lemma parse_event_short li kind body :
  (List.length (split_on comma body) < 9)%nat ->
  exists e, @parse_event R C conv li kind body = Failed e.
Proof.
  unfold parse_event. generalize (split_on comma body). intros f Hlen.
  do 9 (destruct f as [|? f];
        [cbn [item nth_error or_fail and_then]; fail_fast|]).
  simpl in Hlen. lia.
Qed.

Lemma parse_style_short f :
  (List.length f < 23)%nat -> exists e, parse_style py_float f = Failed e.
Proof.
  unfold parse_style. intros Hlen.
  do 23 (destruct f as [|? f];
         [cbn [item nth_error or_fail and_then]; fail_fast|]).
  simpl in Hlen. lia.
Qed.

Lemma style_match_section line fields :
  style_match line = Some fields -> section_match line = None.
Proof.
  unfold style_match. destruct line as [|c line]; [discriminate|].
  destruct (after_prefix "Style: " (String c line)) as [r|] eqn:E;
    [|discriminate].
  intros _. now rewrite (after_prefix_head _ _ _ _ _ E).
Qed.

(** X16. A line that is short of fields stops the constructor: a dialogue
    line of the section Events with fewer than nine comma-separated fields,
    and a style line of the section V4+ Styles with fewer than twenty-three,
    are not skipped; reading them raises (lines 527-569 and 591-605). *)
Theorem X16_short_line_fails path keep_original (st : @Parsed R) line :
  (p_section st = "Events"
   /\ exists kind body,
        event_match line = Some (kind, body)
        /\ (List.length (split_on comma body) < 9)%nat)
  \/ (p_section st = "V4+ Styles"
      /\ exists fields,
           style_match line = Some fields
           /\ (List.length (split_on comma fields) < 23)%nat) ->
  exists e, parse_line py_float path keep_original st line = Failed e.
Proof.
  intros [(Hsec & kind & body & Hm & Hlen) | (Hsec & fields & Hm & Hlen)];
    unfold parse_line.
  - rewrite (proj2 (event_match_body _ _ _ Hm)), Hsec, Hm.
    cbn [Str.eqb N.eqb Pos.eqb andb orb].
    destruct (parse_event_short
                (p_li (if keep_original then emit st (comment_out line)
                       else st)) kind body Hlen) as (e & ->).
    now exists e.
  - rewrite (style_match_section _ _ Hm), Hsec, Hm.
    cbn [Str.eqb N.eqb Pos.eqb andb orb].
    destruct (parse_style_short _ Hlen) as (e & ->). now exists e.
Qed.

(** *** What reaches the output *)

(** X17. The lines of a section the parser has no branch for (lines
    470-573), and the lines before the first section header, leave no trace:
    they change neither the document nor the output, so a file that is saved
    has lost them. *)
Theorem X17_unknown_section_dropped path keep_original (st : @Parsed R) file :
  known_section (p_section st) = false ->
  Forall (fun line => section_match line = None) file ->
  parse_lines py_float path keep_original st file = Done st.
Proof.
  intros Hk. induction 1 as [|line file Hl _ IH]; [reflexivity|].
  simpl. unfold parse_line. rewrite Hl.
  unfold known_section in Hk.
  apply orb_false_iff in Hk as [Hk H4].
  apply orb_false_iff in Hk as [Hk H3].
  rewrite Hk, H3, H4. exact IH.
Qed.

Lemma comment_out_inactive line :
  startswith "Dialogue:" (comment_out line) = false.
Proof.
  unfold comment_out, startswith.
  destruct (after_prefix "Dialogue:" line) as [r|] eqn:E.
  - reflexivity.
  - now rewrite E.
Qed.

(** X18. The lines of the section Events in the output (lines 575-578):
    with [keep_original] every line of the section is copied, a leading
    [Dialogue:] replaced by [Comment:], so that no dialogue of the input is
    still active; without it none of them is copied, the line that gives the
    format of the section included. *)
Theorem X18_events_in_output path keep_original (st st' : @Parsed R) file :
  p_section st = "Events" ->
  Forall (fun line => section_match line = None) file ->
  parse_lines py_float path keep_original st file = Done st' ->
  p_output st'
  = (p_output st ++ if keep_original then map comment_out file else [])%list
  /\ Forall (fun o => startswith "Dialogue:" o = false)
       (map comment_out file).
Proof.
  intros Hsec Hfile. split.
  - revert st st' Hsec H. induction Hfile as [|line file Hl _ IH];
      intros st st' Hsec H.
    + injection H as <-. destruct keep_original; now rewrite app_nil_r.
    + simpl in H. bind_done H.
      assert (p_section a = "Events"
              /\ p_output a
                 = (p_output st
                    ++ if keep_original then [comment_out line] else [])%list)
        as [Ha Ho].
      { clear H IH. unfold parse_line in E. rewrite Hl, Hsec in E.
        cbn [Str.eqb N.eqb Pos.eqb andb orb] in E.
        assert (p_section (if keep_original
                           then emit st (comment_out line) else st)
                = "Events"
                /\ p_output (if keep_original
                             then emit st (comment_out line) else st)
                   = (p_output st
                      ++ if keep_original then [comment_out line]
                         else [])%list) as [H1 H2].
        { destruct keep_original; simpl; [auto|]. now rewrite app_nil_r. }
        revert E H1 H2.
        generalize (if keep_original then emit st (comment_out line)
                    else st).
        intros st0 E H1 H2.
        destruct (event_match line) as [[kind body]|].
        - bind_done E. injection E as <-. simpl. auto.
        - injection E as <-. auto. }
      rewrite (IH _ _ Ha H), Ho, <- app_assoc.
      now destruct keep_original.
  - apply Forall_map. apply Forall_forall. intros line _.
    apply comment_out_inactive.
Qed.

(** *** Meta data *)

Lemma after_prefix_app p r : after_prefix p (p ++ r) = Some r.
Proof.
  induction p as [|c p IH]; [reflexivity|]. simpl.
  now rewrite N.eqb_refl.
Qed.

Lemma blanks_blank k : forall_chars is_blank (repeat_char " "%char k) = true.
Proof. induction k as [|k IH]; simpl; auto. Qed.

Lemma blanks_space k : forall_chars isspace (repeat_char " "%char k) = true.
Proof. induction k as [|k IH]; simpl; auto. Qed.

Lemma at_end_space e : at_end e = true -> forall_chars isspace e = true.
Proof. intros H. now destruct (at_end_cases _ H) as [-> | ->]. Qed.

Lemma at_end_no_digit e :
  at_end e = true ->
  match e with
  | "" => True
  | String c _ => isdigit c = false
  end.
Proof. intros H. now destruct (at_end_cases _ H) as [-> | ->]. Qed.

Lemma digits_not_space d :
  forall_chars isdigit d = true ->
  forall_chars (fun c => negb (isspace c)) d = true.
Proof.
  apply forall_chars_impl. intros c H. now rewrite (isdigit_not_space c H).
Qed.

(** [strip] on blanks, digits and the end of the line. *)
Lemma strip_number k d e :
  nonempty d = true -> forall_chars isdigit d = true -> at_end e = true ->
  strip (repeat_char " "%char k ++ d ++ e) = d.
Proof.
  intros Hn Hd He. unfold strip, strip_by.
  assert (span isspace (repeat_char " "%char k ++ d ++ e)
          = (repeat_char " "%char k, (d ++ e)%str)) as ->.
  { apply span_app_stop; [apply blanks_space|].
    destruct d as [|c d]; [discriminate|].
    simpl in Hd |- *. apply andb_prop in Hd as [Hc _].
    exact (isdigit_not_space c Hc). }
  apply rstrip_by_end; [now apply digits_not_space|now apply at_end_space].
Qed.

Lemma number_line_digits key k d e :
  nonempty d = true -> forall_chars isdigit d = true -> at_end e = true ->
  number_line key (key ++ repeat_char " "%char k ++ d ++ e) = true.
Proof.
  intros Hn Hd He. unfold number_line. rewrite after_prefix_app.
  assert (span is_blank (repeat_char " "%char k ++ d ++ e)
          = (repeat_char " "%char k, (d ++ e)%str)) as ->.
  { apply span_app_stop; [apply blanks_blank|].
    destruct d as [|c d]; [discriminate|].
    simpl in Hd |- *. apply andb_prop in Hd as [Hc _].
    apply (isdigit_neq c " " Hc). reflexivity. }
  cbn [snd].
  rewrite (span_app_stop isdigit d e Hd (at_end_no_digit e He)).
  now rewrite Hn, He.
Qed.

Lemma to_int_digits d :
  nonempty d = true -> forall_chars isdigit d = true ->
  to_int d = Done (int_of_digits d).
Proof.
  intros Hn Hd. unfold to_int.
  now destruct (py_int_digits d Hn Hd) as [-> _].
Qed.

(** X19. The resolution of the script is read from lines of the form
    [PlayResX: 1280] (lines 503-506): the key, one blank or more, decimal
    digits, the end of the line. The attribute is then the number the digits
    write. *)
Theorem X19_play_res_parsed path m k d e :
  (1 <= k)%nat ->
  nonempty d = true -> forall_chars isdigit d = true -> at_end e = true ->
  parse_meta path m ("PlayResX:" ++ repeat_char " "%char k ++ d ++ e)
  = Done (Header.set_play_res_x m (int_of_digits d),
          "PlayResX:" ++ repeat_char " "%char k ++ d ++ e)
  /\ parse_meta path m ("PlayResY:" ++ repeat_char " "%char k ++ d ++ e)
     = Done (Header.set_play_res_y m (int_of_digits d),
             "PlayResY:" ++ repeat_char " "%char k ++ d ++ e).
Proof.
  intros Hk Hn Hd He.
  destruct k as [|k]; [lia|].
  pose proof (number_line_digits "PlayResX:" (S k) d e Hn Hd He) as Hx.
  pose proof (number_line_digits "PlayResY:" (S k) d e Hn Hd He) as Hy.
  pose proof (strip_number k d e Hn Hd He) as Hs.
  split; unfold parse_meta.
  - replace (number_line "WrapStyle:"
               ("PlayResX:" ++ repeat_char " "%char (S k) ++ d ++ e))
      with false by reflexivity.
    replace (text_line "ScaledBorderAndShadow:"
               ("PlayResX:" ++ repeat_char " "%char (S k) ++ d ++ e))
      with false by reflexivity.
    rewrite Hx.
    change (drop 10 ("PlayResX:" ++ repeat_char " "%char (S k) ++ d ++ e))
      with (repeat_char " "%char k ++ d ++ e)%str.
    now rewrite Hs, (to_int_digits d Hn Hd).
  - replace (number_line "WrapStyle:"
               ("PlayResY:" ++ repeat_char " "%char (S k) ++ d ++ e))
      with false by reflexivity.
    replace (text_line "ScaledBorderAndShadow:"
               ("PlayResY:" ++ repeat_char " "%char (S k) ++ d ++ e))
      with false by reflexivity.
    replace (number_line "PlayResX:"
               ("PlayResY:" ++ repeat_char " "%char (S k) ++ d ++ e))
      with false by reflexivity.
    rewrite Hy.
    change (drop 10 ("PlayResY:" ++ repeat_char " "%char (S k) ++ d ++ e))
      with (repeat_char " "%char k ++ d ++ e)%str.
    now rewrite Hs, (to_int_digits d Hn Hd).
Qed.

(** X20. The pattern of line 503 also accepts the digits right after the
    colon, but line 504 cuts the line after ten characters, one more than
    the key has: without a blank the first digit is lost. A single digit
    then leaves nothing to convert and [int] raises a ValueError; of more
    digits, all but the first are read. *)
Theorem X20_play_res_without_blank path m c d e :
  isdigit c = true -> forall_chars isdigit d = true -> at_end e = true ->
  parse_meta path m ("PlayResX:" ++ String c d ++ e)
  = match d with
    | "" => Failed ValueError
    | String _ _ =>
        Done (Header.set_play_res_x m (int_of_digits d),
              "PlayResX:" ++ String c d ++ e)
    end.
Proof.
  intros Hc Hd He.
  assert (forall_chars isdigit (String c d) = true) as Hcd
    by (simpl; now rewrite Hc, Hd).
  pose proof (number_line_digits "PlayResX:" 0 (String c d) e eq_refl Hcd He)
    as Hx.
  cbn [repeat_char Str.append] in Hx.
  unfold parse_meta.
  replace (number_line "WrapStyle:" ("PlayResX:" ++ String c d ++ e))
    with false by reflexivity.
  replace (text_line "ScaledBorderAndShadow:"
             ("PlayResX:" ++ String c d ++ e))
    with false by reflexivity.
  cbn [Str.append] in Hx |- *. rewrite Hx.
  cbn [drop].
  destruct d as [|c' d].
  - destruct (at_end_cases _ He) as [-> | ->]; reflexivity.
  - pose proof (strip_number 0 (String c' d) e eq_refl Hd He) as Hs.
    cbn [repeat_char Str.append] in Hs. cbn [Str.append]. rewrite Hs.
    now rewrite (to_int_digits (String c' d) eq_refl Hd).
Qed.

(** *** Styles *)

Lemma dict_get_set {A : Type} k (v : A) d k' :
  dict_get k' (dict_set k v d)
  = if Str.eqb k k' then Some v else dict_get k' d.
Proof.
  induction d as [|[k0 v0] d IH]; simpl.
  - reflexivity.
  - destruct (Str.eqb k0 k) eqn:E0; simpl.
    + apply str_eqb_eq in E0. subst k0.
      now destruct (Str.eqb k k').
    + rewrite IH. destruct (Str.eqb k0 k') eqn:E1; [|reflexivity].
      apply str_eqb_eq in E1. subst k0. now rewrite str_eqb_sym, E0.
Qed.

(** X21. A style line that parses defines its style (lines 521-571):
    afterwards the name of the line stands for the style just read, whether
    or not the name was defined before, and every other name stands for what
    it stood for. *)
Theorem X21_style_line_defines path keep_original (st : @Parsed R) line fields s :
  p_section st = "V4+ Styles" ->
  style_match line = Some fields ->
  parse_style py_float (split_on comma fields) = Done s ->
  exists st',
    parse_line py_float path keep_original st line = Done st'
    /\ dict_get (hd "" (split_on comma fields)) (p_styles st') = Some s
    /\ (forall name,
          name <> hd "" (split_on comma fields) ->
          dict_get name (p_styles st') = dict_get name (p_styles st))
    /\ p_lines st' = p_lines st
    /\ p_output st' = (p_output st ++ [line])%list.
Proof.
  intros Hsec Hm Hs. unfold parse_line.
  rewrite (style_match_section _ _ Hm), Hsec, Hm.
  cbn [Str.eqb N.eqb Pos.eqb andb orb]. rewrite Hs. cbn [and_then].
  eexists. split; [reflexivity|]. cbn [p_styles p_lines p_output].
  split; [|split; [|split; reflexivity]].
  - now rewrite dict_get_set, str_eqb_refl.
  - intros name Hname. rewrite dict_get_set.
    destruct (Str.eqb _ name) eqn:E; [|reflexivity].
    apply str_eqb_eq in E. congruence.
Qed.

(** *** Media files *)

(** X22. The path of a media file (lines 479-496): what
    [get_media_abs_path] returns is the string it was given or the path of
    an existing file, and a dummy video is returned as it is. *)
Theorem X22_media_path_result path mediafile :
  (get_media_abs_path path mediafile = mediafile
   \/ isfile (get_media_abs_path path mediafile) = true)
  /\ (startswith "?dummy" mediafile = true ->
      get_media_abs_path path mediafile = mediafile).
Proof.
  unfold get_media_abs_path.
  destruct (startswith "?dummy" mediafile); simpl; [auto|].
  split; [|discriminate].
  destruct (up_dirs (dirname path) mediafile) as [media_dir file].
  destruct (isfile (normpath (media_dir ++ sep ++ file))) eqn:E; simpl; auto.
Qed.

End Document.

(** ** [pretty_print] *)

Section PrintingFacts.

Context {atom : Type}.

Variable py_str : pyval atom -> str.

Lemma pretty_print_eq obj indent name :
  pretty_print py_str obj indent name
  = match obj with
    | VObj cls attrs =>
        out <- head_line py_str cls attrs indent name ;;
        print_fields py_str indent attrs out
    | _ => Raise AttributeError
    end.
Proof.
  destruct obj as [a|l|cls attrs]; try reflexivity.
  cbn [pretty_print].
  destruct (head_line py_str cls attrs indent name) as [out|e];
    [|reflexivity].
  cbn [bind]. revert out.
  induction attrs as [|[k v] attrs IH]; intros out; [reflexivity|].
  cbn [print_fields]. destruct v as [a|l|c d].
  - apply IH.
  - assert (forall i out,
              (fix elements (l : list (pyval atom)) (i : nat) (out : str)
                   {struct l} : result str :=
                 match l with
                 | [] => Ok out
                 | el :: l' =>
                     s <- pretty_print py_str el (indent + 4)
                            (k ++ "[" ++ str_int (Z.of_nat i) ++ "] ") ;;
                     elements l' (S i) (out ++ s)
                 end) l i out
              = print_elements py_str indent k l i out) as ->.
    { induction l as [|el l IHl]; intros i o; [reflexivity|].
      cbn [print_elements].
      destruct (pretty_print py_str el (indent + 4) _); [|reflexivity].
      cbn [bind]. apply IHl. }
    destruct (print_elements py_str indent k l 0 out); [|reflexivity].
    cbn [bind]. apply IH.
  - destruct (pretty_print py_str (VObj c d) (indent + 4) (k ++ " "));
      [|reflexivity].
    cbn [bind]. apply IH.
Qed.

Lemma print_fields_app indent a1 a2 out :
  print_fields py_str indent (a1 ++ a2) out
  = (out' <- print_fields py_str indent a1 out ;; print_fields py_str indent a2 out').
Proof.
  revert out; induction a1 as [|[k v] a1 IH]; intros out; [reflexivity|].
  rewrite <- app_comm_cons. cbn [print_fields]. destruct v as [a|l|c d].
  - apply IH.
  - destruct (print_elements py_str indent k l 0 out); [|reflexivity].
    cbn [bind]. apply IH.
  - destruct (pretty_print py_str (VObj c d) (indent + 4) (k ++ " "));
      [|reflexivity].
    cbn [bind]. apply IH.
Qed.

Lemma dict_get_skip {A : Type} key k (v : A) a1 a2 :
  k <> key ->
  dict_get key (a1 ++ (k, v) :: a2) = dict_get key (a1 ++ a2).
Proof.
  intros Hk. induction a1 as [|[k0 v0] a1 IH]; simpl.
  - destruct (Str.eqb k key) eqn:E; [|reflexivity].
    apply str_eqb_eq in E. congruence.
  - now rewrite IH.
Qed.

(** X24. An attribute that holds an empty list leaves no trace in the text
    of [pretty_print] (lines 48-51): the object prints as if it did not have
    the attribute. A line whose [syls] is empty shows no [syls] at all. *)
Theorem X24_empty_list_not_printed cls a1 k a2 indent name :
  k <> "i" ->
  pretty_print py_str (VObj cls (a1 ++ (k, VList []) :: a2)) indent name
  = pretty_print py_str (VObj cls (a1 ++ a2)) indent name.
Proof.
  intros Hk. rewrite !pretty_print_eq.
  assert (head_line py_str cls (a1 ++ (k, VList []) :: a2) indent name
          = head_line py_str cls (a1 ++ a2) indent name) as ->.
  { unfold head_line. now rewrite (dict_get_skip "i" k _ a1 a2 Hk). }
  destruct (head_line py_str cls (a1 ++ a2) indent name) as [out|e];
    [|reflexivity].
  cbn [bind]. rewrite !print_fields_app.
  destruct (print_fields py_str indent a1 out); reflexivity.
Qed.

End PrintingFacts.

(** ** Saving and opening the output *)

Section Opening.

Context {R C : Type} {num : PyNum R} {font : FontProvider R}.
Context {os : Os} {conv : Convert C}.

Variable py_float : str -> option R.

Lemma init_unsaved path ko ext vk file (a : @Ass R) :
  init py_float path ko ext vk file = Done a -> ass_saved a = false.
Proof.
  unfold init. intros H. bind_done H. destruct ext; simpl in H.
  - bind_done H. now injection H as <-.
  - now injection H as <-.
Qed.

(** X25. Nothing is opened before [save] (lines 1211-1215 and 1241-1245):
    on the document the constructor leaves, [open_aegisub] and [open_mpv]
    return -1 and start no program, whatever the platform and the programs
    installed. *)
Theorem X25_nothing_opened_before_save path keep_original extended vertical_kanji
    file (a : @Ass R) path_output win32 found abspath video_path video_start
    full_screen :
  init py_float path keep_original extended vertical_kanji file = Done a ->
  (fst (open_aegisub path_output win32 found abspath a) = (-1)%Z
   /\ existsb launches (snd (open_aegisub path_output win32 found abspath a))
      = false)
  /\ exists effects,
       open_mpv path_output found a video_path video_start full_screen
       = Ok ((-1)%Z, effects)
       /\ existsb launches effects = false.
Proof.
  intros H. pose proof (init_unsaved _ _ _ _ _ _ H) as Hs.
  unfold open_aegisub, open_mpv. rewrite Hs. simpl. split; [now split|].
  eexists. split; reflexivity.
Qed.

Lemma parse_meta_video path m line m' line' :
  parse_meta path m line = Done (m', line') ->
  startswith "Video File:" line = false ->
  Header.video m' = Header.video m.
Proof.
  unfold parse_meta. intros H Hv.
  assert (any_line "Video File:" line = false) as Hany.
  { unfold any_line. unfold startswith in Hv.
    now destruct (after_prefix "Video File:" line). }
  rewrite Hany in H.
  repeat match type of H with
         | (if ?b then _ else _) = _ => destruct b
         end;
    bind_done H; now injection H as <- _.
Qed.

Lemma parse_line_video path ko (st st' : @Parsed R) line :
  parse_line py_float path ko st line = Done st' ->
  startswith "Video File:" line = false ->
  Header.video (p_meta st') = Header.video (p_meta st).
Proof.
  unfold parse_line. intros H Hv.
  destruct (section_match line); [now injection H as <-|].
  destruct (_ || _).
  { bind_done H. destruct a as [m' line']. injection H as <-. simpl.
    exact (parse_meta_video _ _ _ _ _ E Hv). }
  destruct (Str.eqb (p_section st) "V4+ Styles").
  { destruct (style_match line); [|now injection H as <-].
    bind_done H. now injection H as <-. }
  destruct (Str.eqb (p_section st) "Events"); [|now injection H as <-].
  assert (Header.video
            (p_meta (if ko then emit st (comment_out line) else st))
          = Header.video (p_meta st)) as Hm by now destruct ko.
  revert H Hm. generalize (if ko then emit st (comment_out line) else st).
  intros st0 H Hm.
  destruct (event_match line) as [[kind body]|].
  - bind_done H. now injection H as <-.
  - now injection H as <-.
Qed.

Lemma parse_lines_video path ko file :
  forall st st' : @Parsed R,
    parse_lines py_float path ko st file = Done st' ->
    Forall (fun line => startswith "Video File:" line = false) file ->
    Header.video (p_meta st') = Header.video (p_meta st).
Proof.
  induction file as [|line file IH]; intros st st' H Hf.
  - now injection H as <-.
  - simpl in H. bind_done H. inversion Hf; subst.
    rewrite (IH _ _ H); [|assumption].
    now apply (parse_line_video _ _ _ _ _ E).
Qed.

(** X26. For a file none of whose lines starts with [Video File:], the
    document has no [meta.video]; once it is saved, [open_mpv] raises an
    AttributeError at line 1248, also when the call names the video to play
    in [video_path]. *)
Theorem X26_open_mpv_without_video path keep_original extended vertical_kanji
    file (a : @Ass R) path_output duration quiet found video_path
    video_start full_screen :
  init py_float path keep_original extended vertical_kanji file = Done a ->
  Forall (fun line => startswith "Video File:" line = false) file ->
  open_mpv path_output found (fst (save path_output duration quiet a))
    video_path video_start full_screen
  = Raise AttributeError.
Proof.
  intros H Hf.
  destruct (init_lines _ _ _ _ _ _ _ H) as (st & Hp & Hm & _).
  pose proof (parse_lines_video _ _ _ _ _ Hp Hf) as Hv.
  unfold open_mpv, save. cbn [fst ass_saved ass_meta negb].
  now rewrite Hm, Hv.
Qed.

End Opening.

(** ** The further properties on concrete lines and on a concrete file *)

Lemma X4_witness :
  exists line' ws,
    run true 2 1280 720 hi_there_wide = Ok line'
    /\ Line.words line' = Some ws
    /\ map (@Word.text Q) ws = ["Hi"; "there"]
    /\ Forall (fun w => nonempty (Word.text w) = true
                        /\ forall_chars nonspace (Word.text w) = true) ws
    /\ (forall k w, nth_error ws (S k) = Some w -> Word.prespace w = 0%nat).
Proof.
  destruct (run true 2 1280 720 hi_there_wide) as [line'|e] eqn:E;
    [|vm_compute in E; discriminate].
  destruct (Line.words line') as [ws|] eqn:Ew;
    [|vm_compute in E; injection E as <-; discriminate Ew].
  exists line', ws. split; [reflexivity|]. split; [exact Ew|].
  split.
  - vm_compute in E. injection E as <-. vm_compute in Ew.
    injection Ew as <-. reflexivity.
  - exact (@X4_line_words_shape Q Sample.qnum Sample.mono
             (Sample.meta 1280 720) true (Sample.styles 2)
             (Sample.line 0 0 5000 "Default" hi_there_wide)
             (Sample.style 2) line' ws eq_refl E Ew).
Defined.

Lemma X5_witness :
  exists line' ws syls cs,
    run true 2 1280 720 "{\k50}Hel{\k30}lo {\k40}world" = Ok line'
    /\ Line.words line' = Some ws
    /\ Line.syls line' = Some syls
    /\ Line.chars line' = Some cs
    /\ map (@Word.i Q) ws = seq 0 (List.length ws)
    /\ map (@Syllable.i Q) syls = seq 0 (List.length syls)
    /\ map (@Char.i Q) cs = seq 0 (List.length cs).
Proof.
  destruct (run true 2 1280 720 "{\k50}Hel{\k30}lo {\k40}world")
    as [line'|e] eqn:E; [|vm_compute in E; discriminate].
  destruct (@X5_element_indices Q Sample.qnum Sample.mono
              (Sample.meta 1280 720) true (Sample.styles 2)
              (Sample.line 0 0 5000 "Default" "{\k50}Hel{\k30}lo {\k40}world")
              (Sample.style 2) line' eq_refl E)
    as (ws & syls & cs & H).
  exists line', ws, syls, cs. split; [reflexivity | exact H].
Defined.

Lemma X6_witness :
  exists line' cs,
    run true 2 1280 720 hi_there_wide = Ok line'
    /\ Line.syls line' = Some []
    /\ Line.chars line' = Some cs
    /\ Str.concat "" (map (@Char.text Q) cs) = "Hi there"
    /\ Forall one_character cs.
Proof.
  destruct (run true 2 1280 720 hi_there_wide) as [line'|e] eqn:E;
    [|vm_compute in E; discriminate].
  assert (Line.syls line' = Some []) as Es
    by (vm_compute in E; injection E as <-; reflexivity).
  destruct (Line.chars line') as [cs|] eqn:Ec;
    [|vm_compute in E; injection E as <-; discriminate Ec].
  exists line', cs. split; [reflexivity|]. split; [exact Es|].
  split; [exact Ec|].
  destruct (@X6_chars_spell_text Q Sample.qnum Sample.mono
              (Sample.meta 1280 720) true (Sample.styles 2)
              (Sample.line 0 0 5000 "Default" hi_there_wide)
              (Sample.style 2) line' cs eq_refl E Es Ec) as [H1 H2].
  split; [rewrite H1; reflexivity | exact H2].
Defined.

Lemma X7_witness :
  no_newline hi_there_wide
  /\ exists line' cs,
       run true 2 1280 720 hi_there_wide = Ok line'
       /\ Line.syls line' = Some []
       /\ Line.chars line' = Some cs
       /\ List.length cs = 8%nat.
Proof.
  split; [reflexivity|].
  destruct (@X7_chars_count Q Sample.qnum Sample.mono
              (Sample.meta 1280 720) true (Sample.styles 2)
              (Sample.line 0 0 5000 "Default" hi_there_wide)
              (Sample.style 2) eq_refl eq_refl)
    as (line' & syls & cs & H1 & H2 & H3 & _ & H5).
  exists line', cs. split; [exact H1|].
  vm_compute in H1. injection H1 as <-.
  vm_compute in H2. injection H2 as <-.
  split; [reflexivity|]. split; [exact H3|].
  rewrite H5. reflexivity.
Defined.

Lemma X8_witness :
  exists line' syls,
    run true 2 1280 720 "{\k50\-glow}Hel{\k30}lo {\k40\-fade}world" = Ok line'
    /\ Line.syls line' = Some syls
    /\ map (@Syllable.inline_fx Q) syls = ["glow"; "glow"; "fade"].
Proof.
  destruct (run true 2 1280 720 "{\k50\-glow}Hel{\k30}lo {\k40\-fade}world")
    as [line'|e] eqn:E; [|vm_compute in E; discriminate].
  destruct (Line.syls line') as [syls|] eqn:Es;
    [|vm_compute in E; injection E as <-; discriminate Es].
  exists line', syls. split; [reflexivity|]. split; [exact Es|].
  rewrite (@X8_inline_fx_carried Q Sample.qnum Sample.mono
             (Sample.meta 1280 720) true (Sample.styles 2)
             (Sample.line 0 0 5000 "Default"
                "{\k50\-glow}Hel{\k30}lo {\k40\-fade}world")
             (Sample.style 2) line' syls eq_refl E Es).
  vm_compute in E. injection E as <-. vm_compute in Es. injection Es as <-.
  reflexivity.
Defined.

Lemma X9_witness :
  exists line' ws syls cs,
    run true 5 1280 720 "{\k50}Hel{\k30}lo {\k40}world" = Ok line'
    /\ Line.words line' = Some ws
    /\ Line.syls line' = Some syls
    /\ Line.chars line' = Some cs
    /\ Forall (fun w => @boxed Q Sample.qnum 5 (Word.width w) (Word.pos w)) ws
    /\ Forall (fun s => @boxed Q Sample.qnum 5 (Syllable.width s)
                          (Syllable.pos s)) syls
    /\ Forall (fun c => @boxed Q Sample.qnum 5 (Char.width c) (Char.pos c))
         cs.
Proof.
  destruct (run true 5 1280 720 "{\k50}Hel{\k30}lo {\k40}world")
    as [line'|e] eqn:E; [|vm_compute in E; discriminate].
  destruct (@X9_element_boxes Q Sample.qnum Sample.mono
              (Sample.meta 1280 720) true (Sample.styles 5)
              (Sample.line 0 0 5000 "Default" "{\k50}Hel{\k30}lo {\k40}world")
              (Sample.style 5) line' eq_refl E)
    as (ws & syls & cs & H).
  exists line', ws, syls, cs. split; [reflexivity | exact H].
Defined.

Lemma X10_witness :
  exists a,
    SampleFile.new true true SampleFile.lines = Done a
    /\ map (@Line.i Q) (ass_lines a) = [0; 1]%nat.
Proof.
  unfold SampleFile.new.
  destruct (@init Q str Sample.qnum Sample.mono SampleFile.os
              SampleFile.conv SampleFile.float_of "/subs/in.ass" true true true
              SampleFile.lines) as [a|e] eqn:E;
    [|vm_compute in E; discriminate].
  exists a. split; [reflexivity|].
  rewrite (@X10_parsed_line_indices Q str Sample.qnum Sample.mono
             SampleFile.os SampleFile.conv SampleFile.float_of
             "/subs/in.ass" true true true SampleFile.lines a E).
  vm_compute in E. injection E as <-. reflexivity.
Defined.

Lemma X11_witness :
  exists a,
    SampleFile.new true false SampleFile.lines = Done a
    /\ Forall (fun l => no_newline (Line.raw_text l)) (ass_lines a).
Proof.
  unfold SampleFile.new.
  destruct (@init Q str Sample.qnum Sample.mono SampleFile.os
              SampleFile.conv SampleFile.float_of "/subs/in.ass" true false true
              SampleFile.lines) as [a|e] eqn:E;
    [|vm_compute in E; discriminate].
  exists a. split; [reflexivity|].
  exact (@X11_parsed_raw_text Q str Sample.qnum Sample.mono
           SampleFile.os SampleFile.conv SampleFile.float_of
           "/subs/in.ass" true false true SampleFile.lines a E).
Defined.

Lemma X13_witness :
  SampleFile.new false true SampleFile.lines_without_resolution
  = Failed (Exn AttributeError).
Proof.
  unfold SampleFile.new.
  destruct (@parse_lines Q str SampleFile.os SampleFile.conv
              SampleFile.float_of "/subs/in.ass" false parser_start
              SampleFile.lines_without_resolution) as [st|e] eqn:E;
    [|vm_compute in E; discriminate].
  apply (@X13_missing_resolution Q str Sample.qnum Sample.mono
           SampleFile.os SampleFile.conv SampleFile.float_of
           "/subs/in.ass" false true SampleFile.lines_without_resolution
           st E).
  - vm_compute in E. injection E as <-. reflexivity.
  - vm_compute in E. injection E as <-.
    eexists. split; [left; reflexivity|]. vm_compute. discriminate.
Defined.

Lemma X14_witness :
  exists a l,
    SampleFile.new true false SampleFile.lines = Done a
    /\ nth_error (ass_lines a) 0 = Some l
    /\ @write_line Q Sample.time_str (PyLine l) (mkOutput [] 0)
       = (mkOutput [] 0, Raise AttributeError).
Proof.
  unfold SampleFile.new.
  destruct (@init Q str Sample.qnum Sample.mono SampleFile.os
              SampleFile.conv SampleFile.float_of "/subs/in.ass" true false true
              SampleFile.lines) as [a|e] eqn:E;
    [|vm_compute in E; discriminate].
  destruct (nth_error (ass_lines a) 0) as [l|] eqn:El;
    [|vm_compute in E; injection E as <-; discriminate El].
  exists a, l. split; [reflexivity|]. split; [exact El|].
  exact (@X14_unextended_line_unwritable Q str Sample.qnum Sample.mono
           SampleFile.os SampleFile.conv SampleFile.float_of Sample.time_str
           "/subs/in.ass" true true SampleFile.lines a l (mkOutput [] 0) E
           (nth_error_In _ _ El)).
Defined.
Lemma X15_witness :
  exists record st',
    @write_line Q Sample.time_str
      (PyLine (Line.mk 0 false 0 1000 2500 None None None "Default" None
                 "Anna" 0 0 0 "" "{\k50}Hel{\k30}lo" (Some "{\k50}Hel{\k30}lo")
                 None None None None None None None))
      (mkOutput [] 0)
    = (mkOutput [String newline record] 1, Ok tt)
    /\ @parse_line Q str SampleFile.os SampleFile.conv SampleFile.float_of
         "/subs/in.ass" true (mkParsed "Events" 7 Header.empty [] [] [])
         (record ++ String newline "") = Done st'
    /\ p_lines st'
       = [Line.mk 7 false 0 1000 2500 None None None "Default" None
            "Anna" 0 0 0 "" "{\k50}Hel{\k30}lo"
            None None None None None None None None].
Proof.
  destruct (@X15_write_then_parse Q str SampleFile.os SampleFile.conv
              SampleFile.float_of Sample.time_str "/subs/in.ass" true
              (mkParsed "Events" 7 Header.empty [] [] [])
              (Line.mk 0 false 0 1000 2500 None None None "Default" None
                 "Anna" 0 0 0 "" "{\k50}Hel{\k30}lo"
                 (Some "{\k50}Hel{\k30}lo")
                 None None None None None None None)
              "{\k50}Hel{\k30}lo" (mkOutput [] 0) (String newline "")
              eq_refl eq_refl eq_refl eq_refl eq_refl eq_refl eq_refl eq_refl
              eq_refl eq_refl eq_refl)
    as (record & st' & H1 & H2 & H3).
  exists record, st'. split; [exact H1|]. split; [exact H2 | exact H3].
Defined.

Lemma X16_witness :
  exists e,
    @parse_line Q str SampleFile.os SampleFile.conv SampleFile.float_of
      "/subs/in.ass" true (mkParsed "Events" 0 Header.empty [] [] [])
      (SampleFile.nl "Dialogue: 0,0,5000,Default,,0,0,0")
    = Failed e.
Proof.
  apply (@X16_short_line_fails Q str SampleFile.os SampleFile.conv
           SampleFile.float_of "/subs/in.ass" true
           (mkParsed "Events" 0 Header.empty [] [] [])
           (SampleFile.nl "Dialogue: 0,0,5000,Default,,0,0,0")).
  left. split; [reflexivity|].
  exists "Dialogue", "0,0,5000,Default,,0,0,0".
  split; [reflexivity | vm_compute; lia].
Defined.

Lemma X17_witness :
  @parse_lines Q str SampleFile.os SampleFile.conv SampleFile.float_of
    "/subs/in.ass" true (mkParsed "Fonts" 0 Header.empty [] [] [])
    [SampleFile.nl "fontname: a.ttf"; SampleFile.nl "Dialogue: 0,0,1,x,,0,0,0,,y"]
  = Done (mkParsed "Fonts" 0 Header.empty [] [] []).
Proof.
  apply (@X17_unknown_section_dropped Q str SampleFile.os SampleFile.conv
           SampleFile.float_of "/subs/in.ass" true
           (mkParsed "Fonts" 0 Header.empty [] [] [])).
  - reflexivity.
  - repeat constructor.
Defined.

Lemma X18_witness :
  exists st',
    @parse_lines Q str SampleFile.os SampleFile.conv SampleFile.float_of
      "/subs/in.ass" true
      (mkParsed "Events" 0 Header.empty [] [] [SampleFile.nl "[Events]"])
      [SampleFile.nl "Dialogue: 0,0,5000,Default,,0,0,0,,Hi there";
       SampleFile.nl "Comment: 0,0,5000,Default,,0,0,0,,a note"]
    = Done st'
    /\ p_output st'
       = [SampleFile.nl "[Events]";
          SampleFile.nl "Comment: 0,0,5000,Default,,0,0,0,,Hi there";
          SampleFile.nl "Comment: 0,0,5000,Default,,0,0,0,,a note"].
Proof.
  destruct (@parse_lines Q str SampleFile.os SampleFile.conv
              SampleFile.float_of "/subs/in.ass" true
              (mkParsed "Events" 0 Header.empty [] []
                 [SampleFile.nl "[Events]"])
              [SampleFile.nl "Dialogue: 0,0,5000,Default,,0,0,0,,Hi there";
               SampleFile.nl "Comment: 0,0,5000,Default,,0,0,0,,a note"])
    as [st'|e] eqn:E; [|vm_compute in E; discriminate].
  exists st'. split; [reflexivity|].
  destruct (@X18_events_in_output Q str SampleFile.os SampleFile.conv
              SampleFile.float_of "/subs/in.ass" true
              (mkParsed "Events" 0 Header.empty [] []
                 [SampleFile.nl "[Events]"])
              st'
              [SampleFile.nl "Dialogue: 0,0,5000,Default,,0,0,0,,Hi there";
               SampleFile.nl "Comment: 0,0,5000,Default,,0,0,0,,a note"]
              eq_refl ltac:(repeat constructor) E) as [H _].
  rewrite H. reflexivity.
Defined.

Lemma X19_witness :
  @parse_meta SampleFile.os "/subs/in.ass" Header.empty
    (SampleFile.nl "PlayResX:  1280")
  = Done (Header.set_play_res_x Header.empty 1280,
          SampleFile.nl "PlayResX:  1280").
Proof.
  exact (proj1 (@X19_play_res_parsed SampleFile.os "/subs/in.ass" Header.empty 2
                  "1280" (String newline "")
                  ltac:(lia) eq_refl eq_refl eq_refl)).
Defined.

Lemma X20_witness :
  @parse_meta SampleFile.os "/subs/in.ass" Header.empty
    (SampleFile.nl "PlayResX:1280")
  = Done (Header.set_play_res_x Header.empty 280,
          SampleFile.nl "PlayResX:1280").
Proof.
  exact (@X20_play_res_without_blank SampleFile.os "/subs/in.ass" Header.empty
           "1"%char "280" (String newline "") eq_refl eq_refl eq_refl).
Defined.

Lemma X21_witness :
  exists st' s,
    @parse_line Q str SampleFile.os SampleFile.conv SampleFile.float_of
      "/subs/in.ass" true (mkParsed "V4+ Styles" 0 Header.empty [] [] [])
      SampleFile.style_line = Done st'
    /\ dict_get "Default" (p_styles st') = Some s
    /\ Style.fontname s = "Arial"
    /\ Style.alignment s = 2%Z.
Proof.
  destruct (@parse_style Q str SampleFile.conv SampleFile.float_of
              (split_on comma
                 ("Default,Arial,20,&H00FFFFFF,&H000000FF,&H00000000,"
                  ++ "&H00000000,0,0,0,0,100,100,0,0,1,2,0,2,10,10,10,1")))
    as [s|e] eqn:E; [|vm_compute in E; discriminate].
  destruct (@X21_style_line_defines Q str SampleFile.os SampleFile.conv
              SampleFile.float_of "/subs/in.ass" true
              (mkParsed "V4+ Styles" 0 Header.empty [] [] [])
              SampleFile.style_line _ s eq_refl eq_refl E)
    as (st' & H1 & H2 & _).
  exists st', s. split; [exact H1|]. split; [exact H2|].
  vm_compute in E. injection E as <-. split; reflexivity.
Defined.

Lemma X24_witness :
  @pretty_print str (fun _ => "7") 
    (VObj ClsLine [("i", VAtom "7"); ("syls", VList []); ("text", VAtom "7")])
    0 ""
  = @pretty_print str (fun _ => "7")
      (VObj ClsLine [("i", VAtom "7"); ("text", VAtom "7")]) 0 "".
Proof.
  apply (@X24_empty_list_not_printed str (fun _ => "7") ClsLine
           [("i", VAtom "7")] "syls" [("text", VAtom "7")] 0 "").
  discriminate.
Defined.

Lemma X25_witness :
  exists a,
    SampleFile.new true true SampleFile.lines = Done a
    /\ fst (open_aegisub "/subs/out.ass" false true (fun s => s) a) = (-1)%Z
    /\ exists effects,
         open_mpv "/subs/out.ass" true a "/video.mkv" "" false
         = Ok ((-1)%Z, effects)
         /\ existsb launches effects = false.
Proof.
  unfold SampleFile.new.
  destruct (@init Q str Sample.qnum Sample.mono SampleFile.os
              SampleFile.conv SampleFile.float_of "/subs/in.ass" true true true
              SampleFile.lines) as [a|e] eqn:E;
    [|vm_compute in E; discriminate].
  exists a. split; [reflexivity|].
  destruct (@X25_nothing_opened_before_save Q str Sample.qnum Sample.mono
              SampleFile.os SampleFile.conv SampleFile.float_of
              "/subs/in.ass" true true true SampleFile.lines a
              "/subs/out.ass" false true (fun s => s) "/video.mkv" "" false E)
    as [[H1 _] H2].
  split; [exact H1 | exact H2].
Defined.

Lemma X26_witness :
  exists a,
    SampleFile.new true true SampleFile.lines = Done a
    /\ open_mpv "/subs/out.ass" true
         (fst (save "/subs/out.ass" "0.100" true a)) "/video.mkv" "" false
       = Raise AttributeError.
Proof.
  unfold SampleFile.new.
  destruct (@init Q str Sample.qnum Sample.mono SampleFile.os
              SampleFile.conv SampleFile.float_of "/subs/in.ass" true true true
              SampleFile.lines) as [a|e] eqn:E;
    [|vm_compute in E; discriminate].
  exists a. split; [reflexivity|].
  apply (@X26_open_mpv_without_video Q str Sample.qnum Sample.mono
           SampleFile.os SampleFile.conv SampleFile.float_of
           "/subs/in.ass" true true true SampleFile.lines a
           "/subs/out.ass" "0.100" true true "/video.mkv" "" false E).
  repeat constructor.
Defined.
